(** * LLM output verification pipeline: a shallow embedding

    This development embeds the verifier of [worker/src/lib/llm-verifier]
    ([utils.ts] and [LLMVerifier.ts]) and checks the statements made about it.

    Conventions of the embedding.
    - A JavaScript string is a Rocq [string] holding its UTF-8 bytes; its
      length is counted in UTF-16 code units by [js_length]. [toLowerCase],
      [\s] and [trim] act on the ASCII range and the line terminators
      recognised by [.] are LF and CR.
    - A JavaScript number is a [number]: NaN, an infinity or an exact
      rational. Of the rounding to binary64 only the underflow of a literal
      to zero is represented, which decides whether the number is falsy;
      the results of arithmetic are exact.
    - A thrown value is [null], [undefined] or an [ErrorObject], whose
      [code], [status] and [message] are [undefined], [null], a boolean, an
      integer or a string and which has a constructor; thrown values with
      other fields, such as a message that is an object or a symbol, are
      outside the embedding.
    - A value that can be [undefined] is an [option].
    - An exception is a [Throw] completion carrying the thrown value.
    - The provider SDK clients are an oracle; logging and Sentry calls return
      normally and leave the returned values unchanged, so they are omitted. *)

From Stdlib Require Import String Ascii List ZArith QArith Bool Lia DecimalString.
From stdpp Require Import base option list gmap strings.

Import ListNotations.
Local Open Scope string_scope.
Local Open Scope Z_scope.

(** ** Strings *)

(** [String.prototype.includes]. *)
Fixpoint includes (s needle : string) : bool :=
  if String.prefix needle s then true
  else match s with
       | EmptyString => false
       | String _ s' => includes s' needle
       end.

Definition is_upper (c : ascii) : bool :=
  (65 <=? nat_of_ascii c)%nat && (nat_of_ascii c <=? 90)%nat.
Definition is_lower (c : ascii) : bool :=
  (97 <=? nat_of_ascii c)%nat && (nat_of_ascii c <=? 122)%nat.
Definition is_digit (c : ascii) : bool :=
  (48 <=? nat_of_ascii c)%nat && (nat_of_ascii c <=? 57)%nat.

Definition lower_char (c : ascii) : ascii :=
  if is_upper c then ascii_of_nat (nat_of_ascii c + 32) else c.

(** [String.prototype.toLowerCase]. *)
Fixpoint toLowerCase (s : string) : string :=
  match s with
  | EmptyString => EmptyString
  | String c s' => String (lower_char c) (toLowerCase s')
  end.

(** The white space of [\s] and of [trim]: TAB, LF, VT, FF, CR, SP. *)
Definition is_space (c : ascii) : bool :=
  let n := nat_of_ascii c in
  ((9 <=? n)%nat && (n <=? 13)%nat) || (n =? 32)%nat.

Fixpoint trimStart (s : string) : string :=
  match s with
  | String c s' => if is_space c then trimStart s' else s
  | EmptyString => EmptyString
  end.

Fixpoint trimEnd (s : string) : string :=
  match s with
  | EmptyString => EmptyString
  | String c s' =>
      match trimEnd s' with
      | EmptyString => if is_space c then EmptyString else String c EmptyString
      | t => String c t
      end
  end.

(** [String.prototype.trim]. *)
Definition trim (s : string) : string := trimEnd (trimStart s).

(** The text consumed between a string and one of its suffixes. *)
Definition consumed (s rest : string) : string :=
  substring 0 (String.length s - String.length rest) s.

(** The double quote character. *)
Definition dquote : ascii := ascii_of_nat 34.

(** [String.prototype.length]: the number of UTF-16 code units of a text
    that is held as UTF-8. A continuation byte adds nothing and the first
    byte of a four-byte sequence stands for a surrogate pair. *)
Fixpoint js_length (s : string) : nat :=
  match s with
  | EmptyString => 0%nat
  | String c s' =>
      let n := nat_of_ascii c in
      ((if (128 <=? n)%nat && (n <? 192)%nat then 0
        else if (240 <=? n)%nat then 2 else 1) + js_length s')%nat
  end.

(** ** Numbers *)

Inductive number :=
| NaN
| Infinity (negative : bool)
| Num (q : Q).

Definition num_of_Z (z : Z) : number := Num (inject_Z z).
Coercion num_of_Z : Z >-> number.

(** [a < b] on numbers: false as soon as one side is NaN. *)
Definition js_lt (a b : number) : bool :=
  match a, b with
  | NaN, _ | _, NaN => false
  | Infinity true, Infinity true => false
  | Infinity true, _ => true
  | _, Infinity true => false
  | Infinity false, _ => false
  | Num _, Infinity false => true
  | Num x, Num y => negb (Qle_bool y x)
  end.

Definition js_num_eq (a b : number) : bool :=
  match a, b with
  | Infinity s, Infinity t => Bool.eqb s t
  | Num x, Num y => Qeq_bool x y
  | _, _ => false
  end.

Definition js_gt (a b : number) : bool := js_lt b a.
Definition js_le (a b : number) : bool := js_lt a b || js_num_eq a b.
Definition js_ge (a b : number) : bool := js_lt b a || js_num_eq a b.

Definition js_isNaN (a : number) : bool :=
  match a with NaN => true | _ => false end.

(** [a / b]; the sign of a zero is not represented, a zero divisor counts as
    [+0]. *)
Definition js_div (a b : number) : number :=
  match a, b with
  | NaN, _ | _, NaN => NaN
  | Infinity _, Infinity _ => NaN
  | Infinity s, Num y => Infinity (xorb s (negb (Qle_bool 0 y)))
  | Num _, Infinity _ => Num 0
  | Num x, Num y =>
      if Qeq_bool y 0
      then (if Qeq_bool x 0 then NaN else Infinity (negb (Qle_bool 0 x)))
      else Num (x / y)
  end.

(** [utils.ts], [normalizeScore]. *)
Definition normalizeScore (score : number) : number :=
  if js_le score 0 then 0
  else if js_ge score 1 then 1
  else if js_gt score 100 then js_div score 100
  else if js_gt score 10 then js_div score 10
  else if js_gt score 5 then js_div score 5
  else score.


(** ** Regular expressions

    The patterns of the source are small; they are written as terms of
    [regex] and run by a backtracking matcher that follows the ECMAScript
    order of alternatives: a greedy quantifier tries one more iteration
    first, a lazy one tries the continuation first, and an iteration that
    consumes nothing is rejected. *)

Inductive regex :=
| Eps
| Chr (p : ascii -> bool)
| Seq (r1 r2 : regex)
| Alt (r1 r2 : regex)
| Star (greedy : bool) (r : regex)
| Group (n : nat) (r : regex).

Definition Plus (greedy : bool) (r : regex) : regex := Seq r (Star greedy r).
Definition Opt (r : regex) : regex := Alt r Eps.

Definition captures := list (nat * string).

(** Group [n] of a match, [undefined] when the group did not take part. *)
Fixpoint group (n : nat) (caps : captures) : option string :=
  match caps with
  | [] => None
  | (m, s) :: caps' => if (m =? n)%nat then Some s else group n caps'
  end.

(** The iterations of a starred pattern whose body is run by [step]. The
    fuel is the length of the text, which every iteration shortens. *)
Fixpoint iterate {R : Type}
    (step : string -> captures -> (string -> captures -> option R) -> option R)
    (greedy : bool) (k : string -> captures -> option R)
    (fuel : nat) (s : string) (caps : captures) : option R :=
  match fuel with
  | O => k s caps
  | S fuel' =>
      let again s' caps' :=
        if (String.length s' <? String.length s)%nat
        then iterate step greedy k fuel' s' caps' else None in
      if greedy
      then match step s caps again with
           | Some x => Some x
           | None => k s caps
           end
      else match k s caps with
           | Some x => Some x
           | None => step s caps again
           end
  end.

Fixpoint rmatch {R : Type} (r : regex) (s : string) (caps : captures)
    (k : string -> captures -> option R) : option R :=
  match r with
  | Eps => k s caps
  | Chr p =>
      match s with
      | String c s' => if p c then k s' caps else None
      | EmptyString => None
      end
  | Seq r1 r2 => rmatch r1 s caps (fun s' caps' => rmatch r2 s' caps' k)
  | Alt r1 r2 =>
      match rmatch r1 s caps k with
      | Some x => Some x
      | None => rmatch r2 s caps k
      end
  | Star greedy r1 => iterate (rmatch r1) greedy k (String.length s) s caps
  | Group n r1 =>
      rmatch r1 s caps (fun s' caps' => k s' ((n, consumed s s') :: caps'))
  end.

(** A match anchored at the start of [s]: the remaining text and the groups. *)
Definition exec_at (r : regex) (s : string) : option (string * captures) :=
  rmatch r s [] (fun rest caps => Some (rest, caps)).

Record found := {
  before : string;    (* the text in front of the match *)
  matched : string;
  groups : captures;
  after : string      (* the text behind the match *)
}.

(** [String.prototype.match] without the [g] flag: the leftmost match. *)
Fixpoint search (r : regex) (s : string) : option found :=
  match exec_at r s with
  | Some (rest, caps) =>
      Some {| before := ""; matched := consumed s rest; groups := caps; after := rest |}
  | None =>
      match s with
      | EmptyString => None
      | String c s' =>
          match search r s' with
          | Some f =>
              Some {| before := String c (before f); matched := matched f;
                      groups := groups f; after := after f |}
          | None => None
          end
      end
  end.

(** The successive matches of a [g] pattern, as [matchAll] and a global
    [replace] visit them: after a match the scan resumes behind it, after an
    empty match one character further. *)
Fixpoint scan (fuel : nat) (r : regex) (s : string) : list found :=
  match fuel with
  | O => []
  | S fuel' =>
      match search r s with
      | None => []
      | Some f =>
          f :: match matched f, after f with
               | EmptyString, String c rest =>
                   match scan fuel' r rest with
                   | [] => []
                   | g :: gs =>
                       {| before := String c (before g); matched := matched g;
                          groups := groups g; after := after g |} :: gs
                   end
               | EmptyString, EmptyString => []
               | _, rest => scan fuel' r rest
               end
      end
  end.

Definition matchAll (r : regex) (s : string) : list found :=
  scan (S (String.length s)) r s.

(** [String.prototype.replace] with a [g] pattern; [by] builds the replacement
    from the groups. *)
Fixpoint splice (repl : captures -> string) (ms : list found) (s : string) : string :=
  match ms with
  | [] => s
  | f :: ms' => before f ++ repl (groups f) ++ splice repl ms' (after f)
  end.

Definition replaceAll (r : regex) (repl : captures -> string) (s : string) : string :=
  splice repl (matchAll r s) s.

(** [String.prototype.split] with a pattern that has no groups: an empty
    match at the start of the current piece does not split. *)
Fixpoint split_scan (fuel : nat) (r : regex) (piece s : string) : list string :=
  match fuel with
  | O => [piece ++ s]
  | S fuel' =>
      match s with
      | EmptyString => [piece]
      | String c s' =>
          match exec_at r s with
          | Some (rest, _) =>
              if (String.length rest =? String.length s)%nat && (piece =? "")%string
              then split_scan fuel' r (piece ++ String c "") s'
              else if (String.length rest =? String.length s)%nat
              then piece :: split_scan fuel' r (String c "") s'
              else piece :: split_scan fuel' r "" rest
          | None => split_scan fuel' r (piece ++ String c "") s'
          end
      end
  end.

Definition split_re (r : regex) (s : string) : list string :=
  match s with
  | EmptyString =>
      match exec_at r s with Some _ => [] | None => [""] end
  | _ => split_scan (String.length s) r "" s
  end.

(** [String.prototype.split] with a one-character separator. *)
Fixpoint split_char (sep : ascii) (piece s : string) : list string :=
  match s with
  | EmptyString => [piece]
  | String c s' =>
      if Ascii.eqb c sep then piece :: split_char sep "" s'
      else split_char sep (piece ++ String c "") s'
  end.

(** Character classes. *)
Definition ch (c : ascii) : ascii -> bool := Ascii.eqb c.
Definition ich (c : ascii) : ascii -> bool := fun d => Ascii.eqb (lower_char c) (lower_char d).
Definition one_of (s : string) : ascii -> bool := fun d => includes s (String d "").
Definition none_of (s : string) : ascii -> bool := fun d => negb (includes s (String d "")).
Definition any_char : ascii -> bool := fun _ => true.
(** [.]: anything but a line terminator. *)
Definition dot : ascii -> bool :=
  fun d => negb (Ascii.eqb d "010" || Ascii.eqb d "013").
(** [\w] as spelled out in the source: [a-zA-Z0-9_]. *)
Definition word_char : ascii -> bool :=
  fun d => is_lower d || is_upper d || is_digit d || Ascii.eqb d "_".

(** A literal, case-insensitive under the [i] flag. *)
Fixpoint Lit (ignore_case : bool) (s : string) : regex :=
  match s with
  | EmptyString => Eps
  | String c s' => Seq (Chr (if ignore_case then ich c else ch c)) (Lit ignore_case s')
  end.

(** ** Numeric literals: [parseFloat] and [parseInt] *)

Definition digit_value (c : ascii) : Z := Z.of_nat (nat_of_ascii c) - 48.

(** The leading decimal digits of a text and what follows them. *)
Fixpoint take_digits (s : string) : string * string :=
  match s with
  | String c s' =>
      if is_digit c then let (d, rest) := take_digits s' in (String c d, rest)
      else ("", s)
  | EmptyString => ("", "")
  end.

Fixpoint digits_value (acc : Z) (s : string) : Z :=
  match s with
  | String c s' => digits_value (10 * acc + digit_value c) s'
  | EmptyString => acc
  end.

(** Half of the least positive binary64 value, [2 ^ -1075]. *)
Definition half_least : Q := Qmake 1 (2 ^ 1075).

(** The value of a literal that binary64 rounds to zero is zero: the ones of
    magnitude [2 ^ -1075] at most, the tie going to the even neighbour. *)
Definition underflow (q : Q) : Q :=
  if Qle_bool (- half_least) q && Qle_bool q half_least then 0%Q else q.

(** [mantissa * 10 ^ exponent] as a rational in lowest terms. *)
Definition scale10 (mantissa exponent : Z) : Q :=
  underflow (Qred (if 0 <=? exponent
                   then inject_Z (mantissa * 10 ^ exponent)
                   else Qmake mantissa (Z.to_pos (10 ^ (- exponent))))).

(** An optional sign: whether it is [-], and the text behind it. *)
Definition take_sign (s : string) : bool * string :=
  match s with
  | String "-" s' => (true, s')
  | String "+" s' => (false, s')
  | _ => (false, s)
  end.

(** An exponent part [e], [e+] or [e-] with digits; 0 when there is none. *)
Definition take_exponent (s : string) : Z * string :=
  match s with
  | String c s' =>
      if ich "e" c then
        let (neg, s'') := take_sign s' in
        match take_digits s'' with
        | (EmptyString, _) => (0, s)
        | (d, rest) => ((if neg then - digits_value 0 d else digits_value 0 d), rest)
        end
      else (0, s)
  | EmptyString => (0, s)
  end.

(** The longest decimal literal at the start of a text, and the rest. *)
Definition decimal_literal (s : string) : option (number * string) :=
  let (neg, body) := take_sign s in
  if String.prefix "Infinity" body
  then Some (Infinity neg, substring 8 (String.length body) body)
  else
    let (int_part, rest) := take_digits body in
    let (frac_part, rest') :=
      match rest with
      | String "." r => take_digits r
      | _ => ("", rest)
      end in
    match int_part, frac_part with
    | EmptyString, EmptyString => None
    | _, _ =>
        let (e, rest'') := take_exponent rest' in
        let m := digits_value 0 (int_part ++ frac_part) in
        Some (Num (scale10 (if neg then - m else m)
                           (e - Z.of_nat (String.length frac_part))), rest'')
    end.

(** [parseFloat]: leading white space is skipped and the longest prefix that
    is a decimal literal is read; NaN when there is none. *)
Definition parseFloat (s : string) : number :=
  match decimal_literal (trimStart s) with
  | Some (n, _) => n
  | None => NaN
  end.

Definition hex_value (c : ascii) : option Z :=
  if is_digit c then Some (digit_value c)
  else let n := Z.of_nat (nat_of_ascii (lower_char c)) in
       if (97 <=? n) && (n <=? 102) then Some (n - 87) else None.

Fixpoint take_hex (acc : option Z) (s : string) : option Z :=
  match s with
  | String c s' =>
      match hex_value c with
      | Some v => take_hex (Some (16 * default 0 acc + v)) s'
      | None => acc
      end
  | EmptyString => acc
  end.

(** [parseInt] without a radix: [None] is NaN. *)
Definition parseInt (s : string) : option Z :=
  let (neg, body) := take_sign (trimStart s) in
  let magnitude :=
    match body with
    | String "0" (String x r) =>
        if ich "x" x then take_hex None r
        else Some (digits_value 0 (fst (take_digits body)))
    | _ =>
        match take_digits body with
        | (EmptyString, _) => None
        | (d, _) => Some (digits_value 0 d)
        end
    end in
  (fun m => if neg then - m else m) <$> magnitude.

(** ** JSON values and [JSON.parse] *)

#[warnings="-register-all"]
Inductive Json :=
| JNull
| JBool (b : bool)
| JNumber (q : Q)
| JString (s : string)
| JArray (items : list Json)
| JObject (props : list (string * Json)).

(** Own property [key] of an object; a later duplicate overrides an earlier
    one. Every other value has none of the properties the verifier reads. *)
Fixpoint lookup_last (key : string) (props : list (string * Json)) : option Json :=
  match props with
  | [] => None
  | (k, v) :: props' =>
      match lookup_last key props' with
      | Some w => Some w
      | None => if String.eqb k key then Some v else None
      end
  end.

Definition prop (key : string) (v : Json) : option Json :=
  match v with
  | JObject props => lookup_last key props
  | _ => None
  end.

(** Truthiness of a value that may be [undefined]. *)
Definition truthy (v : option Json) : bool :=
  match v with
  | None | Some JNull => false
  | Some (JBool b) => b
  | Some (JNumber q) => negb (Qeq_bool q 0)
  | Some (JString s) => negb (s =? "")%string
  | Some (JArray _) | Some (JObject _) => true
  end.

Definition is_json_space (c : ascii) : bool :=
  let n := nat_of_ascii c in
  (n =? 32)%nat || (n =? 9)%nat || (n =? 10)%nat || (n =? 13)%nat.

Fixpoint skip_ws (s : string) : string :=
  match s with
  | String c s' => if is_json_space c then skip_ws s' else s
  | EmptyString => EmptyString
  end.

(** The UTF-8 bytes of a code point. *)
Definition byte (n : Z) : string := String (ascii_of_nat (Z.to_nat n)) "".
Definition utf8 (cp : Z) : string :=
  if cp <? 128 then byte cp
  else if cp <? 2048 then byte (192 + cp / 64) ++ byte (128 + cp mod 64)
  else if cp <? 65536 then
    byte (224 + cp / 4096) ++ byte (128 + (cp / 64) mod 64) ++ byte (128 + cp mod 64)
  else byte (240 + cp / 262144) ++ byte (128 + (cp / 4096) mod 64)
       ++ byte (128 + (cp / 64) mod 64) ++ byte (128 + cp mod 64).

(** Four hexadecimal digits. *)
Definition hex4 (s : string) : option (Z * string) :=
  match s with
  | String a (String b (String c (String d rest))) =>
      match hex_value a, hex_value b, hex_value c, hex_value d with
      | Some x, Some y, Some z, Some w => Some (4096 * x + 256 * y + 16 * z + w, rest)
      | _, _, _, _ => None
      end
  | _ => None
  end.

(** A [\u] escape, joined with a following low surrogate escape when it is a
    high surrogate. *)
Definition unicode_escape (s : string) : option (string * string) :=
  match hex4 s with
  | Some (hi, rest) =>
      if (55296 <=? hi) && (hi <=? 56319) then
        match rest with
        | String "\" (String "u" rest') =>
            match hex4 rest' with
            | Some (lo, rest'') =>
                if (56320 <=? lo) && (lo <=? 57343)
                then Some (utf8 (65536 + 1024 * (hi - 55296) + (lo - 56320)), rest'')
                else Some (utf8 hi, rest)
            | None => Some (utf8 hi, rest)
            end
        | _ => Some (utf8 hi, rest)
        end
      else Some (utf8 hi, rest)
  | None => None
  end.

(** The characters of a string literal, after its opening quote. *)
Fixpoint parse_chars (fuel : nat) (s : string) : option (string * string) :=
  match fuel with
  | O => None
  | S fuel' =>
      let continue (decoded : string) (rest : string) :=
        match parse_chars fuel' rest with
        | Some (t, rest') => Some (decoded ++ t, rest')
        | None => None
        end in
      match s with
      | EmptyString => None
      | String c rest =>
          if Ascii.eqb c dquote then Some ("", rest)
          else if Ascii.eqb c "\" then
            match rest with
            | EmptyString => None
            | String e rest' =>
                if Ascii.eqb e "u" then
                  match unicode_escape rest' with
                  | Some (decoded, rest'') => continue decoded rest''
                  | None => None
                  end
                else if Ascii.eqb e dquote then continue (String dquote "") rest'
                else if Ascii.eqb e "\" then continue "\" rest'
                else if Ascii.eqb e "/" then continue "/" rest'
                else if Ascii.eqb e "b" then continue (byte 8) rest'
                else if Ascii.eqb e "f" then continue (byte 12) rest'
                else if Ascii.eqb e "n" then continue (byte 10) rest'
                else if Ascii.eqb e "r" then continue (byte 13) rest'
                else if Ascii.eqb e "t" then continue (byte 9) rest'
                else None
            end
          else if (nat_of_ascii c <? 32)%nat then None
          else continue (String c "") rest
      end
  end.

(** A JSON number: [-]? integer fraction? exponent?, no leading zero. *)
Definition parse_number (s : string) : option (Q * string) :=
  let (neg, body) :=
    match s with String "-" s' => (true, s') | _ => (false, s) end in
  let '(int_part, rest) :=
    match body with
    | String "0" r => ("0", r)
    | _ => take_digits body
    end in
  match int_part with
  | EmptyString => None
  | _ =>
      let frac :=
        match rest with
        | String "." r =>
            match take_digits r with
            | (EmptyString, _) => None
            | (d, rest') => Some (d, rest')
            end
        | _ => Some ("", rest)
        end in
      match frac with
      | None => None
      | Some (frac_part, rest') =>
          let expo :=
            match rest' with
            | String c _ =>
                if ich "e" c then
                  match take_exponent rest' with
                  | (e, rest'') =>
                      if (String.length rest'' =? String.length rest')%nat
                      then None else Some (e, rest'')
                  end
                else Some (0, rest')
            | EmptyString => Some (0, rest')
            end in
          match expo with
          | None => None
          | Some (e, rest'') =>
              let m := digits_value 0 (int_part ++ frac_part) in
              Some (scale10 (if neg then - m else m)
                            (e - Z.of_nat (String.length frac_part)), rest'')
          end
      end
  end.

Definition expect (word : string) (v : Json) (s : string) : option (Json * string) :=
  if String.prefix word s
  then Some (v, substring (String.length word) (String.length s) s)
  else None.

Fixpoint parse_value (fuel : nat) (s : string) : option (Json * string) :=
  match fuel with
  | O => None
  | S fuel' =>
      match skip_ws s with
      | String "{" rest =>
          match skip_ws rest with
          | String "}" rest' => Some (JObject [], rest')
          | _ => parse_members fuel' rest []
          end
      | String "[" rest =>
          match skip_ws rest with
          | String "]" rest' => Some (JArray [], rest')
          | _ => parse_elements fuel' rest []
          end
      | String "t" _ as s' => expect "true" (JBool true) s'
      | String "f" _ as s' => expect "false" (JBool false) s'
      | String "n" _ as s' => expect "null" JNull s'
      | String c rest as s' =>
          if Ascii.eqb c dquote then
            match parse_chars (S (String.length rest)) rest with
            | Some (t, rest') => Some (JString t, rest')
            | None => None
            end
          else
            match parse_number s' with
            | Some (q, rest') => Some (JNumber q, rest')
            | None => None
            end
      | EmptyString => None
      end
  end
with parse_elements (fuel : nat) (s : string) (acc : list Json) : option (Json * string) :=
  match fuel with
  | O => None
  | S fuel' =>
      match parse_value fuel' s with
      | Some (v, rest) =>
          match skip_ws rest with
          | String "," rest' => parse_elements fuel' rest' (v :: acc)
          | String "]" rest' => Some (JArray (rev (v :: acc)), rest')
          | _ => None
          end
      | None => None
      end
  end
with parse_members (fuel : nat) (s : string) (acc : list (string * Json)) : option (Json * string) :=
  match fuel with
  | O => None
  | S fuel' =>
      match skip_ws s with
      | String c rest =>
          if Ascii.eqb c dquote then
            match parse_chars (S (String.length rest)) rest with
            | Some (key, rest') =>
                match skip_ws rest' with
                | String ":" rest'' =>
                    match parse_value fuel' rest'' with
                    | Some (v, rest3) =>
                        match skip_ws rest3 with
                        | String "," rest4 => parse_members fuel' rest4 ((key, v) :: acc)
                        | String "}" rest4 => Some (JObject (rev ((key, v) :: acc)), rest4)
                        | _ => None
                        end
                    | None => None
                    end
                | _ => None
                end
            | None => None
            end
          else None
      | EmptyString => None
      end
  end.

(** [JSON.parse]; [None] stands for the [SyntaxError]. *)
Definition JSON_parse (text : string) : option Json :=
  match parse_value (2 * String.length text + 2) text with
  | Some (v, rest) =>
      match skip_ws rest with
      | EmptyString => Some v
      | _ => None
      end
  | None => None
  end.

(** ** Implicit conversions to a number *)

(** The value of a text made of digits of a radix up to 10, [None] when it
    is empty or holds anything else. *)
Fixpoint radix_digits (radix : Z) (acc : option Z) (s : string) : option Z :=
  match s with
  | String c s' =>
      if is_digit c && (digit_value c <? radix)
      then radix_digits radix (Some (radix * default 0 acc + digit_value c)) s'
      else None
  | EmptyString => acc
  end.

(** [Number(s)] for a string: the whole trimmed text has to be a literal,
    decimal or with one of the prefixes [0x], [0o] and [0b]; the empty text
    is 0. *)
Definition StringToNumber (s : string) : number :=
  match trim s with
  | EmptyString => 0
  | String "0" (String x r) as t =>
      if ich "x" x then
        match take_hex None r with
        | Some v => if forallb (fun c => bool_decide (is_Some (hex_value c)))
                               (list_ascii_of_string r) then v else NaN
        | None => NaN
        end
      else if ich "o" x then
        match radix_digits 8 None r with Some v => v | None => NaN end
      else if ich "b" x then
        match radix_digits 2 None r with Some v => v | None => NaN end
      else match decimal_literal t with
           | Some (n, EmptyString) => n
           | _ => NaN
           end
  | t => match decimal_literal t with
         | Some (n, EmptyString) => n
         | _ => NaN
         end
  end.

(** [Number(String(v))], the number an array element contributes. *)
Fixpoint element_number (v : Json) : number :=
  match v with
  | JNull => 0
  | JBool _ => NaN
  | JNumber q => Num q
  | JString s => StringToNumber s
  | JArray [] => 0
  | JArray [x] => element_number x
  | JArray _ => NaN
  | JObject _ => NaN
  end.

(** [ToNumber] of a JSON value. *)
Definition ToNumber (v : Json) : number :=
  match v with
  | JNull => 0
  | JBool b => if b then 1 else 0
  | _ => element_number v
  end.

(** ** Results *)

(** A value that is a number or, failing that, the value it was. *)
Inductive ScoreValue :=
| ScoreNum (n : number)
| ScoreRaw (v : Json).

Definition score_number (s : ScoreValue) : number :=
  match s with
  | ScoreNum n => n
  | ScoreRaw v => ToNumber v
  end.

(** [normalizeScore] as it runs on an argument that need not be a number:
    the comparisons and the divisions convert it, the last [return] does
    not. *)
Definition normalizeScoreAny (score : ScoreValue) : ScoreValue :=
  let n := score_number score in
  if js_le n 0 then ScoreNum 0
  else if js_ge n 1 then ScoreNum 1
  else if js_gt n 100 then ScoreNum (js_div n 100)
  else if js_gt n 10 then ScoreNum (js_div n 10)
  else if js_gt n 5 then ScoreNum (js_div n 5)
  else score.

(** The result of [String(v)]: evaluated for a string, left as it is for the
    other truthy values. *)
Inductive Text :=
| Str (s : string)
| StringOf (v : Json).

Record CategoryResult := {
  passed : bool;
  score : ScoreValue;
  explanation : Text;
  details : option (list Json)
}.

(** Time stamps are not represented. *)
Record VerificationMetrics := {
  latency : Z;
  inputTokens : Z;
  outputTokens : Z;
  totalTokens : Z;
  cost : Q;
  metrics_model : string;
  metrics_provider : option string
}.

Record ErrorMetadata := {
  errorType : string;
  errorCode : option Json;
  retryable : bool
}.

(** An entry of [issues] or [suggestions] and the [error] field can be
    [undefined], which is [None]. *)
Record VerificationResult := {
  isValid : bool;
  confidence : number;
  reason : Json;
  issues : list (option Json);
  suggestions : list (option Json);
  categories : gmap string CategoryResult;
  metrics : VerificationMetrics;
  provider : option string;
  model : option string;
  error : option Json;
  metadata : option ErrorMetadata
}.

Record Usage := {
  prompt_tokens : option Z;
  completion_tokens : option Z;
  total_tokens : option Z
}.

(** [first_choice] is [choices?.[0]?.message?.content]. *)
Record LLMResponse := {
  output_text : option string;
  usage : option Usage;
  response_model : option string;
  first_choice : option string
}.

(** ** [utils.ts]: the response parser *)

(** [calculateConfidence]. *)
Definition calculateConfidence (score : option Json) : number :=
  match score with
  | Some (JNumber q) => normalizeScore (Num q)
  | Some (JString s) =>
      let num := parseFloat s in
      if negb (js_isNaN num) then normalizeScore num else Num (1 # 2)
  | _ => Num (1 # 2)
  end.

(** The pattern [{[\s\S]*}]. *)
Definition braces_re : regex :=
  Seq (Chr (ch "{")) (Seq (Star true (Chr any_char)) (Chr (ch "}"))).

Definition quote_class : ascii -> bool :=
  fun d => Ascii.eqb d "'" || Ascii.eqb d dquote.

(** The pattern [(['Q])?([a-zA-Z0-9_]+)(['Q])?:] where [Q] is the double
    quote. *)
Definition key_re : regex :=
  Seq (Opt (Group 1 (Chr quote_class)))
      (Seq (Group 2 (Plus true (Chr word_char)))
           (Seq (Opt (Group 3 (Chr quote_class))) (Chr (ch ":")))).

(** [,\s*}] and [,\s*]]. *)
Definition trailing_comma_re (closing : ascii) : regex :=
  Seq (Chr (ch ",")) (Seq (Star true (Chr is_space)) (Chr (ch closing))).

(** A backslash in front of [q]. *)
Definition escaped_re (q : ascii) : regex := Seq (Chr (ch "\")) (Chr (ch q)).

Definition quoted (s : string) : string := String dquote (s ++ String dquote "").

(** The repairs applied to a span that does not parse. *)
Definition fixJson (span : string) : string :=
  let s1 := replaceAll key_re (fun caps => quoted (default "" (group 2 caps)) ++ ":") span in
  let s2 := replaceAll (trailing_comma_re "}") (fun _ => "}") s1 in
  let s3 := replaceAll (trailing_comma_re "]") (fun _ => "]") s2 in
  let s4 := replaceAll (escaped_re "'") (fun _ => "'") s3 in
  replaceAll (escaped_re dquote) (fun _ => String dquote "") s4.

(** [extractJSONFromText]; the result is [null] when nothing parses. *)
Definition extractJSONFromText (text : string) : Json :=
  match JSON_parse text with
  | Some v => v
  | None =>
      match search braces_re text with
      | Some jsonMatch =>
          match JSON_parse (matched jsonMatch) with
          | Some v => v
          | None =>
              match JSON_parse (fixJson (matched jsonMatch)) with
              | Some v => v
              | None => JNull
              end
          end
      | None => JNull
      end
  end.

(** [createDefaultResult]. *)
Definition default_metrics : VerificationMetrics :=
  {| latency := 0; inputTokens := 0; outputTokens := 0; totalTokens := 0;
     cost := 0; metrics_model := "unknown"; metrics_provider := Some "unknown" |}.

Definition createDefaultResult (originalInput : string) : VerificationResult :=
  {| isValid := false;
     confidence := 0;
     reason := JString "Verification inconclusive";
     issues := [Some (JString "Unable to verify")];
     suggestions := [Some (JString "Please try again")];
     categories := ∅;
     metrics := default_metrics;
     provider := None; model := None; error := None; metadata := None |}.

Definition validCategoryNames : list string :=
  ["toxicity"; "factuality"; "coherence"; "relevance"; "safety"; "moderation"; "bias"].

(** [Array.isArray(v) ? v : otherwise]. *)
Definition array_or {A : Type} (v : option Json) (wrap : list Json -> A) (otherwise : A) : A :=
  match v with
  | Some (JArray items) => wrap items
  | _ => otherwise
  end.

(** One entry of [validateCategories]: the body of its loop. *)
Definition validateCategory (categoryData : option Json) : CategoryResult :=
  match categoryData with
  | Some ((JObject _ | JArray _) as data) =>
      {| passed := truthy (prop "passed" data);
         score := normalizeScoreAny
                    match prop "score" data with
                    | None | Some JNull => ScoreNum 0
                    | Some (JNumber q) => ScoreNum (Num q)
                    | Some v => ScoreRaw v
                    end;
         explanation :=
           match prop "explanation" data with
           | Some (JString s) => if (s =? "")%string then Str "Not provided" else Str s
           | Some v => if truthy (Some v) then StringOf v else Str "Not provided"
           | None => Str "Not provided"
           end;
         details := array_or (prop "details" data) Some None |}
  | _ =>
      {| passed := false; score := ScoreNum 0;
         explanation := Str "Category not checked"; details := None |}
  end.

(** [validateCategories]. *)
Definition validateCategories (cats : Json) : gmap string CategoryResult :=
  fold_left (fun validCategories categoryName =>
               <[categoryName := validateCategory (prop categoryName cats)]> validCategories)
            validCategoryNames ∅.

(** [validateAndFormatResult]. *)
Definition validateAndFormatResult (data : Json) (originalInput : string) : VerificationResult :=
  let defaultResult := createDefaultResult originalInput in
  {| isValid := truthy (prop "isValid" data);
     confidence := calculateConfidence (prop "confidence" data);
     reason := match prop "reason" data with
               | Some r => if truthy (Some r) then r else reason defaultResult
               | None => reason defaultResult
               end;
     issues := array_or (prop "issues" data) (map Some) (issues defaultResult);
     suggestions := array_or (prop "suggestions" data) (map Some) (suggestions defaultResult);
     categories := validateCategories
                     match prop "categories" data with
                     | Some c => if truthy (Some c) then c else JObject []
                     | None => JObject []
                     end;
     metrics := metrics defaultResult;
     provider := None; model := None; error := None; metadata := None |}.

(** The pattern [confidence.*?] followed by group 1, [\d+\.?\d*], with the
    [i] flag. *)
Definition confidence_re : regex :=
  Seq (Lit true "confidence")
      (Seq (Star false (Chr dot))
           (Group 1 (Seq (Plus true (Chr is_digit))
                         (Seq (Opt (Chr (ch "."))) (Star true (Chr is_digit)))))).

Definition confidentWords : list string :=
  ["definitely"; "certainly"; "clearly"; "obviously"; "undoubtedly"].
Definition uncertainWords : list string :=
  ["maybe"; "perhaps"; "possibly"; "likely"; "probably"].

(** The number of words of a list that occur in a text. *)
Definition count_included (words : list string) (textLower : string) : nat :=
  length (filter (fun word => includes textLower word = true) words).

(** [calculateConfidenceFromText]. *)
Definition calculateConfidenceFromText (text : string) : number :=
  match search confidence_re text with
  | Some confidenceMatch =>
      normalizeScore (parseFloat (default "" (group 1 (groups confidenceMatch))))
  | None =>
      let textLower := toLowerCase text in
      let confidentCount := count_included confidentWords textLower in
      let uncertainCount := count_included uncertainWords textLower in
      if (uncertainCount <? confidentCount)%nat then Num (4 # 5)
      else if (confidentCount <? uncertainCount)%nat then Num (2 # 5)
      else Num (3 # 5)
  end.

(** The pattern [reason[:\s]+] followed by group 1, [[^.\n]+], with the [i]
    flag. *)
Definition reason_re : regex :=
  Seq (Lit true "reason")
      (Seq (Plus true (Chr (fun d => Ascii.eqb d ":" || is_space d)))
           (Group 1 (Plus true (Chr (fun d => negb (Ascii.eqb d "." || Ascii.eqb d "010")))))).

(** [extractReason]. *)
Definition extractReason (text : string) : string :=
  match search reason_re text with
  | Some reasonMatch => trim (default "" (group 1 (groups reasonMatch)))
  | None =>
      let firstSentence := hd "" (split_char "." "" text) in
      if (10 <? js_length firstSentence)%nat then trim firstSentence
      else "Automated analysis completed"
  end.

(** A label pattern of [extractListFromText]: a stem followed by [s?]. *)
Record label := { stem : string }.

(** The pattern the template string builds for a label: in it [\s] is the
    letter [s], so the class after the label is [[:s]], and the flags are
    [gi]. *)
Definition label_re (l : label) : regex :=
  Seq (Lit true (stem l))
      (Seq (Opt (Chr (ich "s")))
           (Seq (Plus true (Chr (fun d => Ascii.eqb d ":" || ich "s" d)))
                (Group 1 (Plus true (Chr (fun d => negb (Ascii.eqb d "." || Ascii.eqb d "010"))))))).

(** The separator pattern of the source, a class of six characters followed
    by [\s*]; three of them take several bytes. *)
Definition separator_re : regex :=
  Seq (Alt (Chr (one_of ",;-")) (Alt (Lit false "â") (Alt (Lit false "€") (Lit false "¢"))))
      (Star true (Chr is_space)).

(** [[...new Set(items)]]: the first occurrence of each item, in order. *)
Fixpoint dedupe (seen items : list string) : list string :=
  match items with
  | [] => []
  | x :: items' =>
      if bool_decide (x ∈ seen) then dedupe seen items'
      else x :: dedupe (x :: seen) items'
  end.

(** [extractListFromText]. *)
Definition extractListFromText (text : string) (patterns : list label) : list string :=
  dedupe []
    (flat_map (fun pattern =>
       flat_map (fun m =>
         match group 1 (groups m) with
         | Some (String _ _ as g) =>
             filter (fun p => (0 < String.length p)%nat) (map trim (split_re separator_re g))
         | _ => []
         end) (matchAll (label_re pattern) text))
       patterns).

Definition positiveIndicators : list string :=
  ["valid"; "passed"; "ok"; "good"; "safe"; "appropriate"; "acceptable"].
Definition negativeIndicators : list string :=
  ["invalid"; "failed"; "bad"; "unsafe"; "inappropriate"; "reject"].

Definition hasPositive (text : string) : bool :=
  existsb (fun indicator => includes (toLowerCase text) indicator) positiveIndicators.
Definition hasNegative (text : string) : bool :=
  existsb (fun indicator => includes (toLowerCase text) indicator) negativeIndicators.

Definition or_placeholder (items : list string) (placeholder : string) : list (option Json) :=
  match items with
  | [] => [Some (JString placeholder)]
  | _ => map (fun s => Some (JString s)) items
  end.

(** [parseUnstructuredResponse]. *)
Definition parseUnstructuredResponse (text originalInput : string) : VerificationResult :=
  let isValid := hasPositive text && negb (hasNegative text) in
  let confidence := calculateConfidenceFromText text in
  let issues :=
    extractListFromText text [{| stem := "issue" |}; {| stem := "problem" |}; {| stem := "concern" |}] in
  let suggestions :=
    extractListFromText text
      [{| stem := "suggestion" |}; {| stem := "recommendation" |}; {| stem := "improvement" |}] in
  {| isValid := isValid;
     confidence := confidence;
     reason := JString (extractReason text);
     issues := or_placeholder issues "No specific issues mentioned";
     suggestions := or_placeholder suggestions "No suggestions provided";
     categories := ∅;
     metrics := metrics (createDefaultResult originalInput);
     provider := None; model := None; error := None; metadata := None |}.

(** [createErrorResult], the handler of the [try] of [parseLLMResponse]. None
    of the functions called inside that [try] raises, so the handler is never
    entered. *)
Definition createErrorResult (message originalInput : string) : VerificationResult :=
  {| isValid := false;
     confidence := 0;
     reason := JString message;
     issues := [Some (JString "Parsing error")];
     suggestions := [Some (JString "Please try again with different input")];
     categories := ∅;
     metrics := metrics (createDefaultResult originalInput);
     provider := None; model := None;
     error := Some (JString message); metadata := None |}.

(** [a || b] on optional strings: the empty string is falsy. *)
Definition or_string (a : option string) (b : string) : string :=
  match a with
  | Some (String _ _ as s) => s
  | _ => b
  end.

(** The text of a response: [output_text || choices?.[0]?.message?.content || ''] *)
Definition responseText (response : LLMResponse) : string :=
  or_string (output_text response) (or_string (first_choice response) "").

(** [parseLLMResponse]. *)
Definition parseLLMResponse (response : LLMResponse) (originalInput : string) : VerificationResult :=
  let jsonData := extractJSONFromText (responseText response) in
  if truthy (Some jsonData)
  then validateAndFormatResult jsonData originalInput
  else parseUnstructuredResponse (responseText response) originalInput.

(** ** Thrown values *)

(** The value of a property of an error: [undefined], [null], a boolean, an
    integer or a string. *)
Inductive Prim :=
| PUndefined
| PNull
| PBool (b : bool)
| PNum (n : Z)
| PStr (s : string).

Definition prim_truthy (p : Prim) : bool :=
  match p with
  | PUndefined | PNull => false
  | PBool b => b
  | PNum n => negb (n =? 0)
  | PStr s => negb (s =? "")%string
  end.

(** The conversion a template string applies. *)
Definition prim_to_string (p : Prim) : string :=
  match p with
  | PUndefined => "undefined"
  | PNull => "null"
  | PBool b => if b then "true" else "false"
  | PNum n => NilZero.string_of_int (Z.to_int n)
  | PStr s => s
  end.

Definition prim_value (p : Prim) : option Json :=
  match p with
  | PUndefined => None
  | PNull => Some JNull
  | PBool b => Some (JBool b)
  | PNum n => Some (JNumber (inject_Z n))
  | PStr s => Some (JString s)
  end.

(** What the verifier reads of a thrown value that is not [null] or
    [undefined]: the name of its constructor and three properties. A thrown
    primitive has all three [undefined]. *)
Record ErrorObject := {
  constructor_name : string;
  code : Prim;
  status : Prim;
  message : Prim
}.

Inductive Thrown :=
| ThrownUndefined
| ThrownNull
| ThrownValue (e : ErrorObject).

Inductive Completion (A : Type) :=
| Normal (a : A)
| Throw (t : Thrown).
Arguments Normal {A} a.
Arguments Throw {A} t.

(** [new Error(msg)] and the [TypeError] of the runtime. *)
Definition Error (msg : string) : Thrown :=
  ThrownValue {| constructor_name := "Error"; code := PUndefined;
                 status := PUndefined; message := PStr msg |}.
Definition TypeError (msg : string) : Thrown :=
  ThrownValue {| constructor_name := "TypeError"; code := PUndefined;
                 status := PUndefined; message := PStr msg |}.

Definition networkErrors : list string :=
  ["ECONNRESET"; "ETIMEDOUT"; "ECONNREFUSED"; "ENOTFOUND"; "EAI_AGAIN"; "NETWORK_ERROR"].
Definition retryableStatuses : list Z := [408; 429; 500; 502; 503; 504].

(** [networkErrors.includes(error.code)] *)
Definition is_network_code (c : Prim) : bool :=
  match c with
  | PStr s => bool_decide (s ∈ networkErrors)
  | _ => false
  end.

(** [retryableStatuses.includes(error.status)] *)
Definition is_retryable_status (s : Prim) : bool :=
  match s with
  | PNum n => bool_decide (n ∈ retryableStatuses)
  | _ => false
  end.

(** [utils.ts], [isRetryableError]. A message that is neither a string nor
    absent has no [includes] method, and calling it raises. *)
Definition isRetryableError (error : Thrown) : Completion bool :=
  match error with
  | ThrownUndefined | ThrownNull => Normal false
  | ThrownValue e =>
      if is_network_code (code e) then Normal true
      else if prim_truthy (status e) then Normal (is_retryable_status (status e))
      else
        match message e with
        | PUndefined | PNull => Normal false
        | PStr m =>
            if includes m "rate limit" || includes m "too many requests"
               || includes m "quota exceeded"
            then Normal true
            else if includes m "timeout" || includes m "timed out"
            then Normal true
            else Normal false
        | PBool _ | PNum _ =>
            Throw (TypeError "error.message?.includes is not a function")
        end
  end.

(** ** [LLMVerifier.ts]: configuration *)

Record VerificationCriteria := {
  toxicity : bool;
  factuality : bool;
  coherence : bool;
  relevance : bool;
  safety : bool;
  moderation : bool;
  bias : bool
}.

Record ProviderModels := {
  default_model : string;
  fast : string;
  accurate : string;
  cheap : option string
}.

Record ProviderConfig := {
  name : string;
  apiKey : option string;
  baseURL : string;
  models : ProviderModels;
  endpoints : list (string * string);
  costPer1KTokens_input : Q;
  costPer1KTokens_output : Q
}.

(** The variables of the environment the constructor reads. *)
Record Env := {
  AI_DEFAULT_MODEL : option string;
  AI_MAX_RETRIES : option string;
  AI_TIMEOUT_MS : option string;
  AI_TEMPERATURE : option string;
  AI_MAX_TOKENS : option string;
  ENABLE_SENTRY : option string;
  VERIFY_TOXICITY : option string;
  VERIFY_FACTUALITY : option string;
  VERIFY_COHERENCE : option string;
  VERIFY_RELEVANCE : option string;
  VERIFY_SAFETY : option string;
  VERIFY_MODERATION : option string;
  VERIFY_BIAS : option string;
  AI_PROVIDER : option string;
  OPENAI_API_KEY : option string;
  OPENAI_BASE_URL : option string;
  GEMINI_API_KEY : option string;
  GEMINI_BASE_URL : option string;
  ANTHROPIC_API_KEY : option string;
  ANTHROPIC_BASE_URL : option string
}.

Record PartialCriteria := {
  c_toxicity : option bool;
  c_factuality : option bool;
  c_coherence : option bool;
  c_relevance : option bool;
  c_safety : option bool;
  c_moderation : option bool;
  c_bias : option bool
}.

(** The second argument of the constructor. Counts are integers. *)
Record ConstructorOptions := {
  o_model : option string;
  o_maxRetries : option Z;
  o_timeout : option Z;
  o_temperature : option number;
  o_maxTokens : option Z;
  o_criteria : option PartialCriteria;
  o_provider : option string;
  o_sentryEnabled : option bool
}.

Definition openai_config (env : Env) : ProviderConfig :=
  {| name := "openai";
     apiKey := OPENAI_API_KEY env;
     baseURL := or_string (OPENAI_BASE_URL env) "https://api.openai.com/v1";
     models := {| default_model := "gpt-4o-mini"; fast := "gpt-4o-mini";
                  accurate := "gpt-4o"; cheap := Some "gpt-3.5-turbo" |};
     endpoints := [("completions", "/completions"); ("chat", "/chat/completions")];
     costPer1KTokens_input := 5 # 10000;
     costPer1KTokens_output := 15 # 10000 |}.

Definition gemini_config (env : Env) : ProviderConfig :=
  {| name := "gemini";
     apiKey := GEMINI_API_KEY env;
     baseURL := or_string (GEMINI_BASE_URL env) "https://generativelanguage.googleapis.com/v1";
     models := {| default_model := "gemini-1.5-pro"; fast := "gemini-1.5-flash";
                  accurate := "gemini-1.5-pro"; cheap := None |};
     endpoints := [("generate", "/models/{model}:generateContent")];
     costPer1KTokens_input := 125 # 1000000;
     costPer1KTokens_output := 375 # 1000000 |}.

Definition anthropic_config (env : Env) : ProviderConfig :=
  {| name := "anthropic";
     apiKey := ANTHROPIC_API_KEY env;
     baseURL := or_string (ANTHROPIC_BASE_URL env) "https://api.anthropic.com/v1";
     models := {| default_model := "claude-3-haiku"; fast := "claude-3-haiku";
                  accurate := "claude-3-opus"; cheap := None |};
     endpoints := [("messages", "/messages")];
     costPer1KTokens_input := 25 # 100000;
     costPer1KTokens_output := 125 # 100000 |}.

(** What [configs[providerName]] finds: an entry of the table, or a member
    that the object literal inherits from [Object.prototype], of which only
    the [name] matters ([undefined] for [__proto__]). *)
Inductive ConfigEntry :=
| Config (c : ProviderConfig)
| Inherited (member_name : option string).

Definition object_prototype_member (key : string) : option (option string) :=
  if bool_decide (key = "constructor") then Some (Some "Object")
  else if bool_decide (key = "__proto__") then Some None
  else if bool_decide (key ∈ ["hasOwnProperty"; "isPrototypeOf"; "propertyIsEnumerable";
                              "toLocaleString"; "toString"; "valueOf";
                              "__defineGetter__"; "__defineSetter__";
                              "__lookupGetter__"; "__lookupSetter__"])
  then Some (Some key)
  else None.

(** [initializeProvider]: [configs[providerName] || configs.openai]. *)
Definition initializeProvider (env : Env) (provider : option string) : ConfigEntry :=
  let providerName := or_string provider (or_string (AI_PROVIDER env) "openai") in
  if bool_decide (providerName = "openai") then Config (openai_config env)
  else if bool_decide (providerName = "gemini") then Config (gemini_config env)
  else if bool_decide (providerName = "anthropic") then Config (anthropic_config env)
  else match object_prototype_member providerName with
       | Some member => Inherited member
       | None => Config (openai_config env)
       end.

Definition entry_name (entry : ConfigEntry) : option string :=
  match entry with
  | Config c => Some (name c)
  | Inherited member => member
  end.

Definition unsupported_provider (provider_name : option string) : Thrown :=
  Error ("Unsupported provider: " ++ default "undefined" provider_name).

(** The SDK client [initializeClient] builds. *)
Inductive Client :=
| OpenAI (apiKey : option string) (baseURL : string)
| GoogleGenerativeAI (apiKey : option string)
| Anthropic (apiKey : option string) (baseURL : string).

(** [initializeClient]: the switch on [this.providerConfig.name]. *)
Definition initializeClient (entry : ConfigEntry) : Completion Client :=
  match entry with
  | Config c =>
      if bool_decide (name c = "openai") then Normal (OpenAI (apiKey c) (baseURL c))
      else if bool_decide (name c = "gemini") then Normal (GoogleGenerativeAI (apiKey c))
      else if bool_decide (name c = "anthropic") then Normal (Anthropic (apiKey c) (baseURL c))
      else Throw (unsupported_provider (Some (name c)))
  | Inherited member => Throw (unsupported_provider member)
  end.

(** [a ?? b] and [env.X === 'true']. *)
Definition is_true (v : option string) : bool :=
  match v with Some s => (s =? "true")%string | None => false end.

Definition nonzero (n : option Z) : option Z :=
  match n with
  | Some 0 => None
  | _ => n
  end.

(** The fields of the class; a count that is [None] is NaN.
    [providerConfig] holds what [initializeProvider] found. *)
Record LLMVerifier := {
  client : Client;
  defaultModel : string;
  maxRetries : option Z;
  timeout : option Z;
  temperature : number;
  maxTokens : option Z;
  criteria : VerificationCriteria;
  providerConfig : ConfigEntry;
  sentryEnabled : bool
}.

(** The constructor. *)
Definition LLMVerifier_new (env : Env) (options : ConstructorOptions) : Completion LLMVerifier :=
  let crit (pick : PartialCriteria -> option bool) (var : option string) :=
    default (is_true var) (o_criteria options ≫= pick) in
  let entry := initializeProvider env (o_provider options) in
  match initializeClient entry with
  | Throw t => Throw t
  | Normal sdk_client =>
      Normal
        {| defaultModel := or_string (o_model options) (or_string (AI_DEFAULT_MODEL env) "gpt-4o-mini");
           maxRetries := match nonzero (o_maxRetries options) with
                         | Some n => Some n
                         | None => parseInt (or_string (AI_MAX_RETRIES env) "3")
                         end;
           timeout := match nonzero (o_timeout options) with
                      | Some n => Some n
                      | None => parseInt (or_string (AI_TIMEOUT_MS env) "30000")
                      end;
           temperature := match o_temperature options with
                          | Some t => if js_num_eq t 0 || js_isNaN t
                                      then parseFloat (or_string (AI_TEMPERATURE env) "0.7")
                                      else t
                          | None => parseFloat (or_string (AI_TEMPERATURE env) "0.7")
                          end;
           maxTokens := match nonzero (o_maxTokens options) with
                        | Some n => Some n
                        | None => parseInt (or_string (AI_MAX_TOKENS env) "1000")
                        end;
           criteria := {| toxicity := crit c_toxicity (VERIFY_TOXICITY env);
                          factuality := crit c_factuality (VERIFY_FACTUALITY env);
                          coherence := crit c_coherence (VERIFY_COHERENCE env);
                          relevance := crit c_relevance (VERIFY_RELEVANCE env);
                          safety := crit c_safety (VERIFY_SAFETY env);
                          moderation := crit c_moderation (VERIFY_MODERATION env);
                          bias := crit c_bias (VERIFY_BIAS env) |};
           providerConfig := entry;
           sentryEnabled := default (is_true (ENABLE_SENTRY env)) (o_sentryEnabled options);
           client := sdk_client |}
  end.

(** ** [utils.ts]: the prompt *)

Definition nl : string := String (ascii_of_nat 10) "".

(** The text with a double quote in place of each apostrophe; the literals
    of the prompt are written with apostrophes below. *)
Fixpoint dq (s : string) : string :=
  match s with
  | EmptyString => EmptyString
  | String c s' => String (if Ascii.eqb c "'" then dquote else c) (dq s')
  end.

Definition when (b : bool) (line : string) : string := if b then line else "".

Definition category_line (categoryName : string) : string :=
  dq ("    '" ++ categoryName ++ "': {'passed': boolean, 'score': number, 'explanation': 'details'}").

(** [buildVerificationPrompt]. *)
Definition buildVerificationPrompt (input : string) (crit : VerificationCriteria)
    (context : option string) : string :=
  "Please verify the following content and provide a structured JSON response." ++ nl ++ nl
  ++ match context with
     | Some (String _ _ as c) => "Context: " ++ c ++ nl ++ nl
     | _ => ""
     end
  ++ "Content to verify: " ++ quoted input ++ nl ++ nl
  ++ "Verification Criteria (check all that apply):" ++ nl
  ++ when (toxicity crit)
       ("- Toxicity: Check for toxic, hateful, harmful, or abusive content" ++ nl)
  ++ when (factuality crit)
       ("- Factuality: Verify factual accuracy, check for misinformation" ++ nl)
  ++ when (coherence crit)
       ("- Coherence: Check logical flow, consistency, and clarity" ++ nl)
  ++ when (relevance crit)
       ("- Relevance: Check if content is relevant to the intended topic" ++ nl)
  ++ when (safety crit)
       ("- Safety: Check for dangerous, illegal, or policy-violating content" ++ nl)
  ++ when (moderation crit)
       ("- Moderation: Check for inappropriate, explicit, or offensive content" ++ nl)
  ++ when (bias crit)
       ("- Bias: Check for political, racial, gender, or other biases" ++ nl)
  ++ nl ++ "Respond with a JSON object in this exact format:" ++ nl
  ++ "{" ++ nl
  ++ dq "  'isValid': boolean," ++ nl
  ++ dq "  'confidence': number between 0 and 1," ++ nl
  ++ dq "  'reason': 'brief explanation'," ++ nl
  ++ dq "  'issues': ['specific issue 1', 'specific issue 2']," ++ nl
  ++ dq "  'suggestions': ['suggestion 1', 'suggestion 2']," ++ nl
  ++ dq "  'categories': {" ++ nl
  ++ category_line "toxicity" ++ "," ++ nl
  ++ category_line "factuality" ++ "," ++ nl
  ++ category_line "coherence" ++ "," ++ nl
  ++ category_line "relevance" ++ "," ++ nl
  ++ category_line "safety" ++ "," ++ nl
  ++ category_line "moderation" ++ "," ++ nl
  ++ category_line "bias" ++ nl
  ++ "  }" ++ nl
  ++ "}"
  ++ nl ++ nl
  ++ dq "Important: Only include categories that were requested. Return 'passed': false and score 0 for categories not checked.".

(** ** Effects: the clock, the provider calls and the pauses *)

Record ProviderCall := { call_prompt : string; call_retry : Z }.

(** The clock in milliseconds, the provider calls made so far and the
    pauses taken so far, oldest first. *)
Record World := {
  clock : Z;
  calls : list ProviderCall;
  sleeps : list Z
}.

Definition M (A : Type) : Type := World -> World * Completion A.

Definition ret {A : Type} (a : A) : M A := fun w => (w, Normal a).
Definition throw {A : Type} (t : Thrown) : M A := fun w => (w, Throw t).
Definition lift {A : Type} (c : Completion A) : M A := fun w => (w, c).
Definition bind {A B : Type} (m : M A) (k : A -> M B) : M B :=
  fun w => match m w with
           | (w', Normal a) => k a w'
           | (w', Throw t) => (w', Throw t)
           end.
(** [try { m } catch (error) { handler error }] *)
Definition try_catch {A : Type} (m : M A) (handler : Thrown -> M A) : M A :=
  fun w => match m w with
           | (w', Throw t) => handler t w'
           | (w', Normal a) => (w', Normal a)
           end.

Declare Scope js_scope.
Delimit Scope js_scope with js.
Notation "x <- m ;; k" := (bind m (fun x => k))
  (at level 100, m at next level, k at level 200, right associativity) : js_scope.
Notation "m ;; k" := (bind m (fun _ => k))
  (at level 100, k at level 200, right associativity) : js_scope.

Definition Date_now : M Z := fun w => (w, Normal (clock w)).

(** [utils.ts], [sleep]: the pause is recorded and the clock moves on. *)
Definition sleep (ms : Z) : M unit :=
  fun w => ({| clock := clock w + ms; calls := calls w; sleeps := sleeps w ++ [ms] |}, Normal tt).

Record VerificationOptions := {
  opt_model : option string;
  opt_temperature : option number;
  opt_maxTokens : option Z;
  batchSize : option Z;
  context : option string;
  batchIndex : option Z;
  batchTotal : option Z
}.

(** What one call of an SDK method does: the time it takes and how it
    completes. *)
Record Reply (A : Type) := { elapsed : Z; outcome : Completion A }.
Arguments elapsed {A} r.
Arguments outcome {A} r.

Record UsageMetadata := {
  promptTokenCount : option Z;
  candidatesTokenCount : option Z;
  totalTokenCount : option Z
}.

Record GeminiResult := {
  response_text : string;
  usageMetadata : option UsageMetadata
}.

(** The three SDK methods the verifier calls on [this.client], as functions
    of the prompt, the options and the number of the retry. *)
Record Sdk := {
  responses_create : string -> VerificationOptions -> Z -> Reply LLMResponse;
  generateContent : string -> VerificationOptions -> Z -> Reply GeminiResult;
  messages_create : string -> VerificationOptions -> Z -> Reply LLMResponse
}.

(** A provider call: it is recorded, takes its time and completes. *)
Definition await {A : Type} (prompt : string) (retryCount : Z) (r : Reply A) : M A :=
  fun w => ({| clock := clock w + elapsed r;
               calls := calls w ++ [{| call_prompt := prompt; call_retry := retryCount |}];
               sleeps := sleeps w |}, outcome r).

(** [inputs.slice(start, stop)] *)
Definition slice {A : Type} (l : list A) (start stop : Z) : list A :=
  let len := Z.of_nat (length l) in
  let clamp x := if x <? 0 then Z.max (len + x) 0 else Z.min x len in
  take (Z.to_nat (clamp stop - clamp start)) (drop (Z.to_nat (clamp start)) l).

Section Verifier.

Local Open Scope js_scope.

Variable sdk : Sdk.
Variable this : LLMVerifier.

Definition provider_name : option string := entry_name (providerConfig this).

(** The body of the [try] of [callLLMWithRetry]: the switch on the provider. *)
Definition call_provider (prompt : string) (options : VerificationOptions)
    (retryCount : Z) : M LLMResponse :=
  match provider_name with
  | Some "openai" => await prompt retryCount (responses_create sdk prompt options retryCount)
  | Some "gemini" =>
      geminiResult <- await prompt retryCount (generateContent sdk prompt options retryCount) ;;
      ret {| output_text := Some (response_text geminiResult);
             usage := Some {| prompt_tokens :=
                                Some (default 0 (usageMetadata geminiResult ≫= promptTokenCount));
                              completion_tokens :=
                                Some (default 0 (usageMetadata geminiResult ≫= candidatesTokenCount));
                              total_tokens :=
                                Some (default 0 (usageMetadata geminiResult ≫= totalTokenCount)) |};
             response_model := None;
             first_choice := None |}
  | Some "anthropic" => await prompt retryCount (messages_create sdk prompt options retryCount)
  | _ => throw (unsupported_provider provider_name)
  end.

(** The retries left when [retryCount] have been made: the number of values
    from [retryCount] on that are below [maxRetries]. *)
Definition retries_left (retryCount : Z) : nat :=
  match maxRetries this with
  | Some m => Z.to_nat (m - retryCount)
  | None => O
  end.

(** [callLLMWithRetry], by recursion on the retries left; the equation of the
    source, with the test [retryCount < this.maxRetries], is
    [callLLMWithRetry_unfold] below. *)
Fixpoint retry_loop (left : nat) (prompt : string) (options : VerificationOptions)
    (retryCount : Z) : M LLMResponse :=
  try_catch (call_provider prompt options retryCount)
    (fun error =>
       match left with
       | S left' =>
           again <- lift (isRetryableError error) ;;
           if again : bool then
             sleep (2 ^ retryCount * 1000) ;;
             retry_loop left' prompt options (retryCount + 1)
           else throw error
       | O => throw error
       end).

Definition callLLMWithRetry (prompt : string) (options : VerificationOptions)
    (retryCount : Z) : M LLMResponse :=
  retry_loop (retries_left retryCount) prompt options retryCount.

(** [calculateCost] *)
Definition calculateCost (inputTokens outputTokens : Z) : Completion Q :=
  match providerConfig this with
  | Config c =>
      Normal ((inject_Z inputTokens / 1000) * costPer1KTokens_input c
              + (inject_Z outputTokens / 1000) * costPer1KTokens_output c)%Q
  | Inherited _ => Throw (TypeError "Cannot read properties of undefined (reading 'input')")
  end.

(** [n || otherwise] on a count that may be absent. *)
Definition or_count (n : option Z) (otherwise : Z) : Z :=
  default otherwise (nonzero n).

(** [calculateMetrics] *)
Definition calculateMetrics (response : LLMResponse) (startTime : Z) (input : string)
    : M VerificationMetrics :=
  now <- Date_now ;;
  let latency := now - startTime in
  let inputTokens :=
    or_count (usage response ≫= prompt_tokens) ((Z.of_nat (js_length input) + 3) / 4) in
  let outputTokens := or_count (usage response ≫= completion_tokens) 0 in
  let totalTokens := or_count (usage response ≫= total_tokens) (inputTokens + outputTokens) in
  cost <- lift (calculateCost inputTokens outputTokens) ;;
  ret {| latency := latency;
         inputTokens := inputTokens;
         outputTokens := outputTokens;
         totalTokens := totalTokens;
         cost := cost;
         metrics_model := or_string (response_model response) (defaultModel this);
         metrics_provider := provider_name |}.

(** [handleVerificationError]. Reading [error.message] of [null] or
    [undefined] raises. *)
Definition handleVerificationError (error : Thrown) (input : string)
    (options : VerificationOptions) : Completion VerificationResult :=
  match error with
  | ThrownUndefined =>
      Throw (TypeError "Cannot read properties of undefined (reading 'message')")
  | ThrownNull =>
      Throw (TypeError "Cannot read properties of null (reading 'message')")
  | ThrownValue e =>
      match isRetryableError error with
      | Throw t => Throw t
      | Normal again =>
          Normal
            {| isValid := false;
               confidence := 0;
               reason := JString ("Verification failed: " ++ prim_to_string (message e));
               issues := [Some (JString "LLM API error"); prim_value (message e)];
               suggestions := [Some (JString "Please try again later");
                               Some (JString "Check API key configuration")];
               categories := ∅;
               metrics := {| latency := 0; inputTokens := 0; outputTokens := 0;
                             totalTokens := 0; cost := 0;
                             metrics_model := or_string (opt_model options) (defaultModel this);
                             metrics_provider := provider_name |};
               provider := provider_name;
               model := Some (or_string (opt_model options) (defaultModel this));
               error := prim_value (message e);
               metadata := Some {| errorType := constructor_name e;
                                   errorCode := prim_value (if prim_truthy (code e)
                                                            then code e else status e);
                                   retryable := again |} |}
      end
  end.

(** [verify] *)
Definition verify (input : string) (options : VerificationOptions) : M VerificationResult :=
  try_catch
    (startTime <- Date_now ;;
     let verificationPrompt := buildVerificationPrompt input (criteria this) (context options) in
     llmResponse <- callLLMWithRetry verificationPrompt options 0 ;;
     let result := parseLLMResponse llmResponse input in
     result_metrics <- calculateMetrics llmResponse startTime input ;;
     ret {| isValid := isValid result;
            confidence := confidence result;
            reason := reason result;
            issues := issues result;
            suggestions := suggestions result;
            categories := categories result;
            metrics := result_metrics;
            provider := provider_name;
            model := Some (or_string (opt_model options) (defaultModel this));
            error := error result;
            metadata := metadata result |})
    (fun error => lift (handleVerificationError error input options)).

(** One element of [batch.map(...)]: the verification of [input] with its
    position added to the options, and the handler attached by [.catch]. *)
Definition verify_item (total : Z) (options : VerificationOptions) (position : Z)
    (input : string) : M VerificationResult :=
  try_catch
    (verify input {| opt_model := opt_model options;
                     opt_temperature := opt_temperature options;
                     opt_maxTokens := opt_maxTokens options;
                     batchSize := batchSize options;
                     context := context options;
                     batchIndex := Some position;
                     batchTotal := Some total |})
    (fun error => lift (handleVerificationError error input options)).

(** [Promise.all(batch.map(...))], the items taken one after the other. *)
Fixpoint verify_chunk (total : Z) (options : VerificationOptions) (i : Z)
    (batch : list string) (index : Z) : M (list VerificationResult) :=
  match batch with
  | [] => ret []
  | input :: batch' =>
      r <- verify_item total options (i + index) input ;;
      rs <- verify_chunk total options i batch' (index + 1) ;;
      ret (r :: rs)
  end.

(** The [for] loop of [verifyBatch]; [None] when the fuel does not reach the
    end of the loop. *)
Fixpoint batch_loop (fuel : nat) (inputs : list string) (options : VerificationOptions)
    (size : Z) (i : Z) (results : list VerificationResult) (w : World)
    : option (World * Completion (list VerificationResult)) :=
  let total := Z.of_nat (length inputs) in
  if i <? total then
    match fuel with
    | O => None
    | S fuel' =>
        let batch := slice inputs i (i + size) in
        match verify_chunk total options i batch 0 w with
        | (w', Throw t) => Some (w', Throw t)
        | (w', Normal batchResults) =>
            let w'' := if i + size <? total then fst (sleep 1000 w') else w' in
            batch_loop fuel' inputs options size (i + size) (results ++ batchResults) w''
        end
    end
  else Some (w, Normal results).

(** [verifyBatch] *)
Definition verifyBatch (fuel : nat) (inputs : list string) (options : VerificationOptions)
    (w : World) : option (World * Completion (list VerificationResult)) :=
  batch_loop fuel inputs options (or_count (batchSize options) 3) 0 [] w.

End Verifier.

(* ================================================================= *)
(** * Specification vocabulary

    The predicates in which the properties of the verifier are stated, and
    the sample values on which they are evaluated. *)

(** ** Texts and patterns *)

(** The specification of [includes]: [needle] occurs somewhere in [s]. *)
Definition occurs_in (needle s : string) : Prop :=
  exists pre post, s = pre ++ needle ++ post.

(** Every character of a text is in a class. *)
Fixpoint all_chars (p : ascii -> bool) (s : string) : bool :=
  match s with
  | EmptyString => true
  | String c s' => p c && all_chars p s'
  end.

(** [Matches r s rest]: the pattern [r] matches a prefix of [s] and leaves
    [rest]; an iteration of a starred pattern consumes something. *)
Inductive Matches : regex -> string -> string -> Prop :=
| M_Eps s : Matches Eps s s
| M_Chr p c s : p c = true -> Matches (Chr p) (String c s) s
| M_Seq r1 r2 s s1 s2 :
    Matches r1 s s1 -> Matches r2 s1 s2 -> Matches (Seq r1 r2) s s2
| M_AltL r1 r2 s s' : Matches r1 s s' -> Matches (Alt r1 r2) s s'
| M_AltR r1 r2 s s' : Matches r2 s s' -> Matches (Alt r1 r2) s s'
| M_Star0 g r s : Matches (Star g r) s s
| M_StarS g r s s1 s2 :
    Matches r s s1 -> (String.length s1 < String.length s)%nat ->
    Matches (Star g r) s1 s2 -> Matches (Star g r) s s2
| M_Group n r s s' : Matches r s s' -> Matches (Group n r) s s'.


(** A text is empty or starts with a character outside a class. *)
Definition stops (p : ascii -> bool) (s : string) : Prop :=
  match s with
  | String c _ => p c = false
  | EmptyString => True
  end.

(** The characters of a line that are not digits. *)
Definition not_digit_on_line : ascii -> bool := fun c => dot c && negb (is_digit c).





(** One of the words occurs in the text put in lower case. *)
Definition mentions (words : list string) (text : string) : Prop :=
  exists w, w ∈ words /\ occurs_in w (toLowerCase text).

(** ** The retry classifier *)

Definition retryPhrases : list string :=
  ["rate limit"; "too many requests"; "quota exceeded"; "timeout"; "timed out"].

(** The error carries one of the transport error codes. *)
Definition has_network_code (e : ErrorObject) : Prop :=
  exists c, code e = PStr c /\ c ∈ networkErrors.

(** The error carries a status, that is a truthy [status]. *)
Definition has_status (e : ErrorObject) : Prop := prim_truthy (status e) = true.

(** The error carries one of the six retryable statuses. *)
Definition has_retryable_status (e : ErrorObject) : Prop :=
  exists n, status e = PNum n /\ n ∈ retryableStatuses.

(** The message contains one of the five phrases, in lower case as they are
    written. *)
Definition message_matches (e : ErrorObject) : Prop :=
  exists m phrase, message e = PStr m /\ phrase ∈ retryPhrases /\ occurs_in phrase m.

(** The message is a string or is absent. *)
Definition message_is_text (e : ErrorObject) : Prop :=
  match message e with
  | PStr _ | PUndefined | PNull => True
  | PBool _ | PNum _ => False
  end.

(** ** Providers *)

Definition supportedProviders : list string := ["openai"; "gemini"; "anthropic"].

(** The options with [provider] set. *)
Definition with_provider (options : ConstructorOptions) (p : string) : ConstructorOptions :=
  {| o_model := o_model options; o_maxRetries := o_maxRetries options;
     o_timeout := o_timeout options; o_temperature := o_temperature options;
     o_maxTokens := o_maxTokens options; o_criteria := o_criteria options;
     o_provider := Some p; o_sentryEnabled := o_sentryEnabled options |}.

(** ** Calls, retries and results *)

(** The shape of the result of a failed verification: invalid, confidence 0,
    the message of the error in the reason and in the [error] field, no
    categories, and metrics that count nothing. *)
Definition DoneError (error_message : string) (r : VerificationResult) : Prop :=
  isValid r = false
  /\ confidence r = 0
  /\ (exists text, reason r = JString text /\ occurs_in error_message text)
  /\ error r = Some (JString error_message)
  /\ categories r = ∅
  /\ latency (metrics r) = 0
  /\ inputTokens (metrics r) = 0
  /\ outputTokens (metrics r) = 0
  /\ totalTokens (metrics r) = 0
  /\ cost (metrics r) = 0%Q.

(** The world after one more provider call that took [dt]. *)
Definition called (prompt : string) (retryCount dt : Z) (w : World) : World :=
  {| clock := clock w + dt;
     calls := calls w ++ [{| call_prompt := prompt; call_retry := retryCount |}];
     sleeps := sleeps w |}.

(** The calls and the pauses of [n] retries that start at retry number
    [retryCount]. *)
Definition calls_from (prompt : string) (retryCount : Z) (n : nat) : list ProviderCall :=
  (fun i => {| call_prompt := prompt; call_retry := i |}) <$> seqZ retryCount (Z.of_nat n).

Definition backoff_from (retryCount : Z) (n : nat) : list Z :=
  (fun i => 2 ^ i * 1000) <$> seqZ retryCount (Z.of_nat n).

Section Behaviour.

Variable sdk : Sdk.
Variable this : LLMVerifier.

(** The provider in use is one of the three the verifier has a client for. *)
Definition supported : Prop :=
  exists p, provider_name this = Some p /\ p ∈ supportedProviders.

(** How the call made for retry number [retryCount] completes. *)
Definition attempt (prompt : string) (options : VerificationOptions) (retryCount : Z)
    : Completion LLMResponse :=
  snd (call_provider sdk this prompt options retryCount
         {| clock := 0; calls := []; sleeps := [] |}).

(** How a run of the retry loop ends after [n] retries. *)
Definition ends_with (prompt : string) (options : VerificationOptions) (last : Z)
    (exhausted : bool) (r : Completion LLMResponse) : Prop :=
  match attempt prompt options last with
  | Normal response => r = Normal response
  | Throw e =>
      if exhausted then r = Throw e
      else match isRetryableError e with
           | Normal again => again = false /\ r = Throw e
           | Throw t => r = Throw t
           end
  end.

(** How a slot of a batch is filled: by the result of [verify], or, when
    [verify] raises, by the result [handleVerificationError] makes of what was
    raised. *)
Definition slot_filled (total : Z) (options : VerificationOptions) (position : Z)
    (input : string) (r : VerificationResult) : Prop :=
  exists w w',
    verify_item sdk this total options position input w = (w', Normal r)
    /\ let options' := {| opt_model := opt_model options;
                          opt_temperature := opt_temperature options;
                          opt_maxTokens := opt_maxTokens options;
                          batchSize := batchSize options;
                          context := context options;
                          batchIndex := Some position;
                          batchTotal := Some total |} in
       (verify sdk this input options' w = (w', Normal r)
        \/ exists t m, verify sdk this input options' w = (w', Throw t) /\ DoneError m r).

(** The results [rs] fill the slots of [items], which stand at the positions
    from [first] on. *)
Definition slots_filled (total : Z) (options : VerificationOptions) (first : Z)
    (items : list string) (rs : list VerificationResult) : Prop :=
  length rs = length items
  /\ forall (k : nat) (input : string), items !! k = Some input ->
       exists r, rs !! k = Some r
                 /\ slot_filled total options (first + Z.of_nat k) input r.

End Behaviour.

(** Every call of the provider fails with an HTTP error of status [s]: an
    error with that status, no transport code and a message. *)
Definition always_fails_with (sdk : Sdk) (this : LLMVerifier) (s : Z) : Prop :=
  forall prompt options retryCount,
  exists e m, attempt sdk this prompt options retryCount = Throw (ThrownValue e)
              /\ status e = PNum s /\ ~ has_network_code e /\ message e = PStr m.

(** The response is parsed as structured data. *)
Definition structured (response : LLMResponse) : Prop :=
  truthy (Some (extractJSONFromText (responseText response))) = true.

(** ** The documented output schema *)

(** What an answer says about one category, and what it says in all. *)
Record CategoryVerdict := {
  cv_passed : bool;
  cv_score : Q;
  cv_explanation : string
}.

Record Verdict := {
  v_isValid : bool;
  v_confidence : Q;
  v_category : string -> CategoryVerdict
}.

Definition is_object (v : Json) : Prop := exists props, v = JObject props.

Definition is_string_array (v : option Json) : Prop :=
  exists items, v = Some (JArray items) /\ Forall (fun i => exists s, i = JString s) items.

Definition unit_interval (q : Q) : Prop := (0 <= q)%Q /\ (q <= 1)%Q.

(** The entry of a category follows the schema and says [cv]. *)
Definition category_matches (entry : Json) (cv : CategoryVerdict) : Prop :=
  is_object entry
  /\ prop "passed" entry = Some (JBool (cv_passed cv))
  /\ prop "score" entry = Some (JNumber (cv_score cv))
  /\ unit_interval (cv_score cv)
  /\ prop "explanation" entry = Some (JString (cv_explanation cv)).

(** The data follow the documented output schema and say [v]. *)
Definition matches_schema (data : Json) (v : Verdict) : Prop :=
  is_object data
  /\ prop "isValid" data = Some (JBool (v_isValid v))
  /\ prop "confidence" data = Some (JNumber (v_confidence v))
  /\ unit_interval (v_confidence v)
  /\ (exists s, prop "reason" data = Some (JString s))
  /\ is_string_array (prop "issues" data)
  /\ is_string_array (prop "suggestions" data)
  /\ exists cats, prop "categories" data = Some cats
                  /\ is_object cats
                  /\ forall categoryName, categoryName ∈ validCategoryNames ->
                       exists entry, prop categoryName cats = Some entry
                                     /\ category_matches entry (v_category v categoryName).

(** The result says [v], with each explanation passed through [shown]. *)
Definition reflects (shown : string -> string) (r : VerificationResult) (v : Verdict) : Prop :=
  isValid r = v_isValid v
  /\ (exists q, confidence r = Num q /\ (q == v_confidence v)%Q)
  /\ dom (categories r) = list_to_set validCategoryNames
  /\ forall categoryName, categoryName ∈ validCategoryNames ->
       exists entry q,
         categories r !! categoryName = Some entry
         /\ passed entry = cv_passed (v_category v categoryName)
         /\ score entry = ScoreNum (Num q)
         /\ (q == cv_score (v_category v categoryName))%Q
         /\ explanation entry = Str (shown (cv_explanation (v_category v categoryName))).

(** The explanation [validateCategory] stores: an empty one is replaced. *)
Definition shown_explanation (e : string) : string :=
  if (e =? "")%string then "Not provided" else e.

(** ** Sample values *)

(** A sample environment, the instance the constructor builds from it, and
    clients whose every call fails with a given status. *)
Definition sample_env : Env :=
  {| AI_DEFAULT_MODEL := None; AI_MAX_RETRIES := Some "3"; AI_TIMEOUT_MS := None;
     AI_TEMPERATURE := None; AI_MAX_TOKENS := None; ENABLE_SENTRY := None;
     VERIFY_TOXICITY := Some "true"; VERIFY_FACTUALITY := None; VERIFY_COHERENCE := None;
     VERIFY_RELEVANCE := None; VERIFY_SAFETY := Some "true"; VERIFY_MODERATION := None;
     VERIFY_BIAS := None; AI_PROVIDER := None; OPENAI_API_KEY := Some "sk-sample";
     OPENAI_BASE_URL := None; GEMINI_API_KEY := None; GEMINI_BASE_URL := None;
     ANTHROPIC_API_KEY := None; ANTHROPIC_BASE_URL := None |}.

Definition no_constructor_options : ConstructorOptions :=
  {| o_model := None; o_maxRetries := None; o_timeout := None; o_temperature := None;
     o_maxTokens := None; o_criteria := None; o_provider := None; o_sentryEnabled := None |}.

Definition sample_verifier : LLMVerifier :=
  {| client := OpenAI (Some "sk-sample") "https://api.openai.com/v1";
     defaultModel := "gpt-4o-mini";
     maxRetries := Some 3;
     timeout := Some 30000;
     temperature := Num (7 # 10);
     maxTokens := Some 1000;
     criteria := {| toxicity := true; factuality := false; coherence := false;
                    relevance := false; safety := true; moderation := false; bias := false |};
     providerConfig := Config (openai_config sample_env);
     sentryEnabled := false |}.

Definition no_options : VerificationOptions :=
  {| opt_model := None; opt_temperature := None; opt_maxTokens := None; batchSize := None;
     context := None; batchIndex := None; batchTotal := None |}.

Definition fresh_world : World := {| clock := 0; calls := []; sleeps := [] |}.

Definition http_error (s : Z) (m : string) : ErrorObject :=
  {| constructor_name := "APIError"; code := PUndefined; status := PNum s; message := PStr m |}.

Definition failing_sdk (s : Z) (m : string) : Sdk :=
  {| responses_create := fun _ _ _ => {| elapsed := 10; outcome := Throw (ThrownValue (http_error s m)) |};
     generateContent := fun _ _ _ => {| elapsed := 10; outcome := Throw (ThrownValue (http_error s m)) |};
     messages_create := fun _ _ _ => {| elapsed := 10; outcome := Throw (ThrownValue (http_error s m)) |} |}.

(** A client whose every call returns the given text. *)
Definition text_response (text : string) : LLMResponse :=
  {| output_text := Some text; usage := None; response_model := None; first_choice := None |}.

Definition replying_sdk (text : string) : Sdk :=
  {| responses_create := fun _ _ _ => {| elapsed := 10; outcome := Normal (text_response text) |};
     generateContent := fun _ _ _ =>
       {| elapsed := 10; outcome := Normal {| response_text := text; usageMetadata := None |} |};
     messages_create := fun _ _ _ => {| elapsed := 10; outcome := Normal (text_response text) |} |}.

(** The options of a batch of the given size. *)
Definition batch_options (size : Z) : VerificationOptions :=
  {| opt_model := None; opt_temperature := None; opt_maxTokens := None;
     batchSize := Some size; context := None; batchIndex := None; batchTotal := None |}.

(** A well-formed answer in which the toxicity entry has an empty
    explanation. *)
Definition sample_answer : string :=
  dq ("{'isValid': true, 'confidence': 0.9, 'reason': 'fine', 'issues': [], "
      ++ "'suggestions': ['none'], 'categories': {"
      ++ "'toxicity': {'passed': true, 'score': 0.95, 'explanation': ''}, "
      ++ "'factuality': {'passed': true, 'score': 0.8, 'explanation': 'checked'}, "
      ++ "'coherence': {'passed': true, 'score': 1, 'explanation': 'clear'}, "
      ++ "'relevance': {'passed': false, 'score': 0.25, 'explanation': 'off topic'}, "
      ++ "'safety': {'passed': true, 'score': 1, 'explanation': 'safe'}, "
      ++ "'moderation': {'passed': true, 'score': 0.5, 'explanation': 'mild'}, "
      ++ "'bias': {'passed': true, 'score': 0, 'explanation': 'none found'}}}").

Definition sample_verdict : Verdict :=
  {| v_isValid := true;
     v_confidence := 9 # 10;
     v_category := fun categoryName =>
       if bool_decide (categoryName = "toxicity") then
         {| cv_passed := true; cv_score := 19 # 20; cv_explanation := "" |}
       else if bool_decide (categoryName = "factuality") then
         {| cv_passed := true; cv_score := 4 # 5; cv_explanation := "checked" |}
       else if bool_decide (categoryName = "coherence") then
         {| cv_passed := true; cv_score := 1; cv_explanation := "clear" |}
       else if bool_decide (categoryName = "relevance") then
         {| cv_passed := false; cv_score := 1 # 4; cv_explanation := "off topic" |}
       else if bool_decide (categoryName = "safety") then
         {| cv_passed := true; cv_score := 1; cv_explanation := "safe" |}
       else if bool_decide (categoryName = "moderation") then
         {| cv_passed := true; cv_score := 1 # 2; cv_explanation := "mild" |}
       else {| cv_passed := true; cv_score := 0; cv_explanation := "none found" |} |}.


(* ================================================================= *)
(** * [setup.ts] and the remaining methods of [LLMVerifier.ts] *)

(** ** [setup.ts] *)

(** [createVerifierFromEnv]: the configuration read from the environment is
    handed to the constructor. A count that [parseInt] could not read is NaN,
    which the constructor treats as it treats an absent one (it only applies
    [||] to it), so both are [None]. The [logLevel] entry is read by
    nothing. *)
Definition createVerifierFromEnv (env : Env) : Completion LLMVerifier :=
  let config :=
    {| o_provider := Some (or_string (AI_PROVIDER env) "openai");
       o_model := Some (or_string (AI_DEFAULT_MODEL env) "gpt-4o-mini");
       o_maxRetries := parseInt (or_string (AI_MAX_RETRIES env) "3");
       o_timeout := parseInt (or_string (AI_TIMEOUT_MS env) "30000");
       o_temperature := Some (parseFloat (or_string (AI_TEMPERATURE env) "0.7"));
       o_maxTokens := parseInt (or_string (AI_MAX_TOKENS env) "1000");
       o_criteria := None;
       o_sentryEnabled := Some (is_true (ENABLE_SENTRY env)) |} in
  LLMVerifier_new env config.

(** The argument of [setupVerifier]. *)
Record SetupOptions := {
  s_env : Env;
  s_provider : option string;
  s_model : option string;
  s_criteria : option (list (string * bool));
  s_sentryEnabled : option bool
}.

(** The [overrides] object [setupVerifier] fills in. *)
Record Overrides := {
  ov_provider : option string;
  ov_model : option string;
  ov_criteria : option (list (string * bool));
  ov_sentryEnabled : option bool
}.

(** [if (v) overrides.x = v] for a string. *)
Definition if_truthy (v : option string) : option string :=
  match v with
  | Some (String _ _) => v
  | _ => None
  end.

(** [setupVerifier]: the overrides are collected and the verifier made from
    the environment is returned. *)
Definition setupVerifier (options : SetupOptions) : Completion LLMVerifier :=
  match createVerifierFromEnv (s_env options) with
  | Throw t => Throw t
  | Normal verifier =>
      let overrides :=
        {| ov_provider := if_truthy (s_provider options);
           ov_model := if_truthy (s_model options);
           ov_criteria := s_criteria options;
           ov_sentryEnabled := s_sentryEnabled options |} in
      Normal verifier
  end.

(** [!env.X]: the variable is unset or empty. *)
Definition unset (v : option string) : bool :=
  match v with
  | Some (String _ _) => false
  | _ => true
  end.

(** [validateEnvConfig]: the list of the complaints, in the order in which
    they are pushed. *)
Definition validateEnvConfig (env : Env) : list string :=
  let provider := or_string (AI_PROVIDER env) "openai" in
  let key_errors :=
    if bool_decide (provider = "openai") then
      if unset (OPENAI_API_KEY env)
      then ["OPENAI_API_KEY is required for OpenAI provider"] else []
    else if bool_decide (provider = "gemini") then
      if unset (GEMINI_API_KEY env)
      then ["GEMINI_API_KEY is required for Gemini provider"] else []
    else if bool_decide (provider = "anthropic") then
      if unset (ANTHROPIC_API_KEY env)
      then ["ANTHROPIC_API_KEY is required for Anthropic provider"] else []
    else [] in
  let maxRetries := parseInt (or_string (AI_MAX_RETRIES env) "3") in
  let retry_errors :=
    match maxRetries with
    | None => ["AI_MAX_RETRIES must be between 1 and 10"]
    | Some n => if (n <? 1) || (10 <? n)
                then ["AI_MAX_RETRIES must be between 1 and 10"] else []
    end in
  let temperature := parseFloat (or_string (AI_TEMPERATURE env) "0.7") in
  let temperature_errors :=
    if js_isNaN temperature || js_lt temperature 0 || js_gt temperature 2
    then ["AI_TEMPERATURE must be between 0 and 2"] else [] in
  (key_errors ++ retry_errors ++ temperature_errors)%list.

Record ProviderInfo := {
  info_name : string;
  info_models : list string;
  website : string;
  info_cost : string
}.

Definition openai_info : ProviderInfo :=
  {| info_name := "OpenAI";
     info_models := ["gpt-4o"; "gpt-4o-mini"; "gpt-4-turbo"; "gpt-3.5-turbo"];
     website := "https://openai.com";
     info_cost := "See https://openai.com/pricing" |}.

Definition gemini_info : ProviderInfo :=
  {| info_name := "Google Gemini";
     info_models := ["gemini-1.5-pro"; "gemini-1.5-flash"; "gemini-pro"];
     website := "https://ai.google.dev";
     info_cost := "See https://ai.google.dev/pricing" |}.

Definition anthropic_info : ProviderInfo :=
  {| info_name := "Anthropic Claude";
     info_models := ["claude-3-opus"; "claude-3-sonnet"; "claude-3-haiku"];
     website := "https://www.anthropic.com";
     info_cost := "See https://www.anthropic.com/pricing" |}.

(** What [info[provider]] finds: an entry of the table, or a member the
    object literal inherits, which is truthy and is returned as it is. *)
Inductive InfoEntry :=
| Info (i : ProviderInfo)
| InheritedInfo (member_name : option string).

(** [getProviderInfo]: [info[provider] || info.openai]. *)
Definition getProviderInfo (env : Env) : InfoEntry :=
  let provider := or_string (AI_PROVIDER env) "openai" in
  if bool_decide (provider = "openai") then Info openai_info
  else if bool_decide (provider = "gemini") then Info gemini_info
  else if bool_decide (provider = "anthropic") then Info anthropic_info
  else match object_prototype_member provider with
       | Some member => InheritedInfo member
       | None => Info openai_info
       end.

(** ** [LLMVerifier.ts]: [testConnection] *)

Section Connection.

Local Open Scope js_scope.

Variable sdk : Sdk.
Variable this : LLMVerifier.

Definition testPrompt : string := dq "Hello, please respond with 'OK'".

(** [testConnection]. The handler reads [error.message] for the log entry,
    which raises when the thrown value is [null] or [undefined]. *)
Definition testConnection : M bool :=
  try_catch
    (response <- callLLMWithRetry sdk this testPrompt no_options 0 ;;
     let responseText := or_string (output_text response) "" in
     ret (includes responseText "OK" || includes responseText "ok"))
    (fun error =>
       match error with
       | ThrownUndefined =>
           throw (TypeError "Cannot read properties of undefined (reading 'message')")
       | ThrownNull =>
           throw (TypeError "Cannot read properties of null (reading 'message')")
       | ThrownValue _ => ret false
       end).

End Connection.

(** ** Vocabulary of the further properties *)

(** The API key variable [validateEnvConfig] asks for: that of the provider
    named by [AI_PROVIDER], none for a name it does not know. *)
Definition required_key (env : Env) : option (option string) :=
  let provider := or_string (AI_PROVIDER env) "openai" in
  if bool_decide (provider = "openai") then Some (OPENAI_API_KEY env)
  else if bool_decide (provider = "gemini") then Some (GEMINI_API_KEY env)
  else if bool_decide (provider = "anthropic") then Some (ANTHROPIC_API_KEY env)
  else None.

(** The key an SDK client was built with. *)
Definition client_key (c : Client) : option string :=
  match c with
  | OpenAI k _ | GoogleGenerativeAI k | Anthropic k _ => k
  end.

(** The description of a provider of the configuration table. *)
Definition info_of (provider_name : string) : ProviderInfo :=
  if bool_decide (provider_name = "gemini") then gemini_info
  else if bool_decide (provider_name = "anthropic") then anthropic_info
  else openai_info.

(** The entry [validateCategories] makes for a category the answer does not
    describe. *)
Definition unchecked_category : CategoryResult :=
  {| passed := false; score := ScoreNum 0;
     explanation := Str "Category not checked"; details := None |}.

(** What an answer holds under [categories] for a name. *)
Definition category_entry (data : Json) (categoryName : string) : option Json :=
  prop "categories" data ≫= prop categoryName.

(** A thrown value [handleVerificationError] cannot report: [null],
    [undefined], or a value whose message is neither a string nor absent and
    which carries neither a transport code nor a status. *)
Definition unreadable (t : Thrown) : Prop :=
  match t with
  | ThrownUndefined | ThrownNull => True
  | ThrownValue e => ~ message_is_text e /\ ~ has_network_code e /\ ~ has_status e
  end.

(** A client whose every call is rejected with the given value. *)
Definition rejecting_sdk (t : Thrown) : Sdk :=
  {| responses_create := fun _ _ _ => {| elapsed := 10; outcome := Throw t |};
     generateContent := fun _ _ _ => {| elapsed := 10; outcome := Throw t |};
     messages_create := fun _ _ _ => {| elapsed := 10; outcome := Throw t |} |}.

(** A client whose calls fail with status [s] for the first [failures]
    attempts and answer [text] from then on. *)
Definition flaky_sdk (failures s : Z) (text : string) : Sdk :=
  let reply {A : Type} (answer : A) (retryCount : Z) : Reply A :=
    {| elapsed := 10;
       outcome := if retryCount <? failures
                  then Throw (ThrownValue (http_error s "Service Unavailable"))
                  else Normal answer |} in
  {| responses_create := fun _ _ retryCount => reply (text_response text) retryCount;
     generateContent := fun _ _ retryCount =>
       reply {| response_text := text; usageMetadata := None |} retryCount;
     messages_create := fun _ _ retryCount => reply (text_response text) retryCount |}.

(** The sample environment with another value of [AI_MAX_RETRIES]. *)
Definition sample_env_with_retries (value : option string) : Env :=
  {| AI_DEFAULT_MODEL := None; AI_MAX_RETRIES := value; AI_TIMEOUT_MS := None;
     AI_TEMPERATURE := None; AI_MAX_TOKENS := None; ENABLE_SENTRY := None;
     VERIFY_TOXICITY := Some "true"; VERIFY_FACTUALITY := None; VERIFY_COHERENCE := None;
     VERIFY_RELEVANCE := None; VERIFY_SAFETY := Some "true"; VERIFY_MODERATION := None;
     VERIFY_BIAS := None; AI_PROVIDER := None; OPENAI_API_KEY := Some "sk-sample";
     OPENAI_BASE_URL := None; GEMINI_API_KEY := None; GEMINI_BASE_URL := None;
     ANTHROPIC_API_KEY := None; ANTHROPIC_BASE_URL := None |}.

(** The sum of a list of durations. *)
Definition total (durations : list Z) : Z := foldr Z.add 0 durations.

(** A text has no white space at its start: it is empty or starts with
    something else. *)
Definition starts_clean (s : string) : Prop :=
  match s with
  | String c _ => is_space c = false
  | EmptyString => True
  end.

(** The characters other than the full stop. *)
Definition not_full_stop : ascii -> bool := fun c => negb (Ascii.eqb c ".").

(** The criteria with the line each one adds to the prompt. *)
Definition criterion_lines (crit : VerificationCriteria) : list (bool * string) :=
  [(toxicity crit, "- Toxicity: Check for toxic, hateful, harmful, or abusive content");
   (factuality crit, "- Factuality: Verify factual accuracy, check for misinformation");
   (coherence crit, "- Coherence: Check logical flow, consistency, and clarity");
   (relevance crit, "- Relevance: Check if content is relevant to the intended topic");
   (safety crit, "- Safety: Check for dangerous, illegal, or policy-violating content");
   (moderation crit, "- Moderation: Check for inappropriate, explicit, or offensive content");
   (bias crit, "- Bias: Check for political, racial, gender, or other biases")].

(** The provider answers every call. *)
Definition answers (sdk : Sdk) (this : LLMVerifier) : Prop :=
  forall prompt options retryCount,
  exists response, attempt sdk this prompt options retryCount = Normal response.

(** The first provider call of the verification of [input]. *)
Definition first_call (this : LLMVerifier) (options : VerificationOptions)
    (input : string) : ProviderCall :=
  {| call_prompt := buildVerificationPrompt input (criteria this) (context options);
     call_retry := 0 |}.

(** The characters other than an opening, and other than a closing, brace. *)
Definition not_open : ascii -> bool := fun c => negb (ch "{" c).
Definition not_close : ascii -> bool := fun c => negb (ch "}" c).

(** A text holds an opening brace and, somewhere behind it, a closing one. *)
Definition has_braces (text : string) : Prop :=
  exists pre body post, text = pre ++ "{" ++ body ++ "}" ++ post.

(** The characters other than the letter c, in either case. *)
Definition not_letter_c : ascii -> bool := fun c => negb (ich "c" c).



(** * Properties *)

(** ** Occurrence of a text in another *)

Lemma append_nil_l (s : string) : "" ++ s = s.
Proof. reflexivity. Qed.

Lemma append_cons (c : ascii) (a b : string) : String c a ++ b = String c (a ++ b).
Proof. reflexivity. Qed.

Lemma append_assoc (a b c : string) : (a ++ b) ++ c = a ++ (b ++ c).
Proof. induction a as [|x a IH]; [done | by rewrite !append_cons, IH]. Qed.

Lemma prefix_spec (a s : string) :
  String.prefix a s = true <-> exists post, s = a ++ post.
Proof.
  revert s. induction a as [|c a IH]; intros s.
  - split; [intros _; by exists s | by destruct s].
  - destruct s as [|d s]; cbn.
    + split; [done | intros [post H]; discriminate H].
    + destruct (Ascii.ascii_dec c d) as [->|Hne].
      * rewrite IH. split; intros [post H]; exists post.
        -- rewrite append_cons. congruence.
        -- rewrite append_cons in H. congruence.
      * split; [done | intros [post H]; rewrite append_cons in H; congruence].
Qed.

Lemma includes_unfold (s needle : string) :
  includes s needle
  = if String.prefix needle s then true
    else match s with
         | EmptyString => false
         | String _ s' => includes s' needle
         end.
Proof. by destruct s. Qed.

Lemma includes_spec (s needle : string) :
  includes s needle = true <-> occurs_in needle s.
Proof.
  split.
  - induction s as [|c s IH]; rewrite includes_unfold;
      destruct (String.prefix needle _) eqn:Hp; try done.
    + intros _. apply prefix_spec in Hp as [post Hp]. by exists "", post.
    + intros _. apply prefix_spec in Hp as [post Hp]. by exists "", post.
    + intros H. destruct (IH H) as (pre & post & ->). by exists (String c pre), post.
  - intros (pre & post & ->). induction pre as [|c pre IH]; rewrite includes_unfold.
    + replace (String.prefix needle _) with true; [done|].
      symmetry. apply prefix_spec. by exists post.
    + rewrite append_cons, IH. by destruct (String.prefix _ _).
Qed.

Lemma toLowerCase_app (a b : string) :
  toLowerCase (a ++ b) = toLowerCase a ++ toLowerCase b.
Proof. induction a as [|c a IH]; [done | by rewrite append_cons; cbn; rewrite IH]. Qed.

Lemma occurs_in_lower (needle s : string) :
  occurs_in needle s -> occurs_in (toLowerCase needle) (toLowerCase s).
Proof.
  intros (pre & post & ->). exists (toLowerCase pre), (toLowerCase post).
  by rewrite !toLowerCase_app.
Qed.

Lemma occurs_in_trans (a b s : string) :
  occurs_in a b -> occurs_in b s -> occurs_in a s.
Proof.
  intros (p1 & q1 & ->) (p2 & q2 & ->).
  exists (p2 ++ p1), (q1 ++ q2).
  by rewrite !append_assoc.
Qed.

Lemma existsb_includes (words : list string) (text : string) :
  existsb (fun w => includes text w) words = true <->
  exists w, w ∈ words /\ occurs_in w text.
Proof.
  rewrite existsb_exists. split.
  - intros (w & Hin & Hw). exists w. split; [by apply list_elem_of_In|].
    by apply includes_spec.
  - intros (w & Hin & Hw). exists w. split; [by apply list_elem_of_In|].
    by apply includes_spec.
Qed.

(** ** Numbers *)

Lemma Qle_bool_false (x y : Q) : Qle_bool x y = false -> (y < x)%Q.
Proof.
  intros H. apply Qnot_le_lt. intros Hle.
  apply Qle_bool_iff in Hle. congruence.
Qed.

(** The three rescaling branches of [normalizeScore] are never taken. *)
Lemma normalizeScore_clamp (score : number) :
  normalizeScore score
  = if js_le score 0 then 0 else if js_ge score 1 then 1 else score.
Proof.
  unfold normalizeScore.
  destruct (js_le score 0) eqn:H0; [done|].
  destruct (js_ge score 1) eqn:H1; [done|].
  assert (Hgt : forall k : Z, 1 <= k -> js_gt score k = false).
  { intros k Hk. destruct score as [| [] | q]; try done.
    unfold js_ge, js_gt, js_lt, num_of_Z in *.
    apply orb_false_iff in H1 as [H1 _]. apply negb_false_iff in H1.
    apply negb_false_iff. apply Qle_bool_iff. apply Qle_bool_iff in H1.
    eapply Qle_trans; [exact H1|]. unfold Qle; simpl. lia. }
  rewrite !Hgt by lia. reflexivity.
Qed.


(** On the unit interval [normalizeScore] changes nothing. *)
Lemma normalizeScore_id (q : Q) :
  (0 <= q)%Q -> (q <= 1)%Q ->
  exists q', normalizeScore (Num q) = Num q' /\ (q' == q)%Q.
Proof.
  intros Hlo Hhi. rewrite normalizeScore_clamp.
  destruct (js_le (Num q) 0) eqn:H0.
  - exists 0%Q. split; [done|].
    unfold js_le, js_lt, js_num_eq, num_of_Z in H0.
    apply orb_true_iff in H0 as [H0|H0].
    + apply negb_true_iff, Qle_bool_false in H0. exfalso.
      eapply Qlt_irrefl, Qle_lt_trans; [exact Hlo | exact H0].
    + apply Qeq_bool_iff in H0. by symmetry.
  - destruct (js_ge (Num q) 1) eqn:H1.
    + exists 1%Q. split; [done|].
      unfold js_ge, js_lt, js_num_eq, num_of_Z in H1.
      apply orb_true_iff in H1 as [H1|H1].
      * apply negb_true_iff, Qle_bool_false in H1. exfalso.
        eapply Qlt_irrefl, Qlt_le_trans; [exact H1 | exact Hhi].
      * apply Qeq_bool_iff in H1. by symmetry.
    + by exists q.
Qed.

(** C4. [normalizeScore] clamps its argument to the unit interval and never
    rescales it: the tests for the percentage, 0-10 and 0-5 scales stand behind
    the return for a score of 1 or more, so 85, 8 and 4 all give 1 (not 0.85,
    0.8 and 0.8), while 0.5, 0 and 1 are returned as they are. *)
Theorem normalizeScore_never_rescales :
  (forall score : number,
     normalizeScore score
     = if js_le score 0 then 0 else if js_ge score 1 then 1 else score)
  /\ normalizeScore 85 = 1
  /\ normalizeScore 8 = 1
  /\ normalizeScore 4 = 1
  /\ normalizeScore (Num (1 # 2)) = Num (1 # 2)
  /\ normalizeScore 0 = 0
  /\ normalizeScore 1 = 1.
Proof.
  split; [exact normalizeScore_clamp|].
  repeat split; rewrite normalizeScore_clamp; reflexivity.
Qed.

(** ** The retry classifier *)

Lemma is_network_code_spec (e : ErrorObject) :
  is_network_code (code e) = true <-> has_network_code e.
Proof.
  unfold is_network_code, has_network_code. destruct (code e) as [| | b | n | c].
  all: try (split; [done | by intros (c' & Hc & _)]).
  rewrite bool_decide_eq_true. split.
  - intros H. by exists c.
  - intros (c' & [= <-] & H). exact H.
Qed.

Lemma is_retryable_status_spec (e : ErrorObject) :
  is_retryable_status (status e) = true <-> has_retryable_status e.
Proof.
  unfold is_retryable_status, has_retryable_status. destruct (status e) as [| | b | n | c].
  all: try (split; [done | by intros (c' & Hc & _)]).
  rewrite bool_decide_eq_true. split.
  - intros H. by exists n.
  - intros (c' & [= <-] & H). exact H.
Qed.

Lemma retryable_status_truthy (e : ErrorObject) :
  has_retryable_status e -> has_status e.
Proof.
  intros (n & Hs & Hn). unfold has_status. rewrite Hs. simpl.
  apply negb_true_iff, Z.eqb_neq. intros ->.
  revert Hn. unfold retryableStatuses. rewrite !elem_of_cons, elem_of_nil. lia.
Qed.

Lemma phrases_spec (m : string) :
  includes m "rate limit" || includes m "too many requests" || includes m "quota exceeded"
  || (includes m "timeout" || includes m "timed out") = true
  <-> exists phrase, phrase ∈ retryPhrases /\ occurs_in phrase m.
Proof.
  rewrite !orb_true_iff, !includes_spec. unfold retryPhrases. split.
  - intros [[[H|H]|H]|[H|H]]; eexists; (split; [|exact H]);
      rewrite !elem_of_cons; tauto.
  - intros (phrase & Hin & H). revert Hin.
    rewrite !elem_of_cons, elem_of_nil.
    intros [->|[->|[->|[->|[->|[]]]]]]; tauto.
Qed.

(** The value [isRetryableError] returns when it returns. *)
Lemma isRetryableError_true (e : ErrorObject) :
  isRetryableError (ThrownValue e) = Normal true <->
  has_network_code e \/ has_retryable_status e \/ (~ has_status e /\ message_matches e).
Proof.
  unfold isRetryableError. rewrite <- is_network_code_spec.
  destruct (is_network_code (code e)) eqn:Hc; [split; [by left | done]|].
  pose proof (is_retryable_status_spec e) as Hs.
  pose proof (retryable_status_truthy e) as Ht.
  unfold has_status in *. destruct (prim_truthy (status e)) eqn:Hp.
  - split.
    + intros [= H]. right; left. by apply Hs.
    + intros [H|[H|[H _]]]; [done | | done]. f_equal. by apply Hs.
  - pose proof (phrases_spec) as Hph. unfold message_matches.
    destruct (message e) as [| | b | n | m] eqn:Hm.
    1-4: split; [done|];
      intros [H|[H|[_ (m' & phrase & H & _)]]]; [done | by specialize (Ht H) | done].
    specialize (Hph m).
    destruct (includes m "rate limit" || includes m "too many requests"
              || includes m "quota exceeded") eqn:H1; simpl in Hph.
    + split; [intros _ | done]. right; right. split; [done|].
      destruct Hph as [Hph _]. destruct (Hph eq_refl) as (phrase & Hin & Hocc).
      by exists m, phrase.
    + destruct (includes m "timeout" || includes m "timed out") eqn:H2.
      * split; [intros _ | done]. right; right. split; [done|].
        destruct Hph as [Hph _]. destruct (Hph eq_refl) as (phrase & Hin & Hocc).
        by exists m, phrase.
      * split; [done|].
        intros [H|[H|[_ (m' & phrase & [= <-] & Hin & Hocc)]]];
          [done | by specialize (Ht H) |].
        destruct Hph as [_ Hph]. discriminate Hph. by exists phrase.
Qed.

(** [isRetryableError] returns a boolean unless the message is a boolean or a
    number and neither the code nor the status settles the question. *)
Lemma isRetryableError_returns (error : Thrown) :
  match error with
  | ThrownValue e => message_is_text e \/ has_network_code e \/ has_status e
  | _ => True
  end ->
  exists b, isRetryableError error = Normal b.
Proof.
  destruct error as [| | e]; [by exists false | by exists false |].
  unfold isRetryableError, message_is_text, has_status.
  rewrite <- is_network_code_spec.
  destruct (is_network_code (code e)); [by eexists|].
  destruct (prim_truthy (status e)); [by eexists|].
  destruct (message e); intros H.
  1, 2: by eexists.
  1, 2: by destruct H as [[]|[|]].
  repeat case_match; by eexists.
Qed.

Lemma isRetryableError_has_status (e : ErrorObject) :
  is_network_code (code e) = false -> has_status e ->
  isRetryableError (ThrownValue e) = Normal (is_retryable_status (status e)).
Proof.
  unfold isRetryableError, has_status. by intros -> ->.
Qed.

(** C6, counterexample. An error of status 403 whose message contains
    the phrase rate limit is not retryable: the status decides. *)
Lemma isRetryableError_403_rate_limit :
  isRetryableError
    (ThrownValue {| constructor_name := "APIError"; code := PUndefined;
                    status := PNum 403; message := PStr "rate limit exceeded" |})
  = Normal false.
Proof. unfold isRetryableError. simpl. reflexivity. Qed.

(** C6, amended. For every error value whose message is a string or is
    absent [isRetryableError] returns a boolean, and it is [true] exactly when
    the error carries a transport error code, or a status among 408, 429, 500,
    502, 503 and 504, or carries no status and has a message that contains one
    of the phrases rate limit, too many requests, quota exceeded, timeout and
    timed out. A status decides alone: an error of status 400, 401, 403 or 404
    and no transport code is not retryable whatever its message says. [null]
    and [undefined] are not retryable. *)
Theorem isRetryableError_classification (e : ErrorObject) :
  message_is_text e ->
  (exists b, isRetryableError (ThrownValue e) = Normal b)
  /\ (isRetryableError (ThrownValue e) = Normal true <->
      has_network_code e \/ has_retryable_status e
      \/ (~ has_status e /\ message_matches e))
  /\ (forall n, n ∈ [400; 401; 403; 404] -> status e = PNum n -> ~ has_network_code e ->
      isRetryableError (ThrownValue e) = Normal false)
  /\ isRetryableError ThrownNull = Normal false
  /\ isRetryableError ThrownUndefined = Normal false.
Proof.
  intros Hm. split; [|split; [|split]].
  - apply (isRetryableError_returns (ThrownValue e)). by left.
  - apply isRetryableError_true.
  - intros n Hn Hs Hc. rewrite isRetryableError_has_status.
    + rewrite Hs. simpl. f_equal. apply bool_decide_eq_false.
      revert Hn. unfold retryableStatuses. rewrite !elem_of_cons, !elem_of_nil. lia.
    + apply not_true_is_false. by rewrite is_network_code_spec.
    + unfold has_status. rewrite Hs. simpl. apply negb_true_iff, Z.eqb_neq.
      revert Hn. rewrite !elem_of_cons, !elem_of_nil. lia.
  - done.
Qed.

(** The classification at an error of status 403 and message rate limit
    exceeded. *)
Lemma isRetryableError_classification_witness :
  isRetryableError
    (ThrownValue {| constructor_name := "APIError"; code := PUndefined;
                    status := PNum 403; message := PStr "rate limit exceeded" |})
  = Normal false.
Proof.
  refine (proj1 (proj2 (proj2 (isRetryableError_classification
            {| constructor_name := "APIError"; code := PUndefined;
               status := PNum 403; message := PStr "rate limit exceeded" |} _)))
          403 _ _ _).
  - exact I.
  - rewrite !elem_of_cons. tauto.
  - reflexivity.
  - intros (c & Hc & _). discriminate Hc.
Defined.

Lemma isRetryableError_number_message :
  isRetryableError
    (ThrownValue {| constructor_name := "Object"; code := PUndefined;
                    status := PUndefined; message := PNum 42 |})
  = Throw (TypeError "error.message?.includes is not a function").
Proof. reflexivity. Qed.

(** ** The constructor *)

Lemma initializeProvider_unsupported (env : Env) (p : string) :
  p ∉ supportedProviders -> p <> "" -> object_prototype_member p = None ->
  initializeProvider env (Some p) = Config (openai_config env).
Proof.
  intros Hp Hne Hm. unfold initializeProvider, supportedProviders in *.
  assert (or_string (Some p) (or_string (AI_PROVIDER env) "openai") = p) as ->
    by by destruct p.
  rewrite !elem_of_cons, elem_of_nil in Hp.
  repeat case_bool_decide; try tauto. by rewrite Hm.
Qed.

(** Whatever the name was, the instance the constructor returns holds one of
    the three entries of the table, under its own name. *)
Lemma LLMVerifier_new_provider (env : Env) (options : ConstructorOptions) (v : LLMVerifier) :
  LLMVerifier_new env options = Normal v ->
  exists c, providerConfig v = Config c /\ name c ∈ supportedProviders
            /\ c ∈ [openai_config env; gemini_config env; anthropic_config env].
Proof.
  unfold LLMVerifier_new, initializeProvider.
  set (providerName := or_string _ _).
  repeat case_bool_decide; simpl.
  1-3: intros [= <-]; eexists; split; [done|]; split;
       (unfold supportedProviders; rewrite !elem_of_cons; simpl; tauto).
  destruct (object_prototype_member providerName); simpl; [done|].
  intros [= <-]. eexists. split; [done|]. split;
    (unfold supportedProviders; rewrite !elem_of_cons; simpl; tauto).
Qed.

(** The constructor raises exactly for the names of the members that an
    object literal inherits. *)
Lemma LLMVerifier_new_throws (env : Env) (options : ConstructorOptions) :
  (exists t, LLMVerifier_new env options = Throw t) <->
  is_Some (object_prototype_member
             (or_string (o_provider options) (or_string (AI_PROVIDER env) "openai"))).
Proof.
  unfold LLMVerifier_new, initializeProvider.
  generalize (or_string (o_provider options) (or_string (AI_PROVIDER env) "openai")).
  intros providerName.
  repeat case_bool_decide; simpl; subst.
  1-3: split; [by intros [t Ht] | by intros [m Hm]; vm_compute in Hm].
  destruct (object_prototype_member providerName); simpl.
  - split; [done | by eexists].
  - split; [by intros [t Ht] | by intros [m Hm]].
Qed.

(** C3. A provider name that is none of openai, gemini and anthropic does not
    make the constructor fail: [initializeProvider] falls back to the OpenAI
    entry, so for huggingface and for ollama the constructor returns an
    instance that holds the OpenAI configuration and an OpenAI client. The
    rejection in the default case of [initializeClient] is reached only for
    the names of inherited members, such as toString. *)
Theorem unsupported_provider_uses_openai (env : Env) (options : ConstructorOptions) :
  (forall p, p ∈ ["huggingface"; "ollama"] ->
     exists v, LLMVerifier_new env (with_provider options p) = Normal v
               /\ providerConfig v = Config (openai_config env)
               /\ client v = OpenAI (OPENAI_API_KEY env)
                                    (or_string (OPENAI_BASE_URL env) "https://api.openai.com/v1"))
  /\ LLMVerifier_new env (with_provider options "toString")
     = Throw (Error "Unsupported provider: toString").
Proof.
  split; [|reflexivity].
  intros p Hp. unfold LLMVerifier_new.
  change (o_provider (with_provider options p)) with (Some p).
  rewrite (initializeProvider_unsupported env p).
  - simpl. eexists. split; [reflexivity|]. by split.
  - revert Hp. unfold supportedProviders. rewrite !elem_of_cons, !elem_of_nil.
    intros [->|[->|[]]]; intros [H|[H|[H|[]]]]; discriminate H.
  - revert Hp. rewrite !elem_of_cons, !elem_of_nil. intros [->|[->|[]]]; discriminate.
  - revert Hp. rewrite !elem_of_cons, !elem_of_nil. intros [->|[->|[]]]; reflexivity.
Qed.

(** ** Provider calls and retries *)

Section Calls.

Variable sdk : Sdk.
Variable this : LLMVerifier.

Lemma call_provider_spec (prompt : string) (options : VerificationOptions) (retryCount : Z) :
  supported this ->
  exists dt, forall w,
    call_provider sdk this prompt options retryCount w
    = (called prompt retryCount dt w, attempt sdk this prompt options retryCount).
Proof.
  intros (p & Hp & Hin). unfold attempt, call_provider. rewrite Hp.
  unfold supportedProviders in Hin. rewrite !elem_of_cons, elem_of_nil in Hin.
  destruct Hin as [->|[->|[->|[]]]].
  - by eexists.
  - exists (elapsed (generateContent sdk prompt options retryCount)). intros w.
    unfold bind, await, ret; simpl.
    by destruct (outcome (generateContent sdk prompt options retryCount)).
  - by eexists.
Qed.

(** The equation of the source. *)
Lemma callLLMWithRetry_unfold (prompt : string) (options : VerificationOptions)
    (retryCount : Z) :
  callLLMWithRetry sdk this prompt options retryCount
  = try_catch (call_provider sdk this prompt options retryCount)
      (fun error =>
         if match maxRetries this with
            | Some m => retryCount <? m
            | None => false
            end
         then bind (lift (isRetryableError error))
                (fun again : bool =>
                   if again
                   then bind (sleep (2 ^ retryCount * 1000))
                          (fun _ => callLLMWithRetry sdk this prompt options (retryCount + 1))
                   else throw error)
         else throw error).
Proof.
  unfold callLLMWithRetry, retries_left.
  destruct (maxRetries this) as [m|]; [|done].
  destruct (Z.ltb_spec retryCount m) as [Hlt|Hge].
  - replace (Z.to_nat (m - retryCount)) with (S (Z.to_nat (m - (retryCount + 1)))) by lia.
    reflexivity.
  - replace (Z.to_nat (m - retryCount)) with O by lia. reflexivity.
Qed.

Lemma retry_loop_spec (prompt : string) (options : VerificationOptions) :
  supported this ->
  forall (left : nat) (retryCount : Z) (w : World),
  exists (n : nat) (w' : World) (r : Completion LLMResponse),
    retry_loop sdk this left prompt options retryCount w = (w', r)
    /\ (n <= left)%nat
    /\ calls w' = (calls w ++ calls_from prompt retryCount (S n))%list
    /\ sleeps w' = (sleeps w ++ backoff_from retryCount n)%list
    /\ (forall i : nat, (i < n)%nat ->
          exists e, attempt sdk this prompt options (retryCount + Z.of_nat i) = Throw e
                    /\ isRetryableError e = Normal true)
    /\ ends_with sdk this prompt options (retryCount + Z.of_nat n) (bool_decide (n = left)) r.
Proof.
  intros Hs left. induction left as [|left IH]; intros retryCount w.
  - destruct (call_provider_spec prompt options retryCount Hs) as [dt Hcall].
    exists O. unfold retry_loop, try_catch. rewrite Hcall.
    unfold ends_with. rewrite Z.add_0_r. rewrite bool_decide_eq_true_2 by done.
    destruct (attempt sdk this prompt options retryCount) as [response|e];
      do 2 eexists; (split; [reflexivity|]); simpl;
      (split; [lia|]); (split; [done|]); (split; [by rewrite app_nil_r|]);
      (split; [lia | done]).
  - destruct (call_provider_spec prompt options retryCount Hs) as [dt Hcall].
    simpl. unfold try_catch at 1. rewrite Hcall.
    destruct (attempt sdk this prompt options retryCount) as [response|e] eqn:Ha.
    { exists O. do 2 eexists. split; [reflexivity|]. simpl.
      split; [lia|]. split; [done|]. split; [by rewrite app_nil_r|].
      split; [lia|]. unfold ends_with. rewrite Z.add_0_r, Ha. done. }
    unfold bind at 1, lift.
    destruct (isRetryableError e) as [[|]|t] eqn:Hr.
    + unfold bind at 1. simpl.
      destruct (IH (retryCount + 1)
                  {| clock := clock (called prompt retryCount dt w) + 2 ^ retryCount * 1000;
                     calls := calls (called prompt retryCount dt w);
                     sleeps := sleeps (called prompt retryCount dt w)
                               ++ [2 ^ retryCount * 1000] |})
        as (n & w' & r & Hrun & Hn & Hcalls & Hsleeps & Hretry & Hend).
      exists (S n), w', r. split; [exact Hrun|]. split; [lia|].
      split; [|split; [|split]].
      * rewrite Hcalls. simpl. rewrite <- app_assoc. f_equal.
        unfold calls_from. rewrite (seqZ_cons retryCount) by lia. simpl.
        do 3 f_equal; lia.
      * rewrite Hsleeps. simpl. rewrite <- app_assoc. f_equal.
        unfold backoff_from. destruct n as [|n]; [done|].
        rewrite (seqZ_cons retryCount) by lia. simpl. do 3 f_equal; lia.
      * intros [|i] Hi.
        -- exists e. by rewrite Z.add_0_r.
        -- destruct (Hretry i ltac:(lia)) as (e' & He' & Hr').
           exists e'. split; [|done]. rewrite <- He'. f_equal. lia.
      * replace (retryCount + Z.of_nat (S n)) with (retryCount + 1 + Z.of_nat n) by lia.
        destruct (decide (n = left)) as [->|Hne].
        -- by rewrite !bool_decide_eq_true_2 in * by done.
        -- rewrite bool_decide_eq_false_2 in Hend by done.
           by rewrite bool_decide_eq_false_2 by lia.
    + exists O. do 2 eexists. split; [reflexivity|]. simpl.
      split; [lia|]. split; [done|]. split; [by rewrite app_nil_r|].
      split; [lia|]. unfold ends_with. by rewrite Z.add_0_r, Ha, Hr.
    + exists O. do 2 eexists. split; [reflexivity|]. simpl.
      split; [lia|]. split; [done|]. split; [by rewrite app_nil_r|].
      split; [lia|]. unfold ends_with. by rewrite Z.add_0_r, Ha, Hr.
Qed.

End Calls.

(** ** Terminal failures *)

Lemma append_nil_r (s : string) : s ++ "" = s.
Proof. induction s as [|c s IH]; [done | by rewrite append_cons, IH]. Qed.

Lemma occurs_in_end (pre m : string) : occurs_in m (pre ++ m).
Proof. exists pre, "". by rewrite append_nil_r. Qed.

Lemma handleVerificationError_message (this : LLMVerifier) (e : ErrorObject) (m : string)
    (input : string) (options : VerificationOptions) :
  message e = PStr m ->
  exists r, handleVerificationError this (ThrownValue e) input options = Normal r
            /\ DoneError m r.
Proof.
  intros Hm. unfold handleVerificationError.
  destruct (isRetryableError_returns (ThrownValue e)) as [b ->].
  { left. unfold message_is_text. by rewrite Hm. }
  eexists. split; [reflexivity|]. unfold DoneError; simpl. rewrite Hm; simpl.
  repeat split; try done.
  exists ("Verification failed: " ++ m). split; [done | apply occurs_in_end].
Qed.

Lemma verify_on_throw (sdk : Sdk) (this : LLMVerifier) (input : string)
    (options : VerificationOptions) (w w' : World) (t : Thrown) :
  callLLMWithRetry sdk this
    (buildVerificationPrompt input (criteria this) (context options)) options 0 w
  = (w', Throw t) ->
  verify sdk this input options w = (w', handleVerificationError this t input options).
Proof.
  intros H. unfold verify, try_catch, bind, Date_now. by rewrite H.
Qed.

(** C1. When the provider call, retries included, ends with a thrown error
    that carries a message, [verify] raises nothing: it returns a result that
    is invalid, has confidence 0, a reason that contains the message, the
    message in its [error] field and metrics of zero latency, tokens and
    cost. *)
Theorem verify_provider_failure (sdk : Sdk) (this : LLMVerifier) (input : string)
    (options : VerificationOptions) (w w' : World) (e : ErrorObject) (m : string) :
  callLLMWithRetry sdk this
    (buildVerificationPrompt input (criteria this) (context options)) options 0 w
  = (w', Throw (ThrownValue e)) ->
  message e = PStr m ->
  exists r, verify sdk this input options w = (w', Normal r) /\ DoneError m r.
Proof.
  intros Hcall Hm. rewrite (verify_on_throw _ _ _ _ _ _ _ Hcall).
  destruct (handleVerificationError_message this e m input options Hm) as (r & -> & Hr).
  by exists r.
Qed.

(** ** The retry loop *)

Lemma http_error_retryable (e : ErrorObject) (s : Z) :
  status e = PNum s -> ~ has_network_code e -> s <> 0 ->
  isRetryableError (ThrownValue e) = Normal (bool_decide (s ∈ retryableStatuses)).
Proof.
  intros Hs Hc Hz. rewrite isRetryableError_has_status.
  - by rewrite Hs.
  - apply not_true_is_false. by rewrite is_network_code_spec.
  - unfold has_status. rewrite Hs. simpl. by apply negb_true_iff, Z.eqb_neq.
Qed.

Lemma sample_verifier_constructed :
  LLMVerifier_new sample_env no_constructor_options = Normal sample_verifier.
Proof. reflexivity. Qed.

Lemma sample_verifier_supported : supported sample_verifier.
Proof. exists "openai". split; [reflexivity|]. unfold supportedProviders. rewrite elem_of_cons; by left. Qed.

Lemma failing_sdk_always_fails (s : Z) (m : string) :
  always_fails_with (failing_sdk s m) sample_verifier s.
Proof.
  intros prompt options retryCount. exists (http_error s m), m.
  split; [reflexivity|]. split; [reflexivity|]. split; [|reflexivity].
  intros (c & Hc & _). discriminate Hc.
Qed.

(** C5. With [maxRetries] a natural number, the retry loop makes one first
    call and then [n] retries, [n] at most [maxRetries]; each retry follows a
    failure that [isRetryableError] accepts and a pause of 1000 ms times 2 to
    the number of the retry (1 s, 2 s, 4 s, ...). With [maxRetries] 3, a
    provider that always fails with status 500 is called 4 times, with pauses
    of 1, 2 and 4 seconds, and one that fails with status 401 is called once;
    either way [verify] returns the result of a failure. *)
Theorem callLLMWithRetry_attempts (sdk : Sdk) (this : LLMVerifier) (input : string)
    (options : VerificationOptions) (w : World) (m : Z) :
  supported this -> maxRetries this = Some m -> 0 <= m ->
  let prompt := buildVerificationPrompt input (criteria this) (context options) in
  exists (n : nat) (w' : World) (r : Completion LLMResponse),
    callLLMWithRetry sdk this prompt options 0 w = (w', r)
    /\ Z.of_nat n <= m
    /\ calls w' = (calls w ++ calls_from prompt 0 (S n))%list
    /\ sleeps w' = (sleeps w ++ backoff_from 0 n)%list
    /\ (forall i : nat, (i < n)%nat ->
          exists e, attempt sdk this prompt options (Z.of_nat i) = Throw e
                    /\ isRetryableError e = Normal true)
    /\ ends_with sdk this prompt options (Z.of_nat n) (bool_decide (Z.of_nat n = m)) r
    /\ (m = 3 -> always_fails_with sdk this 500 ->
        n = 3%nat /\ sleeps w' = (sleeps w ++ [1000; 2000; 4000])%list
        /\ exists msg res, verify sdk this input options w = (w', Normal res)
                           /\ DoneError msg res)
    /\ (always_fails_with sdk this 401 ->
        n = 0%nat /\ sleeps w' = sleeps w
        /\ exists msg res, verify sdk this input options w = (w', Normal res)
                           /\ DoneError msg res).
Proof.
  intros Hs Hm Hm0 prompt.
  destruct (retry_loop_spec sdk this prompt options Hs (Z.to_nat m) 0 w)
    as (n & w' & r & Hrun & Hn & Hcalls & Hsleeps & Hretry & Hend).
  assert (Hrun' : callLLMWithRetry sdk this prompt options 0 w = (w', r)).
  { unfold callLLMWithRetry, retries_left. rewrite Hm.
    by replace (m - 0) with m by lia. }
  exists n, w', r. split; [exact Hrun'|]. split; [lia|]. split; [exact Hcalls|].
  split; [exact Hsleeps|]. split; [exact Hretry|]. simpl in Hend.
  assert (Hend' : ends_with sdk this prompt options (Z.of_nat n) (bool_decide (Z.of_nat n = m)) r).
  { destruct (decide (n = Z.to_nat m)) as [->|Hne].
    - rewrite bool_decide_eq_true_2 in Hend by done. by rewrite bool_decide_eq_true_2 by lia.
    - rewrite bool_decide_eq_false_2 in Hend by done. by rewrite bool_decide_eq_false_2 by lia. }
  split; [exact Hend'|]. split.
  - intros -> Hfail.
    destruct (Hfail prompt options (Z.of_nat n)) as (e & msg & Ha & Hst & Hc & Hmsg).
    assert (Hre : isRetryableError (ThrownValue e) = Normal true)
      by by rewrite (http_error_retryable e 500).
    unfold ends_with in Hend'. rewrite Ha, Hre in Hend'.
    destruct (decide (Z.of_nat n = 3)) as [Hn3|Hn3].
    + rewrite bool_decide_eq_true_2 in Hend' by done. subst r.
      assert (n = 3%nat) as -> by lia. split; [done|]. split; [exact Hsleeps|].
      exists msg. rewrite (verify_on_throw sdk this input options w w' _ Hrun').
      destruct (handleVerificationError_message this e msg input options Hmsg)
        as (res & -> & Hres).
      by exists res.
    + rewrite bool_decide_eq_false_2 in Hend' by done. by destruct Hend'.
  - intros Hfail. assert (n = 0%nat) as ->.
    { destruct n as [|n]; [done|]. destruct (Hretry 0%nat ltac:(lia)) as (e' & Ha' & Hr').
      destruct (Hfail prompt options 0) as (e & msg & Ha & Hst & Hc & Hmsg).
      change (attempt sdk this prompt options 0 = Throw e') in Ha'.
      rewrite Ha in Ha'. injection Ha' as <-.
      by rewrite (http_error_retryable e 401) in Hr'. }
    split; [done|]. split; [by rewrite Hsleeps, app_nil_r|].
    destruct (Hfail prompt options 0) as (e & msg & Ha & Hst & Hc & Hmsg).
    unfold ends_with in Hend'. change (Z.of_nat 0) with 0 in Hend'. rewrite Ha in Hend'.
    rewrite (http_error_retryable e 401) in Hend' by done.
    assert (r = Throw (ThrownValue e)) as ->.
    { destruct (bool_decide (0 = m)); [done | by destruct Hend']. }
    exists msg. rewrite (verify_on_throw sdk this input options w w' _ Hrun').
    destruct (handleVerificationError_message this e msg input options Hmsg)
      as (res & -> & Hres).
    by exists res.
Qed.

(** With the sample instance, whose [maxRetries] is 3, a client that always
    answers 500 is called four times. *)
Lemma callLLMWithRetry_attempts_witness :
  exists w' res,
    verify (failing_sdk 500 "Internal Server Error") sample_verifier "hello" no_options fresh_world
    = (w', Normal res)
    /\ length (calls w') = 4%nat /\ sleeps w' = [1000; 2000; 4000].
Proof.
  destruct (callLLMWithRetry_attempts (failing_sdk 500 "Internal Server Error")
              sample_verifier "hello" no_options fresh_world 3
              sample_verifier_supported eq_refl ltac:(lia))
    as (n & w' & r & _ & _ & Hcalls & _ & _ & _ & H500 & _).
  destruct (H500 eq_refl (failing_sdk_always_fails 500 "Internal Server Error"))
    as (-> & Hsleeps & msg & res & Hv & _).
  exists w', res. split; [exact Hv|]. split; [|exact Hsleeps].
  rewrite Hcalls. reflexivity.
Defined.

(** With the sample instance, a rejected key ends [verify] with the result of
    a failure. *)
Lemma verify_provider_failure_witness :
  exists r, verify (failing_sdk 401 "Incorrect API key provided") sample_verifier "hello"
              no_options fresh_world
            = ({| clock := 10;
                  calls := [{| call_prompt := buildVerificationPrompt "hello"
                                                (criteria sample_verifier) None;
                               call_retry := 0 |}];
                  sleeps := [] |}, Normal r)
            /\ DoneError "Incorrect API key provided" r.
Proof.
  apply (verify_provider_failure (failing_sdk 401 "Incorrect API key provided")
           sample_verifier "hello" no_options fresh_world _
           (http_error 401 "Incorrect API key provided")).
  - reflexivity.
  - reflexivity.
Defined.

(** ** Batches *)

Section Batches.

Variable sdk : Sdk.
Variable this : LLMVerifier.

Lemma isRetryableError_throws (error t : Thrown) :
  isRetryableError error = Throw t ->
  t = TypeError "error.message?.includes is not a function".
Proof.
  destruct error as [| | e]; simpl; [done | done |].
  repeat case_match; try done. all: by intros [= <-].
Qed.

(** What [handleVerificationError] raises is a [TypeError]. *)
Lemma handleVerificationError_throws (error t : Thrown) (input : string)
    (options : VerificationOptions) :
  handleVerificationError this error input options = Throw t ->
  exists m, t = TypeError m.
Proof.
  destruct error as [| | e]; unfold handleVerificationError.
  - intros [= <-]. by eexists.
  - intros [= <-]. by eexists.
  - destruct (isRetryableError (ThrownValue e)) as [b|t'] eqn:Hr; [done|].
    intros [= <-]. apply isRetryableError_throws in Hr. by eexists.
Qed.

Lemma verify_throws (input : string) (options : VerificationOptions) (w w' : World)
    (t : Thrown) :
  verify sdk this input options w = (w', Throw t) -> exists m, t = TypeError m.
Proof.
  unfold verify, try_catch.
  destruct (bind Date_now _ w) as [w1 [r|t1]]; [done|].
  unfold lift. intros [= _ H]. by apply handleVerificationError_throws in H.
Qed.

(** An item of a batch never raises. *)
Lemma verify_item_returns (total : Z) (options : VerificationOptions) (position : Z)
    (input : string) (w : World) :
  exists w' r, verify_item sdk this total options position input w = (w', Normal r)
               /\ slot_filled sdk this total options position input r.
Proof.
  unfold slot_filled, verify_item, try_catch.
  destruct (verify sdk this input _ w) as [w' [r|t]] eqn:Hv.
  - exists w', r. split; [done|]. exists w, w'. rewrite Hv. split; [done | by left].
  - destruct (verify_throws _ _ _ _ _ Hv) as [m ->].
    destruct (handleVerificationError_message this
                {| constructor_name := "TypeError"; code := PUndefined;
                   status := PUndefined; message := PStr m |} m input options eq_refl)
      as (r & Hr & Hd).
    unfold lift. unfold TypeError. rewrite Hr.
    exists w', r. split; [done|]. exists w, w'. rewrite Hv. unfold TypeError. rewrite Hr.
    split; [done|]. right. by exists (TypeError m), m.
Qed.

Lemma slots_filled_app (total : Z) (options : VerificationOptions) (first : Z)
    (items1 items2 : list string) (rs1 rs2 : list VerificationResult) :
  slots_filled sdk this total options first items1 rs1 ->
  slots_filled sdk this total options (first + Z.of_nat (length items1)) items2 rs2 ->
  slots_filled sdk this total options first (items1 ++ items2)%list (rs1 ++ rs2)%list.
Proof.
  intros [Hl1 H1] [Hl2 H2]. split; [rewrite !length_app; lia|].
  intros k input Hk. destruct (decide (k < length items1)%nat) as [Hlt|Hge].
  - rewrite lookup_app_l in Hk by done. rewrite lookup_app_l by lia. by apply H1.
  - rewrite lookup_app_r in Hk by lia. rewrite lookup_app_r by lia.
    destruct (H2 _ _ Hk) as (r & Hr & Hs). exists r. rewrite Hl1. split; [done|].
    by replace (first + Z.of_nat k)
      with (first + Z.of_nat (length items1) + Z.of_nat (k - length items1)) by lia.
Qed.

Lemma verify_chunk_spec (total : Z) (options : VerificationOptions) (i : Z)
    (batch : list string) :
  forall (index : Z) (w : World),
  exists w' rs, verify_chunk sdk this total options i batch index w = (w', Normal rs)
                /\ slots_filled sdk this total options (i + index) batch rs.
Proof.
  induction batch as [|input batch IH]; intros index w.
  - exists w, []. split; [done|]. split; [done|]. intros k input Hk. by destruct k.
  - simpl. unfold bind at 1.
    destruct (verify_item_returns total options (i + index) input w) as (w1 & r & -> & Hr).
    unfold bind at 1. destruct (IH (index + 1) w1) as (w2 & rs & -> & Hl & Hrs).
    exists w2, (r :: rs). split; [done|]. split; [simpl; lia|].
    intros [|k] input' Hk; simpl in Hk.
    + injection Hk as <-. exists r. split; [done|]. by rewrite Z.add_0_r.
    + destruct (Hrs k input' Hk) as (r' & Hr' & Hs'). exists r'. split; [done|].
      by replace (i + index + Z.of_nat (S k)) with (i + (index + 1) + Z.of_nat k) by lia.
Qed.

Lemma slice_chunk {A : Type} (l : list A) (i size : Z) :
  0 <= i -> 0 < size ->
  slice l i (i + size) = take (Z.to_nat size) (drop (Z.to_nat i) l).
Proof.
  intros Hi Hsz. unfold slice.
  destruct (Z.ltb_spec i 0) as [?|_]; [lia|].
  destruct (Z.ltb_spec (i + size) 0) as [?|_]; [lia|].
  destruct (decide (Z.of_nat (length l) <= i)) as [Hout|Hin].
  - rewrite !Z.min_r by lia. rewrite !drop_ge by lia. by rewrite !take_nil.
  - rewrite (Z.min_l i) by lia.
    destruct (decide (i + size <= Z.of_nat (length l))) as [Hfit|Hover].
    + rewrite Z.min_l by lia. f_equal. lia.
    + rewrite Z.min_r by lia. rewrite !take_ge; [done | |]; rewrite length_drop; lia.
Qed.

Lemma batch_loop_step (fuel : nat) (inputs : list string) (options : VerificationOptions)
    (size i : Z) (results : list VerificationResult) (w : World) :
  batch_loop sdk this (S fuel) inputs options size i results w
  = if i <? Z.of_nat (length inputs) then
      match verify_chunk sdk this (Z.of_nat (length inputs)) options i
              (slice inputs i (i + size)) 0 w with
      | (w', Throw t) => Some (w', Throw t)
      | (w', Normal batchResults) =>
          batch_loop sdk this fuel inputs options size (i + size)
            (results ++ batchResults)
            (if i + size <? Z.of_nat (length inputs) then fst (sleep 1000 w') else w')
      end
    else Some (w, Normal results).
Proof. reflexivity. Qed.

(** The loop of [verifyBatch] with a positive size: enough fuel takes it to
    the end, and the results it adds fill the slots of the inputs from [i]
    on. *)
Lemma batch_loop_spec (inputs : list string) (options : VerificationOptions) (size : Z) :
  0 < size ->
  forall (fuel : nat) (i : Z) (results : list VerificationResult) (w : World),
    0 <= i -> Z.of_nat (length inputs) - i <= Z.of_nat fuel * size ->
    exists w' rs,
      batch_loop sdk this fuel inputs options size i results w
      = Some (w', Normal (results ++ rs)%list)
      /\ slots_filled sdk this (Z.of_nat (length inputs)) options i (drop (Z.to_nat i) inputs) rs.
Proof.
  intros Hsz fuel. induction fuel as [|fuel IH]; intros i results w Hi Hfuel.
  - exists w, []. unfold batch_loop.
    destruct (Z.ltb_spec i (Z.of_nat (length inputs))) as [?|Hge]; [lia|].
    rewrite app_nil_r. split; [done|]. rewrite drop_ge by lia.
    split; [done|]. intros k input Hk. by destruct k.
  - rewrite batch_loop_step. destruct (Z.ltb_spec i (Z.of_nat (length inputs))) as [Hlt|Hge].
    + rewrite slice_chunk by done.
      set (rest := drop (Z.to_nat i) inputs).
      destruct (verify_chunk_spec (Z.of_nat (length inputs)) options i
                  (take (Z.to_nat size) rest) 0 w) as (w1 & rs1 & -> & Hs1).
      rewrite Z.add_0_r in Hs1.
      set (w2 := if i + size <? Z.of_nat (length inputs) then fst (sleep 1000 w1) else w1).
      destruct (IH (i + size) (results ++ rs1)%list w2 ltac:(lia) ltac:(nia))
        as (w' & rs2 & -> & Hs2).
      exists w', (rs1 ++ rs2)%list. split; [by rewrite app_assoc|].
      rewrite <- (take_drop (Z.to_nat size) rest).
      apply slots_filled_app; [exact Hs1|].
      unfold rest. rewrite drop_drop.
      replace (Z.to_nat i + Z.to_nat size)%nat with (Z.to_nat (i + size)) by lia.
      destruct (decide (i + size <= Z.of_nat (length inputs))) as [Hfit|Hover].
      * rewrite length_take, length_drop.
        by replace (i + Z.of_nat (Z.to_nat size `min` (length inputs - Z.to_nat i)))
          with (i + size) by lia.
      * rewrite (drop_ge inputs (Z.to_nat (i + size))) in Hs2 |- * by lia.
        destruct Hs2 as [Hl2 _].
        split; [done|]. intros k input Hk. by destruct k.
    + exists w, []. rewrite app_nil_r. split; [done|]. rewrite drop_ge by lia.
      split; [done|]. intros k input Hk. by destruct k.
Qed.

End Batches.

Lemma batch_loop_more_fuel (sdk : Sdk) (this : LLMVerifier) (inputs : list string)
    (options : VerificationOptions) (size : Z) (fuel : nat) :
  forall (fuel' : nat) (i : Z) (results : list VerificationResult) (w : World) out,
    (fuel <= fuel')%nat ->
    batch_loop sdk this fuel inputs options size i results w = Some out ->
    batch_loop sdk this fuel' inputs options size i results w = Some out.
Proof.
  induction fuel as [|fuel IH]; intros fuel' i results w out Hle.
  - unfold batch_loop at 1.
    destruct (i <? Z.of_nat (length inputs)) eqn:Hi; [done|].
    intros [= <-]. destruct fuel'; [unfold batch_loop | rewrite batch_loop_step]; by rewrite Hi.
  - destruct fuel' as [|fuel']; [lia|]. rewrite !batch_loop_step.
    destruct (i <? Z.of_nat (length inputs)); [|done].
    destruct (verify_chunk _ _ _ _ _ _ _ _) as [w1 [rs|t]]; [|done].
    apply IH. lia.
Qed.

Lemma batch_loop_negative_size (sdk : Sdk) (this : LLMVerifier) (fuel : nat) :
  forall (i : Z) (results : list VerificationResult) (w : World),
    i <= 0 ->
    batch_loop sdk this fuel ["a"] (batch_options (-1)) (-1) i results w = None.
Proof.
  induction fuel as [|fuel IH]; intros i results w Hi.
  - unfold batch_loop. by destruct (Z.ltb_spec i (Z.of_nat (length ["a"]))); [|simpl in *; lia].
  - rewrite batch_loop_step.
    destruct (Z.ltb_spec i (Z.of_nat (length ["a"]))) as [_|?]; [|simpl in *; lia].
    assert (slice ["a"] i (i + -1) = []) as ->.
    { unfold slice. simpl length.
      destruct (Z.ltb_spec (i + -1) 0) as [_|?]; [|lia].
      destruct (Z.ltb_spec i 0) as [?|?].
      - by replace (Z.to_nat _) with O by lia.
      - by replace (Z.to_nat _) with O by lia. }
    simpl verify_chunk. unfold ret. apply IH. lia.
Qed.

(** C8, counterexample. With a batch size of -1 the index of the loop
    moves away from the length of the list, and [verifyBatch] never returns:
    no amount of fuel gives a result for the one-element list. *)
Lemma verifyBatch_negative_size :
  ~ exists fuel out,
      verifyBatch (failing_sdk 401 "Incorrect API key provided") sample_verifier fuel
        ["a"] (batch_options (-1)) fresh_world = Some out.
Proof.
  intros (fuel & out & H). unfold verifyBatch in H.
  change (or_count (batchSize (batch_options (-1))) 3) with (-1) in H.
  by rewrite batch_loop_negative_size in H.
Qed.

(** C8, amended. For every list of inputs and every batch size that is not
    negative (none or 0 stands for 3), [verifyBatch] returns, once the fuel
    covers the list, one result per input, in the order of the inputs; slot
    [k] holds the result of [verify] for input [k], or, where that
    verification raised, the failure result made of what it raised. No item
    makes the batch raise and no slot is dropped. *)
Theorem verifyBatch_fills_every_slot (sdk : Sdk) (this : LLMVerifier)
    (inputs : list string) (options : VerificationOptions) (w : World) :
  (forall size, batchSize options = Some size -> 0 <= size) ->
  exists w' rs,
    (forall fuel, (length inputs <= fuel)%nat ->
       verifyBatch sdk this fuel inputs options w = Some (w', Normal rs))
    /\ length rs = length inputs
    /\ forall (k : nat) (input : string), inputs !! k = Some input ->
         exists r, rs !! k = Some r
                   /\ slot_filled sdk this (Z.of_nat (length inputs)) options
                        (Z.of_nat k) input r.
Proof.
  intros Hsize. set (size := or_count (batchSize options) 3).
  assert (Hpos : 0 < size).
  { unfold size, or_count, nonzero. destruct (batchSize options) as [b|] eqn:Hb; [|done].
    specialize (Hsize b eq_refl). destruct b; simpl; lia. }
  destruct (batch_loop_spec sdk this inputs options size Hpos (length inputs) 0 [] w)
    as (w' & rs & Hrun & Hl & Hslots); [lia | nia |].
  exists w', rs. split; [|split].
  - intros fuel Hfuel. unfold verifyBatch.
    by apply (batch_loop_more_fuel sdk this inputs options size (length inputs)).
  - exact Hl.
  - intros k input Hk. destruct (Hslots k input Hk) as (r & Hr & Hs). by exists r.
Qed.

(** A batch of four inputs in chunks of two, with a client that rejects every
    call: four results come back. *)
Lemma verifyBatch_fills_every_slot_witness :
  exists w' rs,
    verifyBatch (failing_sdk 401 "Incorrect API key provided") sample_verifier 4
      ["a"; "b"; "c"; "d"] (batch_options 2) fresh_world = Some (w', Normal rs)
    /\ length rs = 4%nat.
Proof.
  destruct (verifyBatch_fills_every_slot (failing_sdk 401 "Incorrect API key provided")
              sample_verifier ["a"; "b"; "c"; "d"] (batch_options 2) fresh_world)
    as (w' & rs & Hrun & Hl & _).
  - intros size [= <-]. lia.
  - exists w', rs. split; [apply Hrun; simpl; lia | exact Hl].
Defined.

(** ** The matcher *)

Lemma append_length (a b : string) :
  String.length (a ++ b) = (String.length a + String.length b)%nat.
Proof. induction a as [|c a IH]; [done | by rewrite append_cons; simpl; rewrite IH]. Qed.


Lemma iterate_sound {R : Type} (r1 : regex) (g : bool)
    (step : string -> captures -> (string -> captures -> option R) -> option R)
    (k : string -> captures -> option R) :
  (forall s caps k' x, step s caps k' = Some x ->
     exists rest caps', Matches r1 s rest /\ k' rest caps' = Some x) ->
  forall (fuel : nat) (s : string) (caps : captures) (x : R),
    iterate step g k fuel s caps = Some x ->
    exists rest caps', Matches (Star g r1) s rest /\ k rest caps' = Some x.
Proof.
  intros Hstep fuel. induction fuel as [|fuel IH]; intros s caps x; simpl.
  - intros H. exists s, caps. split; [constructor | done].
  - assert (Hagain : forall y,
              step s caps
                (fun s' caps' =>
                   if (String.length s' <? String.length s)%nat
                   then iterate step g k fuel s' caps' else None) = Some y ->
              exists rest caps', Matches (Star g r1) s rest /\ k rest caps' = Some y).
    { intros y H. apply Hstep in H as (s1 & c1 & Hm1 & H).
      destruct (Nat.ltb_spec (String.length s1) (String.length s)) as [Hlt|]; [|done].
      apply IH in H as (s2 & c2 & Hm2 & H).
      exists s2, c2. split; [by eapply M_StarS | done]. }
    destruct g.
    + destruct (step s caps _) as [y|] eqn:H1.
      * intros [= ->]. by apply Hagain.
      * intros H. exists s, caps. split; [constructor | done].
    + destruct (k s caps) as [y|] eqn:H1.
      * intros [= ->]. exists s, caps. split; [constructor | done].
      * apply Hagain.
Qed.

(** Soundness of the matcher: when it succeeds, the pattern matched a prefix
    and the continuation succeeded on what was left. *)
Lemma rmatch_sound {R : Type} (r : regex) :
  forall (s : string) (caps : captures) (k : string -> captures -> option R) (x : R),
    rmatch r s caps k = Some x ->
    exists rest caps', Matches r s rest /\ k rest caps' = Some x.
Proof.
  induction r as [|p|r1 IH1 r2 IH2|r1 IH1 r2 IH2|g r1 IH1|n r1 IH1]; intros s caps k x; simpl.
  - intros H. exists s, caps. split; [constructor | done].
  - destruct s as [|c s]; [done|]. destruct (p c) eqn:Hp; [|done].
    intros H. exists s, caps. split; [by constructor | done].
  - intros H. apply IH1 in H as (s1 & c1 & Hm1 & H).
    apply IH2 in H as (s2 & c2 & Hm2 & H).
    exists s2, c2. split; [by econstructor | done].
  - destruct (rmatch r1 s caps k) as [y|] eqn:H1.
    + intros [= ->]. apply IH1 in H1 as (s1 & c1 & Hm1 & H).
      exists s1, c1. split; [by apply M_AltL | done].
    + intros H. apply IH2 in H as (s2 & c2 & Hm2 & H).
      exists s2, c2. split; [by apply M_AltR | done].
  - by apply iterate_sound.
  - intros H. apply IH1 in H as (s1 & c1 & Hm1 & H).
    exists s1, ((n, consumed s s1) :: c1). split; [by constructor | done].
Qed.

(** A match found by [search] starts at some position of the text. *)
Lemma search_sound (r : regex) (s : string) (f : found) :
  search r s = Some f ->
  exists pre start, s = pre ++ start /\ exec_at r start = Some (after f, groups f).
Proof.
  revert f. induction s as [|c s IH]; intros f; simpl.
  - destruct (exec_at r "") as [[rest caps]|] eqn:He; [|done].
    intros [= <-]. by exists "", "".
  - destruct (exec_at r (String c s)) as [[rest caps]|] eqn:He.
    + intros [= <-]. by exists "", (String c s).
    + destruct (search r s) as [f'|]; [|done]. intros [= <-]. simpl.
      destruct (IH f' eq_refl) as (pre & start & -> & H).
      by exists (String c pre), start.
Qed.

Lemma substring_prefix (pre rest : string) :
  substring 0 (String.length pre) (pre ++ rest) = pre.
Proof.
  induction pre as [|c pre IH]; [by destruct rest|].
  rewrite append_cons. simpl. by rewrite IH.
Qed.

Lemma consumed_app (pre rest : string) : consumed (pre ++ rest) rest = pre.
Proof.
  unfold consumed. rewrite append_length.
  replace (String.length pre + String.length rest - String.length rest)%nat
    with (String.length pre) by lia.
  apply substring_prefix.
Qed.

(** ** Confidence *)


Lemma rmatch_Seq {R : Type} (r1 r2 : regex) (s : string) (caps : captures)
    (k : string -> captures -> option R) :
  rmatch (Seq r1 r2) s caps k = rmatch r1 s caps (fun s' caps' => rmatch r2 s' caps' k).
Proof. reflexivity. Qed.

Lemma rmatch_Group {R : Type} (n : nat) (r : regex) (s : string) (caps : captures)
    (k : string -> captures -> option R) :
  rmatch (Group n r) s caps k
  = rmatch r s caps (fun s' caps' => k s' ((n, consumed s s') :: caps')).
Proof. reflexivity. Qed.





(** ** Categories *)

Lemma fold_insert_lookup_ne {V : Type} (f : string -> V) (names : list string) :
  forall (m0 : gmap string V) (key : string),
    key ∉ names ->
    fold_left (fun m n => <[n := f n]> m) names m0 !! key = m0 !! key.
Proof.
  induction names as [|n names IH]; intros m0 key Hk; [done|].
  simpl. rewrite IH by set_solver. apply lookup_insert_ne. set_solver.
Qed.

Lemma fold_insert_lookup {V : Type} (f : string -> V) (names : list string) :
  forall (m0 : gmap string V) (key : string),
    key ∈ names ->
    fold_left (fun m n => <[n := f n]> m) names m0 !! key = Some (f key).
Proof.
  induction names as [|n names IH]; intros m0 key Hk; [by apply elem_of_nil in Hk|].
  simpl. destruct (decide (key ∈ names)) as [Hin|Hout]; [by apply IH|].
  rewrite fold_insert_lookup_ne by done.
  apply elem_of_cons in Hk as [->|Hk]; [apply lookup_insert_eq | done].
Qed.

Lemma fold_insert_dom {V : Type} (f : string -> V) (names : list string) :
  forall (m0 : gmap string V),
    dom (fold_left (fun m n => <[n := f n]> m) names m0) = list_to_set names ∪ dom m0.
Proof.
  induction names as [|n names IH]; intros m0; simpl.
  - by rewrite (left_id_L ∅ (∪)).
  - rewrite IH, dom_insert_L, (assoc_L (∪)).
    by rewrite (comm_L (∪) (list_to_set names) {[n]}).
Qed.

(** [validateCategories] gives every canonical name an entry, and nothing
    else. *)
Lemma validateCategories_lookup (cats : Json) (categoryName : string) :
  categoryName ∈ validCategoryNames ->
  validateCategories cats !! categoryName
  = Some (validateCategory (prop categoryName cats)).
Proof.
  intros H. unfold validateCategories.
  by rewrite (fold_insert_lookup (fun n => validateCategory (prop n cats))).
Qed.

Lemma validateCategories_dom (cats : Json) :
  dom (validateCategories cats) = list_to_set validCategoryNames.
Proof.
  unfold validateCategories.
  rewrite (fold_insert_dom (fun n => validateCategory (prop n cats))). set_solver.
Qed.

(** ** The two paths of the parser *)

Lemma parseLLMResponse_structured (response : LLMResponse) (input : string) :
  structured response ->
  parseLLMResponse response input
  = validateAndFormatResult (extractJSONFromText (responseText response)) input.
Proof. unfold structured, parseLLMResponse. by intros ->. Qed.

Lemma parseLLMResponse_fallback (response : LLMResponse) (input : string) :
  ~ structured response ->
  parseLLMResponse response input
  = parseUnstructuredResponse (responseText response) input.
Proof.
  unfold structured, parseLLMResponse. by destruct (truthy _).
Qed.






(** ** Round trip of a well-formed answer *)

Lemma normalizeScoreAny_number (q : Q) :
  normalizeScoreAny (ScoreNum (Num q)) = ScoreNum (normalizeScore (Num q)).
Proof.
  unfold normalizeScoreAny, normalizeScore. simpl score_number.
  by repeat case_match.
Qed.

Lemma validateCategory_matches (entry : Json) (cv : CategoryVerdict) :
  category_matches entry cv ->
  exists q, passed (validateCategory (Some entry)) = cv_passed cv
            /\ score (validateCategory (Some entry)) = ScoreNum (Num q)
            /\ (q == cv_score cv)%Q
            /\ explanation (validateCategory (Some entry))
               = Str (shown_explanation (cv_explanation cv)).
Proof.
  intros ([props ->] & Hp & Hs & [Hlo Hhi] & He).
  destruct (normalizeScore_id (cv_score cv) Hlo Hhi) as (q & Hq & Heq).
  exists q. unfold validateCategory. rewrite Hp, Hs, He. simpl.
  rewrite normalizeScoreAny_number, Hq. unfold shown_explanation.
  by destruct (cv_explanation cv =? "")%string.
Qed.

Lemma truthy_object (v : Json) : is_object v -> truthy (Some v) = true.
Proof. by intros [props ->]. Qed.

Lemma validateAndFormatResult_reflects (data : Json) (v : Verdict) (input : string) :
  matches_schema data v ->
  reflects shown_explanation (validateAndFormatResult data input) v.
Proof.
  intros (Hobj & Hv & Hc & [Hlo Hhi] & _ & _ & _ & cats & Hcats & [cprops ->] & Hentries).
  unfold reflects, validateAndFormatResult. simpl. rewrite Hv, Hc, Hcats. simpl.
  split; [by destruct (v_isValid v)|]. split; [by apply normalizeScore_id|].
  split; [apply validateCategories_dom|].
  intros categoryName Hn. destruct (Hentries categoryName Hn) as (entry & He & Hm).
  destruct (validateCategory_matches entry _ Hm) as (q & H1 & H2 & H3 & H4).
  exists (validateCategory (Some entry)), q.
  rewrite validateCategories_lookup by done. by rewrite He.
Qed.

Lemma sample_answer_matches_schema :
  exists data, JSON_parse sample_answer = Some data /\ matches_schema data sample_verdict.
Proof.
  eexists. split; [vm_compute; reflexivity|].
  split; [by eexists|]. split; [reflexivity|]. split; [reflexivity|].
  split; [split; unfold Qle; simpl; lia|]. split; [by eexists|].
  split; [eexists; split; [reflexivity | constructor]|].
  split; [eexists; split; [reflexivity | repeat constructor; by eexists]|].
  eexists. split; [reflexivity|]. split; [by eexists|].
  intros categoryName Hn. unfold validCategoryNames in Hn.
  rewrite !elem_of_cons, elem_of_nil in Hn.
  destruct Hn as [->|[->|[->|[->|[->|[->|[->|[]]]]]]]];
    (eexists; split; [reflexivity|]); (split; [by eexists|]);
    repeat split; try reflexivity; unfold Qle; simpl; lia.
Qed.

(** C7, counterexample. The answer [sample_answer] is well-formed JSON
    that follows the schema, yet the categories of the parsed result are not
    those of the answer: the empty explanation of the toxicity entry has
    become the text Not provided. *)
Lemma round_trip_empty_explanation :
  exists data,
    JSON_parse sample_answer = Some data
    /\ matches_schema data sample_verdict
    /\ ~ reflects id (parseLLMResponse (text_response sample_answer) "input") sample_verdict
    /\ explanation <$> (categories (parseLLMResponse (text_response sample_answer) "input")
                          !! "toxicity")
       = Some (Str "Not provided").
Proof.
  destruct sample_answer_matches_schema as (data & Hp & Hm).
  exists data. split; [done|]. split; [done|].
  assert (He : explanation <$> (categories (parseLLMResponse (text_response sample_answer)
                                              "input") !! "toxicity")
               = Some (Str "Not provided")) by (vm_compute; reflexivity).
  split; [|exact He].
  intros (_ & _ & _ & Hcat).
  destruct (Hcat "toxicity") as (entry & q & Hl & _ & _ & _ & Hex).
  { unfold validCategoryNames. rewrite elem_of_cons; by left. }
  rewrite Hl in He. simpl in He. rewrite Hex in He. discriminate He.
Qed.

(** C7, amended. For every raw text that is well-formed JSON following the
    documented schema, the parsed result has the [isValid] and the confidence
    of the answer and, for each of the seven categories and no other, its
    [passed], its score and its explanation, except that an empty explanation
    is replaced by the text Not provided. *)
Theorem round_trip (response : LLMResponse) (input : string) (data : Json) (v : Verdict) :
  JSON_parse (responseText response) = Some data ->
  matches_schema data v ->
  reflects shown_explanation (parseLLMResponse response input) v.
Proof.
  intros Hp Hm.
  assert (Hj : extractJSONFromText (responseText response) = data)
    by (unfold extractJSONFromText; by rewrite Hp).
  rewrite parseLLMResponse_structured.
  - rewrite Hj. by apply validateAndFormatResult_reflects.
  - unfold structured. rewrite Hj. apply truthy_object. by destruct Hm as [? _].
Qed.

(** The round trip of [sample_answer]. *)
Lemma round_trip_witness :
  reflects shown_explanation (parseLLMResponse (text_response sample_answer) "input")
    sample_verdict.
Proof.
  destruct sample_answer_matches_schema as (data & Hp & Hm).
  exact (round_trip (text_response sample_answer) "input" data sample_verdict Hp Hm).
Defined.

(** ** Completeness of the matcher *)

Lemma iterate_ext {R : Type}
    (step : string -> captures -> (string -> captures -> option R) -> option R)
    (g : bool) (k1 k2 : string -> captures -> option R) :
  (forall s caps j1 j2, (forall s' c', j1 s' c' = j2 s' c') -> step s caps j1 = step s caps j2) ->
  (forall s' c', k1 s' c' = k2 s' c') ->
  forall fuel s caps, iterate step g k1 fuel s caps = iterate step g k2 fuel s caps.
Proof.
  intros Hstep Hk fuel. induction fuel as [|fuel IH]; intros s caps; simpl; [apply Hk|].
  rewrite Hk.
  rewrite (Hstep s caps _ (fun s' caps' =>
             if (String.length s' <? String.length s)%nat
             then iterate step g k2 fuel s' caps' else None)); [done|].
  intros s' c'. by rewrite IH.
Qed.

Lemma rmatch_ext {R : Type} (r : regex) :
  forall (s : string) (caps : captures) (k1 k2 : string -> captures -> option R),
    (forall s' c', k1 s' c' = k2 s' c') -> rmatch r s caps k1 = rmatch r s caps k2.
Proof.
  induction r as [|p|r1 IH1 r2 IH2|r1 IH1 r2 IH2|g r1 IH1|n r1 IH1];
    intros s caps k1 k2 Hk; simpl.
  - apply Hk.
  - destruct s as [|c s]; [done|]. by rewrite Hk.
  - apply IH1. intros s' c'. by apply IH2.
  - by rewrite (IH1 s caps k1 k2), (IH2 s caps k1 k2).
  - by apply iterate_ext.
  - apply IH1. intros s' c'. apply Hk.
Qed.

Lemma rmatch_none {R : Type} (r : regex) (s : string) (caps : captures)
    (k : string -> captures -> option R) :
  (forall s' c', k s' c' = None) -> rmatch r s caps k = None.
Proof.
  intros Hk. destruct (rmatch r s caps k) as [x|] eqn:H; [|done].
  apply rmatch_sound in H as (s' & c' & _ & H). by rewrite Hk in H.
Qed.

(** Any fuel that covers the text gives the same iterations. *)
Lemma iterate_fuel {R : Type} (r : regex) (g : bool) (k : string -> captures -> option R) :
  forall (fuel fuel' : nat) (s : string) (caps : captures),
    (String.length s <= fuel)%nat -> (String.length s <= fuel')%nat ->
    iterate (rmatch r) g k fuel s caps = iterate (rmatch r) g k fuel' s caps.
Proof.
  assert (Hempty : forall fuel caps,
            iterate (rmatch r) g k fuel "" caps = k "" caps).
  { intros [|fuel] caps; [done|]. simpl.
    erewrite rmatch_none; [destruct g; [done | by destruct (k "" caps)]|].
    intros s' c'. by destruct (String.length s'). }
  intros fuel. induction fuel as [|fuel IH]; intros fuel' s caps Hf Hf'.
  - destruct s; [|simpl in Hf; lia]. by rewrite !Hempty.
  - destruct fuel' as [|fuel'].
    + destruct s; [|simpl in Hf'; lia]. by rewrite !Hempty.
    + simpl.
      rewrite (rmatch_ext r s caps _ (fun s' caps' =>
                 if (String.length s' <? String.length s)%nat
                 then iterate (rmatch r) g k fuel' s' caps' else None)); [done|].
      intros s' c'. destruct (Nat.ltb_spec (String.length s') (String.length s)); [|done].
      apply IH; lia.
Qed.

(** Completeness of the matcher: when the pattern can match a prefix on
    whose rest the continuation always succeeds, the matcher succeeds. *)
Lemma rmatch_complete (r : regex) (s rest : string) :
  Matches r s rest ->
  forall (R : Type) (caps : captures) (k : string -> captures -> option R),
    (forall caps', is_Some (k rest caps')) -> is_Some (rmatch r s caps k).
Proof.
  induction 1 as [s|p c s Hp|r1 r2 s s1 s2 _ IH1 _ IH2
                  |r1 r2 s s' _ IH|r1 r2 s s' _ IH|g r s
                  |g r s s1 s2 _ IH1 Hlt _ IH2|n r s s' _ IH]; intros R caps k Hk; simpl.
  - apply Hk.
  - rewrite Hp. apply Hk.
  - apply IH1. intros c1. by apply IH2.
  - destruct (IH R caps k Hk) as [x ->]. by eexists.
  - destruct (rmatch r1 s caps k); [by eexists | by apply IH].
  - destruct (String.length s); simpl; [apply Hk|].
    destruct g.
    + destruct (rmatch r s caps _); [by eexists | apply Hk].
    + by destruct (Hk caps) as [x ->].
  - destruct (String.length s) as [|n] eqn:Hn; [lia|]. simpl.
    assert (Hagain : is_Some (rmatch r s caps (fun s' caps' =>
                        if (String.length s' <? String.length s)%nat
                        then iterate (rmatch r) g k n s' caps' else None))).
    { apply IH1. intros c1.
      destruct (Nat.ltb_spec (String.length s1) (String.length s)) as [_|?]; [|lia].
      rewrite (iterate_fuel r g k n (String.length s1)) by lia.
      by apply (IH2 R c1 k). }
    destruct g.
    + by destruct Hagain as [x ->].
    + by destruct (k s caps).
  - apply IH. intros c1. apply Hk.
Qed.

Lemma search_here (r : regex) (s rest : string) (caps : captures) :
  exec_at r s = Some (rest, caps) -> is_Some (search r s).
Proof. intros H. destruct s; simpl; rewrite H; by eexists. Qed.

Lemma search_later (r : regex) (c : ascii) (s : string) :
  is_Some (search r s) -> is_Some (search r (String c s)).
Proof.
  intros [f H]. simpl. rewrite H. destruct (exec_at r _) as [[]|]; by eexists.
Qed.

Lemma search_complete (r : regex) (pre start : string) :
  is_Some (exec_at r start) -> is_Some (search r (pre ++ start)).
Proof.
  intros [[rest caps] H]. induction pre as [|c pre IH].
  - rewrite append_nil_l. by eapply search_here.
  - rewrite append_cons. by apply search_later.
Qed.

(** A pattern matches somewhere in a text exactly when [search] finds a
    match. *)
Lemma search_spec (r : regex) (text : string) :
  is_Some (search r text) <->
  exists pre start rest, text = pre ++ start /\ Matches r start rest.
Proof.
  split.
  - intros [f H]. apply search_sound in H as (pre & start & -> & H).
    apply rmatch_sound in H as (rest & c & Hm & _). by exists pre, start, rest.
  - intros (pre & start & rest & -> & Hm). apply search_complete.
    unfold exec_at. apply (rmatch_complete r start rest Hm). by eexists.
Qed.

(** ** The free-text fallback *)



Lemma Matches_class_star_intro (g : bool) (p : ascii -> bool) (gap rest : string) :
  all_chars p gap = true -> Matches (Star g (Chr p)) (gap ++ rest) rest.
Proof.
  induction gap as [|c gap IH]; simpl; [constructor|].
  intros [Hc Hg]%andb_true_iff. rewrite append_cons.
  eapply M_StarS; [by constructor | simpl; lia | by apply IH].
Qed.

Lemma Matches_class_star_elim (g : bool) (p : ascii -> bool) (s rest : string) :
  Matches (Star g (Chr p)) s rest ->
  exists gap, s = gap ++ rest /\ all_chars p gap = true.
Proof.
  remember (Star g (Chr p)) as r eqn:Hr. intros H.
  induction H as [| | | | |g' r' s|g' r' s s1 s2 H1 _ _ _ IH|]; try done.
  - by exists "".
  - injection Hr as -> ->. destruct (IH eq_refl) as (gap & -> & Hgap).
    inversion H1 as [|p' c s3 Hc| | | | | |]; subst.
    exists (String c gap). split; [done|]. simpl. by rewrite Hc.
Qed.



(** ** The order in which the matcher tries

    What a greedy and a lazy starred class take, and where the leftmost
    match of a pattern starts. *)

Lemma search_unfold (r : regex) (s : string) :
  search r s
  = match exec_at r s with
    | Some (rest, caps) =>
        Some {| before := ""; matched := consumed s rest; groups := caps; after := rest |}
    | None =>
        match s with
        | EmptyString => None
        | String c s' =>
            match search r s' with
            | Some f =>
                Some {| before := String c (before f); matched := matched f;
                        groups := groups f; after := after f |}
            | None => None
            end
        end
    end.
Proof. by destruct s. Qed.

Lemma rmatch_Lit {R : Type} (w : string) :
  forall (word s : string) (caps : captures) (k : string -> captures -> option R),
    toLowerCase word = toLowerCase w ->
    rmatch (Lit true w) (word ++ s) caps k = k s caps.
Proof.
  induction w as [|c w IH]; intros word s caps k Hw.
  - destruct word; [|done]. by rewrite append_nil_l.
  - destruct word as [|d word]; [done|]. simpl in Hw. injection Hw as Hd Hw.
    rewrite append_cons. cbn [Lit]. rewrite rmatch_Seq. cbn [rmatch].
    unfold ich at 1. rewrite Hd, Ascii.eqb_refl. by apply IH.
Qed.

Lemma iterate_step {R : Type} (p : ascii -> bool) (g : bool)
    (k : string -> captures -> option R) (fuel : nat) (c : ascii) (s : string)
    (caps : captures) :
  p c = true ->
  iterate (rmatch (Chr p)) g k (S fuel) (String c s) caps
  = if g
    then match iterate (rmatch (Chr p)) g k fuel s caps with
         | Some x => Some x
         | None => k (String c s) caps
         end
    else match k (String c s) caps with
         | Some x => Some x
         | None => iterate (rmatch (Chr p)) g k fuel s caps
         end.
Proof.
  intros Hc. cbn [iterate rmatch]. rewrite Hc.
  destruct (Nat.ltb_spec (String.length s) (String.length (String c s))) as [_|H];
    [done | simpl in H; lia].
Qed.

Lemma iterate_stop {R : Type} (p : ascii -> bool) (g : bool)
    (k : string -> captures -> option R) (fuel : nat) (s : string) (caps : captures) :
  stops p s ->
  iterate (rmatch (Chr p)) g k fuel s caps = k s caps.
Proof.
  intros Hs. destruct fuel as [|fuel]; [done|]. cbn [iterate rmatch].
  destruct s as [|c s]; [by destruct g, (k "" caps)|]. simpl in Hs. rewrite Hs.
  by destruct g, (k (String c s) caps).
Qed.

(** A greedy starred class takes the whole run in front of a text that stops
    it, when the continuation accepts what follows. *)
Lemma iterate_greedy_run {R : Type} (p : ascii -> bool)
    (k : string -> captures -> option R) (s : string) (caps : captures) :
  stops p s -> is_Some (k s caps) ->
  forall (run : string) (fuel : nat),
    all_chars p run = true -> (String.length (run ++ s) <= fuel)%nat ->
    iterate (rmatch (Chr p)) true k fuel (run ++ s) caps = k s caps.
Proof.
  intros Hs [x Hx]. induction run as [|c run IH]; intros fuel Hrun Hfuel.
  - rewrite append_nil_l. by apply iterate_stop.
  - rewrite append_cons in Hfuel |- *. cbn [all_chars] in Hrun.
    apply andb_true_iff in Hrun as [Hc Hrun].
    destruct fuel as [|fuel]; [simpl in Hfuel; lia|]. cbn [String.length] in Hfuel.
    rewrite iterate_step by done. rewrite IH by (done || lia). by rewrite Hx.
Qed.

(** A lazy starred class takes a gap at whose every position the continuation
    fails, and no more, when the continuation accepts what follows. *)
Lemma iterate_lazy_gap {R : Type} (p q : ascii -> bool)
    (k : string -> captures -> option R) (s : string) (caps : captures) :
  (forall c t, q c = true -> k (String c t) caps = None) ->
  is_Some (k s caps) ->
  forall (gap : string) (fuel : nat),
    all_chars (fun c => p c && q c) gap = true ->
    (String.length (gap ++ s) <= fuel)%nat ->
    iterate (rmatch (Chr p)) false k fuel (gap ++ s) caps = k s caps.
Proof.
  intros Hq [x Hx]. induction gap as [|c gap IH]; intros fuel Hgap Hfuel.
  - rewrite append_nil_l. destruct fuel as [|fuel]; [done|].
    cbn [iterate]. by rewrite Hx.
  - rewrite append_cons in Hfuel |- *. cbn [all_chars] in Hgap.
    apply andb_true_iff in Hgap as [[Hp Hc]%andb_true_iff Hgap].
    destruct fuel as [|fuel]; [simpl in Hfuel; lia|]. cbn [String.length] in Hfuel.
    rewrite iterate_step by done. rewrite (Hq c _ Hc). apply IH; [done | lia].
Qed.

Lemma search_skip (r : regex) (q : ascii -> bool) (pre start rest : string)
    (caps : captures) :
  (forall c t, q c = true -> exec_at r (String c t) = None) ->
  all_chars q pre = true ->
  exec_at r start = Some (rest, caps) ->
  search r (pre ++ start)
  = Some {| before := pre; matched := consumed start rest; groups := caps; after := rest |}.
Proof.
  intros Hq Hpre Hexec. induction pre as [|c pre IH].
  - rewrite append_nil_l, search_unfold. by rewrite Hexec.
  - cbn [all_chars] in Hpre. apply andb_true_iff in Hpre as [Hc Hpre].
    rewrite append_cons, search_unfold, (Hq c _ Hc). by rewrite (IH Hpre).
Qed.

Lemma rmatch_Star {R : Type} (g : bool) (r : regex) (s : string) (caps : captures)
    (k : string -> captures -> option R) :
  rmatch (Star g r) s caps k = iterate (rmatch r) g k (String.length s) s caps.
Proof. reflexivity. Qed.

Lemma rmatch_Chr_stop {R : Type} (p : ascii -> bool) (s : string) (caps : captures)
    (k : string -> captures -> option R) :
  stops p s -> rmatch (Chr p) s caps k = None.
Proof. destruct s as [|c s]; [done|]. simpl. by intros ->. Qed.

Lemma rmatch_Chr_ok {R : Type} (p : ascii -> bool) (c : ascii) (s : string)
    (caps : captures) (k : string -> captures -> option R) :
  p c = true -> rmatch (Chr p) (String c s) caps k = k s caps.
Proof. simpl. by intros ->. Qed.

Lemma rmatch_Alt {R : Type} (r1 r2 : regex) (s : string) (caps : captures)
    (k : string -> captures -> option R) :
  rmatch (Alt r1 r2) s caps k
  = match rmatch r1 s caps k with
    | Some x => Some x
    | None => rmatch r2 s caps k
    end.
Proof. reflexivity. Qed.

Lemma rmatch_Eps {R : Type} (s : string) (caps : captures)
    (k : string -> captures -> option R) :
  rmatch Eps s caps k = k s caps.
Proof. reflexivity. Qed.

(** The number of the confidence pattern, matched at its start. *)
Lemma number_at (ds rest : string) (caps : captures) :
  ds <> "" -> all_chars is_digit ds = true ->
  stops is_digit rest -> stops (ch ".") rest ->
  rmatch (Group 1 (Seq (Plus true (Chr is_digit))
                       (Seq (Opt (Chr (ch "."))) (Star true (Chr is_digit)))))
    (ds ++ rest) caps (fun rest' caps' => Some (rest', caps'))
  = Some (rest, (1%nat, ds) :: caps).
Proof.
  intros Hne Hds Hrest Hdot. destruct ds as [|d ds]; [done|]. clear Hne.
  cbn [all_chars] in Hds. apply andb_true_iff in Hds as [Hd Hds].
  rewrite rmatch_Group. unfold Plus. rewrite !rmatch_Seq.
  rewrite append_cons. rewrite rmatch_Chr_ok by done.
  rewrite rmatch_Star.
  assert (Htail : forall caps',
    rmatch (Seq (Opt (Chr (ch "."))) (Star true (Chr is_digit))) rest caps'
      (fun s' c' => Some (s', (1%nat, consumed (String d (ds ++ rest)) s') :: c'))
    = Some (rest, (1%nat, String d ds) :: caps')).
  { intros caps'. rewrite rmatch_Seq. unfold Opt. rewrite rmatch_Alt.
    rewrite (rmatch_Chr_stop (ch ".")) by done. rewrite rmatch_Eps, rmatch_Star.
    rewrite iterate_stop by done.
    by rewrite <- append_cons, consumed_app. }
  rewrite iterate_greedy_run; [apply Htail | done | by rewrite Htail | done | done].
Qed.

(** The confidence pattern, matched at the word. *)
Lemma confidence_re_at (word gap ds rest : string) :
  toLowerCase word = "confidence" ->
  all_chars (fun c => dot c && negb (is_digit c)) gap = true ->
  ds <> "" -> all_chars is_digit ds = true ->
  stops is_digit rest -> stops (ch ".") rest ->
  exec_at confidence_re (word ++ gap ++ ds ++ rest) = Some (rest, [(1%nat, ds)]).
Proof.
  intros Hword Hgap Hne Hds Hrest Hdot.
  unfold exec_at, confidence_re. rewrite rmatch_Seq.
  rewrite rmatch_Lit by done. rewrite rmatch_Seq, rmatch_Star.
  rewrite (iterate_lazy_gap dot (fun c => negb (is_digit c))); [| | | done | done].
  - by apply number_at.
  - intros c t Hc. rewrite rmatch_Group. unfold Plus. rewrite !rmatch_Seq.
    apply rmatch_Chr_stop. simpl. by destruct (is_digit c).
  - by rewrite number_at.
Qed.

Lemma take_digits_all (ds : string) :
  all_chars is_digit ds = true -> take_digits ds = (ds, "").
Proof.
  induction ds as [|c ds IH]; simpl; [done|].
  intros [Hc Hds]%andb_true_iff. by rewrite Hc, IH.
Qed.

Lemma digits_value_nonneg (ds : string) :
  all_chars is_digit ds = true ->
  forall acc, 0 <= acc -> acc <= digits_value acc ds.
Proof.
  induction ds as [|c ds IH]; simpl; [lia|].
  intros [Hc Hds]%andb_true_iff acc Hacc.
  assert (0 <= digit_value c).
  { unfold is_digit in Hc. apply andb_true_iff in Hc as [H1 _].
    apply Nat.leb_le in H1. unfold digit_value. lia. }
  specialize (IH Hds (10 * acc + digit_value c) ltac:(lia)). lia.
Qed.

Lemma underflow_integer (m : Z) : (underflow (Qred (inject_Z m)) == inject_Z m)%Q.
Proof.
  unfold underflow.
  destruct (Qle_bool (- half_least) _ && Qle_bool _ half_least) eqn:H;
    [|apply Qred_correct].
  apply andb_true_iff in H as [H1 H2]. apply Qle_bool_iff in H1, H2.
  rewrite Qred_correct in H1, H2. unfold Qle, half_least in H1, H2.
  cbn [Qnum Qden inject_Z Qopp] in H1, H2.
  assert (Hp : 1 < Z.pos (2 ^ 1075)) by by vm_compute.
  assert (m = 0) as -> by nia. reflexivity.
Qed.

Lemma parseFloat_digits (ds : string) :
  ds <> "" -> all_chars is_digit ds = true ->
  exists q, parseFloat ds = Num q /\ (q == inject_Z (digits_value 0 ds))%Q.
Proof.
  intros Hne Hds. destruct ds as [|d ds]; [done|].
  pose proof Hds as Hall. cbn [all_chars] in Hds.
  apply andb_true_iff in Hds as [Hd Hds'].
  assert (Hsp : is_space d = false).
  { unfold is_digit in Hd. unfold is_space.
    apply andb_true_iff in Hd as [H1 H2]. apply Nat.leb_le in H1.
    destruct (Nat.leb_spec 9 (nat_of_ascii d)), (Nat.leb_spec (nat_of_ascii d) 13),
      (Nat.eqb_spec (nat_of_ascii d) 32); simpl; try done; lia. }
  unfold parseFloat. cbn [trimStart]. rewrite Hsp.
  unfold decimal_literal.
  assert (Hsign : take_sign (String d ds) = (false, String d ds)).
  { clear -Hd. destruct d as [[] [] [] [] [] [] [] []];
      first [ reflexivity | by vm_compute in Hd ]. }
  rewrite Hsign.
  assert (Hinf : String.prefix "Infinity" (String d ds) = false).
  { clear -Hd. destruct d as [[] [] [] [] [] [] [] []];
      first [ reflexivity | by vm_compute in Hd ]. }
  rewrite Hinf, (take_digits_all _ Hall). cbn [take_exponent].
  rewrite append_nil_r. eexists. split; [reflexivity|].
  unfold scale10. cbn [String.length Z.of_nat Z.sub Z.add Z.opp Z.leb Z.compare Z.pow Z.pow_pos
                       Pos.iter].
  rewrite Z.mul_1_r. apply underflow_integer.
Qed.












(** ** Counting the hedge words *)





Lemma hasPositive_spec (text : string) :
  hasPositive text = true <-> mentions positiveIndicators text.
Proof. apply existsb_includes. Qed.

Lemma hasNegative_spec (text : string) :
  hasNegative text = true <-> mentions negativeIndicators text.
Proof. apply existsb_includes. Qed.




(** C10. The indicators of the fallback are matched as substrings of the
    text in lower case, not as whole words: a text counts as positive exactly
    when one of the positive indicators occurs somewhere in it, and as
    negative exactly when one of the negative indicators does. So every text
    that contains invalid, in any case, counts as containing the positive
    indicator valid; and every raw text from which no JSON can be extracted,
    in which a positive indicator occurs and no negative one, gives a valid
    result, as does the text not valid. *)
Theorem indicators_match_substrings :
  (forall text : string, hasPositive text = true <-> mentions positiveIndicators text)
  /\ (forall text : string, hasNegative text = true <-> mentions negativeIndicators text)
  /\ (forall text word : string,
        toLowerCase word = "invalid" -> occurs_in word text ->
        mentions positiveIndicators text /\ hasPositive text = true)
  /\ (forall (response : LLMResponse) (input : string),
        ~ structured response ->
        mentions positiveIndicators (responseText response) ->
        ~ mentions negativeIndicators (responseText response) ->
        isValid (parseLLMResponse response input) = true)
  /\ (~ structured (text_response "not valid")
      /\ mentions positiveIndicators "not valid"
      /\ ~ mentions negativeIndicators "not valid"
      /\ forall input : string,
           isValid (parseLLMResponse (text_response "not valid") input) = true).
Proof.
  assert (Hinvalid : forall text word,
            toLowerCase word = "invalid" -> occurs_in word text ->
            mentions positiveIndicators text).
  { intros text word Hword Hocc. exists "valid".
    split; [unfold positiveIndicators; rewrite elem_of_cons; by left|].
    apply (occurs_in_trans _ "invalid"); [by exists "in", "" |].
    rewrite <- Hword. by apply occurs_in_lower. }
  split; [apply hasPositive_spec|]. split; [apply hasNegative_spec|].
  split. { intros text word Hword Hocc. split; [|apply hasPositive_spec]; by eapply Hinvalid. }
  split.
  { intros response input Hs Hpos Hneg. rewrite parseLLMResponse_fallback by done.
    simpl. apply andb_true_iff. split; [by apply hasPositive_spec|].
    apply negb_true_iff, not_true_is_false. by rewrite hasNegative_spec. }
  split; [by vm_compute|]. split; [by apply hasPositive_spec|].
  split; [by rewrite <- hasNegative_spec|].
  intros input. by rewrite parseLLMResponse_fallback by by vm_compute.
Qed.

(** A text that calls something invalid has a positive indicator. *)
Lemma indicators_match_substrings_witness :
  hasPositive "This claim is Invalid, or rather doubtful." = true.
Proof.
  apply (proj1 (proj2 (proj2 indicators_match_substrings))
           "This claim is Invalid, or rather doubtful." "Invalid"); [reflexivity|].
  by exists "This claim is ", ", or rather doubtful.".
Defined.

(* ================================================================= *)
(** * Further properties *)

(** ** [setup.ts] *)

Lemma or_string_filled (a : option string) (b : string) :
  b <> "" -> or_string a b <> "".
Proof. intros Hb. destruct a as [[|c s]|]; simpl; done. Qed.

Lemma or_string_idem (a : option string) (b c : string) :
  b <> "" -> or_string (Some (or_string a b)) c = or_string a b.
Proof.
  intros Hb. pose proof (or_string_filled a b Hb) as H.
  destruct (or_string a b); simpl; done.
Qed.

Lemma nonzero_or (x : option Z) :
  match nonzero x with Some n => Some n | None => x end = x.
Proof. destruct x as [[| |]|]; reflexivity. Qed.

Lemma createVerifierFromEnv_constructor (env : Env) :
  createVerifierFromEnv env = LLMVerifier_new env no_constructor_options.
Proof.
  unfold createVerifierFromEnv, LLMVerifier_new, initializeProvider.
  cbn [o_provider o_model o_maxRetries o_timeout o_temperature o_maxTokens o_criteria
       o_sentryEnabled no_constructor_options].
  rewrite !or_string_idem by done.
  change (or_string None ?x) with x.
  destruct (initializeClient _); [|reflexivity].
  cbn [nonzero default mbind option_bind].
  rewrite !nonzero_or.
  by destruct (js_num_eq _ 0 || js_isNaN _).
Qed.

(** X1. Whatever is passed beside the environment, [setupVerifier] returns
    what [new LLMVerifier(env)] returns: the provider, model, criteria and
    Sentry overrides are collected and never applied, and the configuration
    [createVerifierFromEnv] builds changes nothing either. *)
Theorem setupVerifier_ignores_overrides (options : SetupOptions) :
  setupVerifier options = LLMVerifier_new (s_env options) no_constructor_options
  /\ createVerifierFromEnv (s_env options)
     = LLMVerifier_new (s_env options) no_constructor_options
  /\ forall options', s_env options' = s_env options ->
       setupVerifier options' = setupVerifier options.
Proof.
  assert (H : forall o, setupVerifier o = LLMVerifier_new (s_env o) no_constructor_options).
  { intros o. unfold setupVerifier. rewrite createVerifierFromEnv_constructor.
    by destruct (LLMVerifier_new _ _). }
  split; [apply H|]. split; [apply createVerifierFromEnv_constructor|].
  intros options' Henv. by rewrite !H, Henv.
Qed.

Lemma app3_nil {A : Type} (a b c : list A) :
  (a ++ b ++ c)%list = [] <-> a = [] /\ b = [] /\ c = [].
Proof.
  split.
  - intros H. apply app_eq_nil in H as [-> H]. by apply app_eq_nil in H as [-> ->].
  - by intros (-> & -> & ->).
Qed.

Lemma unset_false (v : option string) :
  unset v = false <-> exists k, v = Some k /\ k <> "".
Proof.
  destruct v as [[|c s]|]; simpl; split; try done.
  - by intros (k & [= <-] & Hk).
  - intros _. by eexists.
  - by intros (k & [=] & _).
Qed.

Lemma validateEnvConfig_accepts_iff (env : Env) :
  validateEnvConfig env = [] <->
  (forall key, required_key env = Some key -> exists k, key = Some k /\ k <> "")
  /\ (exists n, parseInt (or_string (AI_MAX_RETRIES env) "3") = Some n /\ 1 <= n <= 10)
  /\ (exists q, parseFloat (or_string (AI_TEMPERATURE env) "0.7") = Num q
                /\ (0 <= q)%Q /\ (q <= 2)%Q).
Proof.
  unfold validateEnvConfig, required_key. rewrite app3_nil.
  match goal with |- ?a = [] /\ ?b = [] /\ ?c = [] <-> ?K /\ ?R /\ ?T =>
    assert (HK : a = [] <-> K); [| assert (HR : b = [] <-> R);
                                   [| assert (HT : c = [] <-> T); [|tauto]]]
  end.
  - repeat case_bool_decide.
    4: { split; [intros _ key [=] | done]. }
    all: match goal with |- context [unset ?v] =>
           pose proof (unset_false v) as Hu; destruct (unset v) end.
    all: split; [intros He | intros Hall].
    all: first [ done
               | intros key [= <-]; by apply Hu
               | destruct (Hall _ eq_refl) as (k & Hk & Hne);
                 assert (true = false) by (apply Hu; eauto); done ].
  - destruct (parseInt _) as [n|].
    + destruct (Z.ltb_spec n 1); destruct (Z.ltb_spec 10 n); simpl.
      all: split; [ first [ done | intros _; exists n; split; [done|lia] ]
                  | first [ done | intros (m & [= <-] & Hm); lia ] ].
    + split; [done|]. by intros (n & [=] & _).
  - destruct (parseFloat _) as [|neg|q]; simpl.
    + split; [done|]. by intros (q & [=] & _).
    + split; [by destruct neg|]. by intros (q & [=] & _).
    + unfold js_gt. simpl.
      destruct (Qle_bool (inject_Z 0) q) eqn:H0;
        destruct (Qle_bool q (inject_Z 2)) eqn:H2; simpl.
      all: split; [intros He | intros (q' & [= <-] & Ha & Hb)].
      all: first [ done
                 | exists q; split; [done|]; split; by apply Qle_bool_iff
                 | apply Qle_bool_iff in Ha, Hb;
                   change (Qle_bool (inject_Z 0) q = true) in Ha;
                   change (Qle_bool q (inject_Z 2) = true) in Hb; congruence ].
Qed.

(** X2. [validateEnvConfig] returns at most three complaints, and none
    exactly when the API key of the provider named by [AI_PROVIDER] (OpenAI
    when it is unset) is set and not empty, [AI_MAX_RETRIES] (3 when unset)
    starts with an integer between 1 and 10, and [AI_TEMPERATURE] (0.7 when
    unset) starts with a number between 0 and 2. A provider name it does not
    know needs no key. *)
Theorem validateEnvConfig_accepts (env : Env) :
  (length (validateEnvConfig env) <= 3)%nat
  /\ (validateEnvConfig env = [] <->
      (forall key, required_key env = Some key -> exists k, key = Some k /\ k <> "")
      /\ (exists n, parseInt (or_string (AI_MAX_RETRIES env) "3") = Some n /\ 1 <= n <= 10)
      /\ (exists q, parseFloat (or_string (AI_TEMPERATURE env) "0.7") = Num q
                    /\ (0 <= q)%Q /\ (q <= 2)%Q)).
Proof.
  split; [|apply validateEnvConfig_accepts_iff].
  unfold validateEnvConfig. rewrite !length_app.
  repeat case_bool_decide; repeat match goal with |- context [unset ?v] => destruct (unset v) end;
    destruct (parseInt _) as [n|]; try destruct ((n <? 1) || (10 <? n));
    destruct (js_isNaN _ || _ || _); simpl; lia.
Qed.

(** X3. An environment that passes [validateEnvConfig] and names one of the
    three providers (or none) gives, through [createVerifierFromEnv], a
    verifier of that provider whose client holds a non-empty API key, whose
    [maxRetries] lies between 1 and 10 and whose temperature lies between 0
    and 2. *)
Theorem validated_env_constructs (env : Env) :
  validateEnvConfig env = [] ->
  or_string (AI_PROVIDER env) "openai" ∈ supportedProviders ->
  exists v c key n q,
    createVerifierFromEnv env = Normal v
    /\ providerConfig v = Config c
    /\ name c = or_string (AI_PROVIDER env) "openai"
    /\ client_key (client v) = Some key /\ key <> ""
    /\ maxRetries v = Some n /\ 1 <= n <= 10
    /\ temperature v = Num q /\ (0 <= q)%Q /\ (q <= 2)%Q.
Proof.
  intros Hok Hp.
  apply validateEnvConfig_accepts_iff in Hok as (Hkey & (n & Hn & Hn') & (q & Hq & Hq0 & Hq2)).
  rewrite createVerifierFromEnv_constructor.
  unfold required_key in Hkey.
  unfold LLMVerifier_new, initializeProvider. simpl.
  unfold supportedProviders in Hp. rewrite !elem_of_cons, elem_of_nil in Hp.
  rewrite Hn, Hq.
  repeat case_bool_decide; try (exfalso; tauto);
    destruct (Hkey _ eq_refl) as (key & Hk & Hne); simpl;
    (eexists _, _, key, n, q; split; [reflexivity|]; simpl;
     repeat split; try done; try lia).
Qed.

Lemma validated_env_constructs_witness :
  exists v key, createVerifierFromEnv sample_env = Normal v
                /\ client_key (client v) = Some key /\ key <> ""
                /\ maxRetries v = Some 3.
Proof.
  destruct (validated_env_constructs sample_env) as
    (v & c & key & n & q & Hv & Hc & Hname & Hkey & Hne & Hn & _).
  - reflexivity.
  - simpl. unfold supportedProviders. rewrite elem_of_cons. by left.
  - exists v, key. split; [exact Hv|]. split; [exact Hkey|]. split; [exact Hne|].
    rewrite createVerifierFromEnv_constructor in Hv. by injection Hv as <-.
Defined.

(** X4. [getProviderInfo] resolves the provider as the constructor does:
    when [new LLMVerifier(env)] returns an instance, the description is that
    of the provider whose configuration the instance holds, OpenAI's for a
    name that is not in the table; and where the constructor rejects the name
    of an inherited member, [getProviderInfo] returns that member and no
    description. *)
Theorem getProviderInfo_follows_constructor (env : Env) :
  (forall v, LLMVerifier_new env no_constructor_options = Normal v ->
     exists c, providerConfig v = Config c
               /\ getProviderInfo env = Info (info_of (name c)))
  /\ ((exists t, LLMVerifier_new env no_constructor_options = Throw t)
      <-> exists member, getProviderInfo env = InheritedInfo member).
Proof.
  split.
  - unfold LLMVerifier_new, getProviderInfo, initializeProvider. simpl.
    repeat case_bool_decide; simpl.
    1-3: intros v [= <-]; by eexists.
    destruct (object_prototype_member _); simpl; [done|].
    intros v [= <-]. by eexists.
  - rewrite LLMVerifier_new_throws. simpl.
    unfold getProviderInfo.
    repeat case_bool_decide.
    1-3: match goal with H : _ = _ |- _ => rewrite H end;
         split; [by intros [x [=]] | by intros [m [=]]].
    destruct (object_prototype_member _) as [m|].
    + split; [by exists m | by intros _; eexists].
    + split; [by intros [x [=]] | by intros [m [=]]].
Qed.

(** ** [testConnection] *)

(** X5. [testConnection] answers [true] exactly when the call, retries
    included, returned a response whose [output_text] contains OK or ok. It
    answers [false] when the call ended with a thrown error value, and also
    when the response has no [output_text], whatever its [choices] hold. *)
Theorem testConnection_result (sdk : Sdk) (this : LLMVerifier) (w w' : World) :
  (testConnection sdk this w = (w', Normal true) <->
   exists response text,
     callLLMWithRetry sdk this testPrompt no_options 0 w = (w', Normal response)
     /\ output_text response = Some text
     /\ (occurs_in "OK" text \/ occurs_in "ok" text))
  /\ (forall e,
        callLLMWithRetry sdk this testPrompt no_options 0 w = (w', Throw (ThrownValue e)) ->
        testConnection sdk this w = (w', Normal false))
  /\ (forall response,
        callLLMWithRetry sdk this testPrompt no_options 0 w = (w', Normal response) ->
        output_text response = None ->
        testConnection sdk this w = (w', Normal false)).
Proof.
  unfold testConnection, try_catch, bind, ret, throw.
  destruct (callLLMWithRetry sdk this testPrompt no_options 0 w) as [w1 [response|t]].
  - split; [|split].
    + rewrite pair_equal_spec. split.
      * intros [-> [= H]]. apply orb_true_iff in H.
        rewrite !includes_spec in H.
        destruct (output_text response) as [text|] eqn:Ht; simpl in H.
        -- exists response, text. split; [done|]. split; [done|].
           destruct text; [|exact H].
           destruct H as [(a & b & H)|(a & b & H)]; by destruct a.
        -- destruct H as [(a & b & H)|(a & b & H)]; by destruct a.
      * intros (r & text & [= -> ->] & Ht & H). split; [done|]. f_equal.
        rewrite Ht. apply orb_true_iff. rewrite !includes_spec.
        destruct text; [|exact H].
        destruct H as [(a & b & H)|(a & b & H)]; by destruct a.
    + by intros e [=].
    + by intros r [= -> ->] ->.
  - split; [|split].
    + split.
      * destruct t; by intros [=].
      * by intros (r & text & [=] & _).
    + by intros e [= -> ->].
    + by intros r [=].
Qed.

(** ** The algebra of [normalizeScore] *)

Lemma normalizeScore_cases (q : Q) :
  ((q <= 0)%Q /\ normalizeScore (Num q) = 0)
  \/ ((1 <= q)%Q /\ normalizeScore (Num q) = 1)
  \/ ((0 < q)%Q /\ (q < 1)%Q /\ normalizeScore (Num q) = Num q).
Proof.
  rewrite normalizeScore_clamp. unfold js_le, js_ge, js_lt, js_num_eq, num_of_Z.
  destruct (Qle_bool (inject_Z 0) q) eqn:H0; simpl.
  - destruct (Qeq_bool q (inject_Z 0)) eqn:He.
    + left. split; [|done]. apply Qeq_bool_iff in He. rewrite He. apply Qle_refl.
    + apply Qle_bool_iff in H0.
      assert (H0' : (0 < q)%Q).
      { apply Qle_lteq in H0 as [H0|H0]; [done|].
        assert (Qeq_bool q (inject_Z 0) = true) by (apply Qeq_bool_iff; by symmetry).
        congruence. }
      destruct (Qle_bool q (inject_Z 1)) eqn:H1; simpl.
      * destruct (Qeq_bool q (inject_Z 1)) eqn:He1.
        { right; left. split; [|done]. apply Qeq_bool_iff in He1. rewrite He1.
          apply Qle_refl. }
        right; right. split; [done|]. split; [|done].
        apply Qle_bool_iff in H1. apply Qle_lteq in H1 as [H1|H1]; [done|].
        assert (Qeq_bool q (inject_Z 1) = true) by (by apply Qeq_bool_iff).
        congruence.
      * right; left. split; [|done]. apply Qle_bool_false in H1. by apply Qlt_le_weak.
  - left. split; [|done]. apply Qle_bool_false in H0. by apply Qlt_le_weak.
Qed.


(** ** Structured answers *)

Lemma parseLLMResponse_parsed (response : LLMResponse) (input : string) (data : Json) :
  JSON_parse (responseText response) = Some data ->
  truthy (Some data) = true ->
  parseLLMResponse response input = validateAndFormatResult data input.
Proof.
  intros Hp Ht. unfold parseLLMResponse, extractJSONFromText. by rewrite Hp, Ht.
Qed.

Lemma validateAndFormatResult_category (data : Json) (input categoryName : string) :
  categoryName ∈ validCategoryNames ->
  categories (validateAndFormatResult data input) !! categoryName
  = Some (validateCategory (category_entry data categoryName)).
Proof.
  intros Hn. unfold validateAndFormatResult, category_entry. simpl.
  rewrite validateCategories_lookup by done. f_equal. f_equal.
  destruct (prop "categories" data) as [c|]; simpl; [|done].
  destruct c as [|[]|q|s| |]; simpl; try done.
  - by destruct (Qeq_bool q 0).
  - by destruct s.
Qed.

(** X7. A reply that is valid JSON but not an object is taken as structured
    data, not as free text, when its value is truthy: a number other than
    zero, a non-empty string in quotes, [true], an array. The result is then
    invalid with confidence 0.5, the reason Verification inconclusive, the
    default issue and suggestion, and all seven categories marked as not
    checked. When the value is falsy (zero, the empty string, [false],
    [null]) the reply is read as free text; a literal that binary64 rounds
    to zero, such as 1e-400, is zero. *)
Theorem bare_value_reply_is_inconclusive (response : LLMResponse) (input : string)
    (data : Json) :
  JSON_parse (responseText response) = Some data ->
  let r := parseLLMResponse response input in
  (truthy (Some data) = true -> ~ is_object data ->
   isValid r = false
   /\ confidence r = Num (1 # 2)
   /\ reason r = JString "Verification inconclusive"
   /\ issues r = [Some (JString "Unable to verify")]
   /\ suggestions r = [Some (JString "Please try again")]
   /\ forall categoryName, categoryName ∈ validCategoryNames ->
        categories r !! categoryName = Some unchecked_category)
  /\ (truthy (Some data) = false ->
      r = parseUnstructuredResponse (responseText response) input)
  /\ JSON_parse "1e-400" = Some (JNumber 0)
  /\ parseLLMResponse (text_response "1e-400") input
     = parseUnstructuredResponse "1e-400" input.
Proof.
  intros Hp r. subst r. split; [|split; [|split]].
  - intros Ht Hno. rewrite (parseLLMResponse_parsed _ _ _ Hp Ht).
    assert (Hprop : forall k, prop k data = None).
    { intros k. destruct data; try done. exfalso. apply Hno. by eexists. }
    repeat split.
    + unfold validateAndFormatResult; simpl. by rewrite Hprop.
    + unfold validateAndFormatResult; simpl. by rewrite Hprop.
    + unfold validateAndFormatResult; simpl. by rewrite Hprop.
    + unfold validateAndFormatResult; simpl. by rewrite Hprop.
    + unfold validateAndFormatResult; simpl. by rewrite Hprop.
    + intros categoryName Hn. rewrite validateAndFormatResult_category by done.
      unfold category_entry. by rewrite Hprop.
  - intros Hf. unfold parseLLMResponse, extractJSONFromText. by rewrite Hp, Hf.
  - by vm_compute.
  - assert (Hparse : JSON_parse "1e-400" = Some (JNumber 0)) by by vm_compute.
    unfold parseLLMResponse, extractJSONFromText.
    change (responseText (text_response "1e-400")) with "1e-400". by rewrite Hparse.
Qed.

Lemma bare_value_reply_is_inconclusive_witness :
  isValid (parseLLMResponse (text_response (quoted "The content is valid and safe.")) "input")
  = false
  /\ hasPositive (quoted "The content is valid and safe.") = true.
Proof.
  split; [|reflexivity].
  apply (proj1 (bare_value_reply_is_inconclusive
                  (text_response (quoted "The content is valid and safe.")) "input"
                  (JString "The content is valid and safe.") eq_refl)).
  - reflexivity.
  - by intros [props [=]].
Defined.



(** ** What [verify] returns and when it raises *)



Lemma handleVerificationError_unreadable (this : LLMVerifier) (t0 : Thrown)
    (input : string) (options : VerificationOptions) :
  (exists t, handleVerificationError this t0 input options = Throw t) <-> unreadable t0.
Proof.
  destruct t0 as [| |e]; simpl.
  - split; [done | by eexists].
  - split; [done | by eexists].
  - unfold message_is_text. rewrite <- is_network_code_spec. unfold has_status.
    destruct (is_network_code (code e)); simpl.
    { split; [by intros [t [=]] | intros (_ & H & _); by destruct H]. }
    destruct (prim_truthy (status e)); simpl.
    { split; [by intros [t [=]] | intros (_ & _ & H); by destruct H]. }
    destruct (message e) as [| |b|n|s]; simpl.
    3,4: split; [intros _; repeat split; auto; by intros [=] | by eexists].
    all: repeat match goal with |- context [if ?b then _ else _] => destruct b end.
    all: split; [by intros [t [=]] | intros (H & _); by destruct H].
Qed.

(** X10. Among the thrown values of the embedding, which are [null],
    [undefined] and the values with a constructor whose code, status and
    message are each [undefined], [null], a boolean, an integer or a string:
    when the provider call, retries included, ends with [null], with
    [undefined], or with a value whose message is a boolean or a number and
    which has neither a transport code nor a truthy status, [verify] raises a
    TypeError; when it ends with a value whose message is a string or absent,
    or which has a transport code or a truthy status, [verify] raises nothing
    and returns an invalid result. *)
Theorem verify_rejects (sdk : Sdk) (this : LLMVerifier) (input : string)
    (options : VerificationOptions) (w w' : World) (t0 : Thrown) :
  callLLMWithRetry sdk this
    (buildVerificationPrompt input (criteria this) (context options)) options 0 w
  = (w', Throw t0) ->
  (t0 = ThrownNull \/ t0 = ThrownUndefined
   \/ (exists e, t0 = ThrownValue e
                 /\ ((exists b, message e = PBool b) \/ (exists n, message e = PNum n))
                 /\ ~ has_network_code e /\ ~ has_status e) ->
   exists m, verify sdk this input options w = (w', Throw (TypeError m)))
  /\ (forall e, t0 = ThrownValue e ->
        message_is_text e \/ has_network_code e \/ has_status e ->
        exists r, verify sdk this input options w = (w', Normal r) /\ isValid r = false).
Proof.
  intros Hcall. rewrite (verify_on_throw _ _ _ _ _ _ _ Hcall). split.
  - intros Hu.
    assert (Hun : unreadable t0).
    { destruct Hu as [->|[->|(e & -> & Hm & Hc & Hs)]]; [done | done |].
      split; [|done]. unfold message_is_text. destruct Hm as [[b Hb]|[n Hn]].
      - rewrite Hb. tauto.
      - rewrite Hn. tauto. }
    apply (handleVerificationError_unreadable this t0 input options) in Hun as [t Ht].
    rewrite Ht. destruct (handleVerificationError_throws _ _ _ _ _ Ht) as [m ->].
    by exists m.
  - intros e -> He. unfold handleVerificationError.
    destruct (isRetryableError_returns (ThrownValue e) He) as [again ->]. by eexists.
Qed.

Lemma verify_rejects_witness :
  exists w' m, verify (rejecting_sdk ThrownUndefined) sample_verifier "hello" no_options
                 fresh_world = (w', Throw (TypeError m)).
Proof.
  set (w' := fst (callLLMWithRetry (rejecting_sdk ThrownUndefined) sample_verifier
                    (buildVerificationPrompt "hello" (criteria sample_verifier) None)
                    no_options 0 fresh_world)).
  exists w'.
  apply (proj1 (verify_rejects (rejecting_sdk ThrownUndefined) sample_verifier "hello"
                  no_options fresh_world w' ThrownUndefined eq_refl)).
  right. by left.
Defined.

(** X11. The result [verify] returns for a failed provider call also says
    what failed: the issues are LLM API error and the message of the error;
    the metadata hold the name of the constructor of the error, its code or,
    failing that, its status, and whether [isRetryableError] accepts it; and
    the provider and the model are those of the call. *)
Theorem verify_failure_report (sdk : Sdk) (this : LLMVerifier) (input : string)
    (options : VerificationOptions) (w w' : World) (e : ErrorObject) (m : string) :
  callLLMWithRetry sdk this
    (buildVerificationPrompt input (criteria this) (context options)) options 0 w
  = (w', Throw (ThrownValue e)) ->
  message e = PStr m ->
  exists r again,
    verify sdk this input options w = (w', Normal r)
    /\ isRetryableError (ThrownValue e) = Normal again
    /\ issues r = [Some (JString "LLM API error"); Some (JString m)]
    /\ suggestions r = [Some (JString "Please try again later");
                        Some (JString "Check API key configuration")]
    /\ metadata r = Some {| errorType := constructor_name e;
                            errorCode := prim_value (if prim_truthy (code e)
                                                     then code e else status e);
                            retryable := again |}
    /\ (again = true <->
        has_network_code e \/ has_retryable_status e
        \/ (~ has_status e /\ message_matches e))
    /\ provider r = provider_name this
    /\ model r = Some (or_string (opt_model options) (defaultModel this))
    /\ metrics_model (metrics r) = or_string (opt_model options) (defaultModel this).
Proof.
  intros Hcall Hm. rewrite (verify_on_throw _ _ _ _ _ _ _ Hcall).
  unfold handleVerificationError.
  destruct (isRetryableError_returns (ThrownValue e)) as [again Hagain].
  { left. unfold message_is_text. by rewrite Hm. }
  rewrite Hagain. eexists _, again. split; [reflexivity|]. simpl. rewrite Hm. simpl.
  repeat split; try done.
  - intros ->. by apply isRetryableError_true.
  - intros H. apply isRetryableError_true in H. congruence.
Qed.

Lemma verify_failure_report_witness :
  exists w' r,
    verify (failing_sdk 503 "Service Unavailable") sample_verifier "hello" no_options
      fresh_world = (w', Normal r)
    /\ issues r = [Some (JString "LLM API error"); Some (JString "Service Unavailable")].
Proof.
  set (w' := fst (callLLMWithRetry (failing_sdk 503 "Service Unavailable") sample_verifier
                    (buildVerificationPrompt "hello" (criteria sample_verifier) None)
                    no_options 0 fresh_world)).
  destruct (verify_failure_report (failing_sdk 503 "Service Unavailable") sample_verifier
              "hello" no_options fresh_world w' (http_error 503 "Service Unavailable")
              "Service Unavailable") as (r & again & Hv & _ & Hi & _).
  - vm_compute. reflexivity.
  - reflexivity.
  - exists w', r. split; [exact Hv | exact Hi].
Defined.

(** ** More on the retry loop *)

Lemma callLLMWithRetry_run (sdk : Sdk) (this : LLMVerifier) (prompt : string)
    (options : VerificationOptions) (w : World) (m : Z) :
  supported this -> maxRetries this = Some m -> 0 <= m ->
  exists (n : nat) (w' : World) (r : Completion LLMResponse),
    callLLMWithRetry sdk this prompt options 0 w = (w', r)
    /\ Z.of_nat n <= m
    /\ calls w' = (calls w ++ calls_from prompt 0 (S n))%list
    /\ sleeps w' = (sleeps w ++ backoff_from 0 n)%list
    /\ (forall i : nat, (i < n)%nat ->
          exists e, attempt sdk this prompt options (Z.of_nat i) = Throw e
                    /\ isRetryableError e = Normal true)
    /\ ends_with sdk this prompt options (Z.of_nat n) (bool_decide (Z.of_nat n = m)) r.
Proof.
  intros Hs Hm Hm0.
  destruct (retry_loop_spec sdk this prompt options Hs (Z.to_nat m) 0 w)
    as (n & w' & r & Hrun & Hn & Hcalls & Hsleeps & Hretry & Hend).
  exists n, w', r. split.
  { unfold callLLMWithRetry, retries_left. rewrite Hm.
    by replace (m - 0) with m by lia. }
  split; [lia|]. split; [exact Hcalls|]. split; [exact Hsleeps|].
  split; [exact Hretry|]. simpl in Hend.
  destruct (decide (n = Z.to_nat m)) as [->|Hne].
  - rewrite bool_decide_eq_true_2 in Hend by done. by rewrite bool_decide_eq_true_2 by lia.
  - rewrite bool_decide_eq_false_2 in Hend by done. by rewrite bool_decide_eq_false_2 by lia.
Qed.

(** X12. A call recovers from failures that can be retried: when the first
    [k] attempts fail with errors [isRetryableError] accepts, [k] is at most
    [maxRetries], and the next attempt returns a response, the response is
    returned after [k + 1] provider calls and pauses of 1, 2, 4, ... seconds,
    one after each failure. *)
Theorem callLLMWithRetry_recovers (sdk : Sdk) (this : LLMVerifier) (prompt : string)
    (options : VerificationOptions) (w : World) (m : Z) (k : nat)
    (response : LLMResponse) :
  supported this -> maxRetries this = Some m -> Z.of_nat k <= m ->
  (forall i : nat, (i < k)%nat ->
     exists e, attempt sdk this prompt options (Z.of_nat i) = Throw e
               /\ isRetryableError e = Normal true) ->
  attempt sdk this prompt options (Z.of_nat k) = Normal response ->
  exists w',
    callLLMWithRetry sdk this prompt options 0 w = (w', Normal response)
    /\ calls w' = (calls w ++ calls_from prompt 0 (S k))%list
    /\ sleeps w' = (sleeps w ++ backoff_from 0 k)%list.
Proof.
  intros Hs Hm Hk Hfail Hok.
  destruct (callLLMWithRetry_run sdk this prompt options w m Hs Hm ltac:(lia))
    as (n & w' & r & Hrun & Hn & Hcalls & Hsleeps & Hretry & Hend).
  assert (n = k) as ->.
  { destruct (Nat.lt_trichotomy n k) as [Hlt|[Heq|Hgt]]; [|done|].
    - exfalso. destruct (Hfail n Hlt) as (e & Ha & Hre).
      unfold ends_with in Hend. rewrite Ha, Hre in Hend.
      rewrite bool_decide_eq_false_2 in Hend by lia. by destruct Hend.
    - exfalso. destruct (Hretry k Hgt) as (e & Ha & _). congruence. }
  exists w'. unfold ends_with in Hend. rewrite Hok in Hend. by subst r.
Qed.

Lemma callLLMWithRetry_recovers_witness :
  exists w',
    callLLMWithRetry (flaky_sdk 2 503 "The content is safe.") sample_verifier "prompt"
      no_options 0 fresh_world
    = (w', Normal (text_response "The content is safe."))
    /\ sleeps w' = [1000; 2000].
Proof.
  destruct (callLLMWithRetry_recovers (flaky_sdk 2 503 "The content is safe.")
              sample_verifier "prompt" no_options fresh_world 3 2
              (text_response "The content is safe."))
    as (w' & Hrun & _ & Hsleeps).
  - exact sample_verifier_supported.
  - reflexivity.
  - lia.
  - intros i Hi. exists (ThrownValue (http_error 503 "Service Unavailable")).
    destruct i as [|[|i]]; [done | done | lia].
  - reflexivity.
  - exists w'. split; [exact Hrun | exact Hsleeps].
Defined.

Lemma backoff_total (n : nat) :
  forall retryCount, 0 <= retryCount ->
    total (backoff_from retryCount n)
    = (2 ^ (retryCount + Z.of_nat n) - 2 ^ retryCount) * 1000.
Proof.
  unfold total, backoff_from.
  induction n as [|n IH]; intros retryCount H0.
  - simpl. rewrite Z.add_0_r. lia.
  - rewrite seqZ_cons by lia. simpl.
    replace (Z.pred (Z.of_nat (S n))) with (Z.of_nat n) by lia.
    rewrite IH by lia.
    replace (Z.succ retryCount + Z.of_nat n) with (Z.succ (retryCount + Z.of_nat n)) by lia.
    replace (retryCount + Z.of_nat (S n)) with (Z.succ (retryCount + Z.of_nat n)) by lia.
    rewrite (Z.pow_succ_r 2 retryCount) by lia. lia.
Qed.

(** X13. The pauses of one call add up to [(2 ^ n - 1)] seconds, [n] being
    the number of retries made, and so to at most [(2 ^ maxRetries - 1)]
    seconds: 7 seconds with the default of 3 retries. *)
Theorem total_backoff_bounded (sdk : Sdk) (this : LLMVerifier) (prompt : string)
    (options : VerificationOptions) (w : World) (m : Z) :
  supported this -> maxRetries this = Some m -> 0 <= m ->
  exists (w' : World) (r : Completion LLMResponse) (pauses : list Z) (n : nat),
    callLLMWithRetry sdk this prompt options 0 w = (w', r)
    /\ sleeps w' = (sleeps w ++ pauses)%list
    /\ length pauses = n /\ Z.of_nat n <= m
    /\ total pauses = (2 ^ Z.of_nat n - 1) * 1000
    /\ total pauses <= (2 ^ m - 1) * 1000
    /\ (m = 3 -> total pauses <= 7000).
Proof.
  intros Hs Hm Hm0.
  destruct (callLLMWithRetry_run sdk this prompt options w m Hs Hm Hm0)
    as (n & w' & r & Hrun & Hn & _ & Hsleeps & _).
  exists w', r, (backoff_from 0 n), n. split; [exact Hrun|]. split; [exact Hsleeps|].
  split. { unfold backoff_from. by rewrite length_fmap, length_seqZ, Nat2Z.id. }
  split; [exact Hn|].
  assert (Ht : total (backoff_from 0 n) = (2 ^ Z.of_nat n - 1) * 1000).
  { rewrite backoff_total by lia. by rewrite Z.add_0_l. }
  assert (Hle : 2 ^ Z.of_nat n <= 2 ^ m) by (apply Z.pow_le_mono_r; lia).
  split; [exact Ht|]. split; [lia|].
  intros ->. change (2 ^ 3) with 8 in Hle. lia.
Qed.

Lemma total_backoff_bounded_witness :
  exists w' r, callLLMWithRetry (failing_sdk 500 "Internal Server Error") sample_verifier
                 "prompt" no_options 0 fresh_world = (w', r)
               /\ total (sleeps w') <= 7000.
Proof.
  destruct (total_backoff_bounded (failing_sdk 500 "Internal Server Error") sample_verifier
              "prompt" no_options fresh_world 3 sample_verifier_supported eq_refl ltac:(lia))
    as (w' & r & pauses & n & Hrun & Hsleeps & _ & _ & _ & _ & H7).
  exists w', r. split; [exact Hrun|]. rewrite Hsleeps. exact (H7 eq_refl).
Defined.

(** ** How [maxRetries] is set, and what it does *)

Lemma constructed_supported (env : Env) (options : ConstructorOptions) (v : LLMVerifier) :
  LLMVerifier_new env options = Normal v -> supported v.
Proof.
  intros Hv. destruct (LLMVerifier_new_provider env options v Hv) as (c & Hc & Hn & _).
  exists (name c). split; [|done]. unfold provider_name. by rewrite Hc.
Qed.

Lemma constructed_fields (env : Env) (options : ConstructorOptions) (v : LLMVerifier) :
  LLMVerifier_new env options = Normal v ->
  maxRetries v = match nonzero (o_maxRetries options) with
                 | Some n => Some n
                 | None => parseInt (or_string (AI_MAX_RETRIES env) "3")
                 end
  /\ temperature v = match o_temperature options with
                     | Some t => if js_num_eq t 0 || js_isNaN t
                                 then parseFloat (or_string (AI_TEMPERATURE env) "0.7")
                                 else t
                     | None => parseFloat (or_string (AI_TEMPERATURE env) "0.7")
                     end.
Proof.
  unfold LLMVerifier_new. destruct (initializeClient _) as [sdk_client|]; [|done].
  by intros [= <-].
Qed.

Lemma retries_exhausted (sdk : Sdk) (this : LLMVerifier) (prompt : string)
    (options : VerificationOptions) (w : World) (m : Z) :
  supported this -> maxRetries this = Some m -> 0 <= m ->
  (forall retryCount, exists e,
     attempt sdk this prompt options retryCount = Throw e
     /\ isRetryableError e = Normal true) ->
  exists w' t,
    callLLMWithRetry sdk this prompt options 0 w = (w', Throw t)
    /\ calls w' = (calls w ++ calls_from prompt 0 (S (Z.to_nat m)))%list
    /\ sleeps w' = (sleeps w ++ backoff_from 0 (Z.to_nat m))%list.
Proof.
  intros Hs Hm Hm0 Hfail.
  destruct (callLLMWithRetry_run sdk this prompt options w m Hs Hm Hm0)
    as (n & w' & r & Hrun & Hn & Hcalls & Hsleeps & _ & Hend).
  destruct (Hfail (Z.of_nat n)) as (e & Ha & Hre).
  unfold ends_with in Hend. rewrite Ha, Hre in Hend.
  destruct (decide (Z.of_nat n = m)) as [Hnm|Hnm].
  - rewrite bool_decide_eq_true_2 in Hend by done. subst r.
    replace (Z.to_nat m) with n by lia. by exists w', e.
  - rewrite bool_decide_eq_false_2 in Hend by done. by destruct Hend.
Qed.

(** X14. The constructor takes [maxRetries: 0] and [temperature: 0] for
    absent: with [AI_MAX_RETRIES] and [AI_TEMPERATURE] unset the instance has
    3 retries and temperature 0.7, and a provider that always fails with
    status 500 is still called 4 times, with pauses of 1, 2 and 4 seconds.
    A negative [maxRetries] is kept as it is, and then nothing is retried:
    the call is one provider call without a pause. *)
Theorem zero_options_are_ignored (env : Env) (options : ConstructorOptions)
    (v : LLMVerifier) :
  LLMVerifier_new env options = Normal v ->
  (o_maxRetries options = Some 0 -> AI_MAX_RETRIES env = None ->
   maxRetries v = Some 3
   /\ forall sdk prompt opts w,
        always_fails_with sdk v 500 ->
        exists w' t,
          callLLMWithRetry sdk v prompt opts 0 w = (w', Throw t)
          /\ calls w' = (calls w ++ calls_from prompt 0 4)%list
          /\ sleeps w' = (sleeps w ++ [1000; 2000; 4000])%list)
  /\ (o_temperature options = Some (Num 0) -> AI_TEMPERATURE env = None ->
      temperature v = Num (7 # 10))
  /\ (forall m, o_maxRetries options = Some m -> m < 0 ->
      maxRetries v = Some m
      /\ forall sdk prompt opts, exists dt, forall w,
           callLLMWithRetry sdk v prompt opts 0 w
           = (called prompt 0 dt w, attempt sdk v prompt opts 0)).
Proof.
  intros Hv. pose proof (constructed_supported env options v Hv) as Hs.
  destruct (constructed_fields env options v Hv) as [Hm Ht].
  split; [|split].
  - intros Ho He. rewrite Ho, He in Hm. simpl in Hm. change (parseInt "3") with (Some 3) in Hm.
    split; [exact Hm|].
    intros sdk prompt opts w Hfail.
    refine (retries_exhausted sdk v prompt opts w 3 Hs Hm ltac:(lia) _).
    intros retryCount. destruct (Hfail prompt opts retryCount) as (e & msg & Ha & Hst & Hc & _).
    exists (ThrownValue e). split; [exact Ha|].
    by rewrite (http_error_retryable e 500).
  - intros Ho He. rewrite Ho, He in Ht. exact Ht.
  - intros m Ho Hneg. rewrite Ho in Hm.
    assert (Hnz : nonzero (Some m) = Some m).
    { unfold nonzero. cbn [mbind option_bind]. destruct m; [lia | done | done]. }
    rewrite Hnz in Hm. split; [exact Hm|]. intros sdk prompt opts.
    destruct (call_provider_spec sdk v prompt opts 0 Hs) as [dt Hcall].
    exists dt. intros w. unfold callLLMWithRetry, retries_left. rewrite Hm.
    replace (Z.to_nat (m - 0)) with O by lia. simpl.
    unfold try_catch, throw. rewrite Hcall.
    by destruct (attempt sdk v prompt opts 0).
Qed.

Lemma zero_options_are_ignored_witness :
  exists v, LLMVerifier_new (sample_env_with_retries None)
              {| o_model := None; o_maxRetries := Some 0; o_timeout := None;
                 o_temperature := None; o_maxTokens := None; o_criteria := None;
                 o_provider := None; o_sentryEnabled := None |} = Normal v
            /\ maxRetries v = Some 3.
Proof.
  eexists. split; [reflexivity|].
  refine (proj1 (proj1 (zero_options_are_ignored (sample_env_with_retries None)
                          {| o_model := None; o_maxRetries := Some 0; o_timeout := None;
                             o_temperature := None; o_maxTokens := None; o_criteria := None;
                             o_provider := None; o_sentryEnabled := None |} _ eq_refl)
                   eq_refl eq_refl)).
Defined.

(** X15. When [AI_MAX_RETRIES] does not start with an integer and the
    options give no count either, [maxRetries] is NaN and nothing is ever
    retried: the call is one provider call, without a pause, and its outcome,
    be it an error that could be retried, is the outcome of the whole. *)
Theorem unreadable_retries_disable_retrying (env : Env) (options : ConstructorOptions)
    (v : LLMVerifier) :
  LLMVerifier_new env options = Normal v ->
  nonzero (o_maxRetries options) = None ->
  parseInt (or_string (AI_MAX_RETRIES env) "3") = None ->
  maxRetries v = None
  /\ forall sdk prompt opts, exists dt, forall w,
       callLLMWithRetry sdk v prompt opts 0 w
       = (called prompt 0 dt w, attempt sdk v prompt opts 0).
Proof.
  intros Hv Hopt Henv. pose proof (constructed_supported env options v Hv) as Hs.
  assert (Hm : maxRetries v = None).
  { destruct (constructed_fields env options v Hv) as [-> _]. by rewrite Hopt, Henv. }
  split; [exact Hm|]. intros sdk prompt opts.
  destruct (call_provider_spec sdk v prompt opts 0 Hs) as [dt Hcall].
  exists dt. intros w. unfold callLLMWithRetry, retries_left. rewrite Hm. simpl.
  unfold try_catch, throw. rewrite Hcall.
  by destruct (attempt sdk v prompt opts 0).
Qed.

Lemma unreadable_retries_disable_retrying_witness :
  exists v dt,
    LLMVerifier_new (sample_env_with_retries (Some "three")) no_constructor_options = Normal v
    /\ callLLMWithRetry (failing_sdk 503 "Service Unavailable") v "prompt" no_options 0
         fresh_world
       = (called "prompt" 0 dt fresh_world,
          Throw (ThrownValue (http_error 503 "Service Unavailable"))).
Proof.
  eexists.
  destruct (proj2 (unreadable_retries_disable_retrying
                     (sample_env_with_retries (Some "three")) no_constructor_options _
                     eq_refl eq_refl eq_refl)
              (failing_sdk 503 "Service Unavailable") "prompt" no_options) as [dt Hdt].
  exists dt. split; [reflexivity|]. apply Hdt.
Defined.

(** ** The texts of a free-text result *)

Lemma trimStart_clean (s : string) : starts_clean (trimStart s).
Proof.
  induction s as [|c s IH]; simpl; [done|].
  destruct (is_space c) eqn:Hc; [exact IH | exact Hc].
Qed.

Lemma trimStart_fix (s : string) : starts_clean s -> trimStart s = s.
Proof. destruct s as [|c s]; simpl; [done|]. by intros ->. Qed.

Lemma trimEnd_clean (s : string) : starts_clean s -> starts_clean (trimEnd s).
Proof.
  destruct s as [|c s]; simpl; [done|]. intros Hc.
  destruct (trimEnd s); by rewrite ?Hc.
Qed.

Lemma trimEnd_idem (s : string) : trimEnd (trimEnd s) = trimEnd s.
Proof.
  induction s as [|c s IH]; simpl; [done|].
  destruct (trimEnd s) as [|d t] eqn:Ht.
  - destruct (is_space c) eqn:Hc; simpl; [done|]. by rewrite Hc.
  - simpl. simpl in IH. by rewrite IH.
Qed.

Lemma trim_idem (s : string) : trim (trim s) = trim s.
Proof.
  unfold trim.
  rewrite (trimStart_fix (trimEnd (trimStart s))).
  - apply trimEnd_idem.
  - apply trimEnd_clean, trimStart_clean.
Qed.

Lemma all_chars_app (p : ascii -> bool) (a b : string) :
  all_chars p (a ++ b) = all_chars p a && all_chars p b.
Proof.
  induction a as [|c a IH]; [done|]. rewrite append_cons. simpl.
  by rewrite IH, andb_assoc.
Qed.

Lemma all_chars_trimStart (p : ascii -> bool) (s : string) :
  all_chars p s = true -> all_chars p (trimStart s) = true.
Proof.
  induction s as [|c s IH]; simpl; [done|].
  intros [Hc Hs]%andb_true_iff. destruct (is_space c); [by apply IH|].
  simpl. by rewrite Hc, Hs.
Qed.

Lemma all_chars_trimEnd (p : ascii -> bool) (s : string) :
  all_chars p s = true -> all_chars p (trimEnd s) = true.
Proof.
  induction s as [|c s IH]; simpl; [done|].
  intros [Hc Hs]%andb_true_iff. specialize (IH Hs).
  destruct (trimEnd s) as [|d t].
  - destruct (is_space c); simpl; [done|]. by rewrite Hc.
  - simpl. simpl in IH. by rewrite Hc, IH.
Qed.

Lemma all_chars_trim (p : ascii -> bool) (s : string) :
  all_chars p s = true -> all_chars p (trim s) = true.
Proof. intros H. by apply all_chars_trimEnd, all_chars_trimStart. Qed.

Lemma dedupe_spec (items : list string) :
  forall seen,
    NoDup (dedupe seen items)
    /\ forall x, x ∈ dedupe seen items <-> x ∈ items /\ x ∉ seen.
Proof.
  induction items as [|y items IH]; intros seen; simpl.
  - split; [constructor|]. intros x. rewrite elem_of_nil. tauto.
  - case_bool_decide as Hy.
    + destruct (IH seen) as [Hnd Hin]. split; [done|].
      intros x. rewrite Hin, elem_of_cons. split; [tauto|].
      intros [[->|Hx] Hs]; [done | tauto].
    + destruct (IH (y :: seen)) as [Hnd Hin]. split.
      * constructor; [|done]. rewrite Hin, elem_of_cons. tauto.
      * intros x. rewrite !elem_of_cons, Hin, elem_of_cons.
        destruct (decide (x = y)) as [->|Hxy]; tauto.
Qed.

Lemma extractListFromText_shape (text : string) (patterns : list label) :
  NoDup (extractListFromText text patterns)
  /\ forall item, item ∈ extractListFromText text patterns ->
       item <> "" /\ trim item = item.
Proof.
  unfold extractListFromText. destruct (dedupe_spec
    (flat_map (fun pattern =>
       flat_map (fun m =>
         match group 1 (groups m) with
         | Some (String _ _ as g) =>
             filter (fun p => (0 < String.length p)%nat) (map trim (split_re separator_re g))
         | _ => []
         end) (matchAll (label_re pattern) text)) patterns) []) as [Hnd Hin].
  split; [exact Hnd|]. intros item Hitem. apply Hin in Hitem as [Hitem _].
  apply list_elem_of_In, in_flat_map in Hitem as (pattern & _ & Hitem).
  apply in_flat_map in Hitem as (m & _ & Hitem).
  destruct (group 1 (groups m)) as [[|c g]|]; try done.
  apply list_elem_of_In, list_elem_of_filter in Hitem as [Hlen Hitem].
  apply list_elem_of_In, in_map_iff in Hitem as (piece & <- & _).
  split; [|apply trim_idem]. intros Hempty. rewrite Hempty in Hlen. simpl in Hlen. lia.
Qed.

Lemma or_placeholder_shape (items : list string) (placeholder : string) :
  NoDup items ->
  (forall item, item ∈ items -> item <> "" /\ trim item = item) ->
  placeholder <> "" -> trim placeholder = placeholder ->
  or_placeholder items placeholder <> []
  /\ NoDup (or_placeholder items placeholder)
  /\ forall x, x ∈ or_placeholder items placeholder ->
       exists s, x = Some (JString s) /\ s <> "" /\ trim s = s.
Proof.
  intros Hnd Hitems Hp Hpt. destruct items as [|i items]; simpl.
  - split; [done|]. split; [apply NoDup_singleton|].
    intros x ->%list_elem_of_singleton. by eexists.
  - split; [done|]. split.
    + change (NoDup ((fun s => Some (JString s)) <$> (i :: items))).
      apply NoDup_fmap_2_strong; [|done]. by intros a b _ _ [=].
    + intros x Hx.
      change (x ∈ (fun s => Some (JString s)) <$> (i :: items)) in Hx.
      apply list_elem_of_fmap in Hx as (s & -> & Hs). exists s.
      split; [done|]. by apply Hitems.
Qed.

(** X16. In a free-text result the lists of issues and of suggestions are
    never empty (a placeholder stands in when the text names none), hold no
    item twice, and hold only non-empty texts without white space at either
    end. *)
Theorem fallback_lists_shape (response : LLMResponse) (input : string) :
  ~ structured response ->
  let r := parseLLMResponse response input in
  issues r <> [] /\ suggestions r <> []
  /\ NoDup (issues r) /\ NoDup (suggestions r)
  /\ forall x, x ∈ (issues r ++ suggestions r)%list ->
       exists s, x = Some (JString s) /\ s <> "" /\ trim s = s.
Proof.
  intros Hs r. subst r. rewrite parseLLMResponse_fallback by done.
  unfold parseUnstructuredResponse. simpl.
  set (text := responseText response).
  destruct (extractListFromText_shape text
              [{| stem := "issue" |}; {| stem := "problem" |}; {| stem := "concern" |}])
    as [Hnd1 Hi1].
  destruct (extractListFromText_shape text
              [{| stem := "suggestion" |}; {| stem := "recommendation" |};
               {| stem := "improvement" |}]) as [Hnd2 Hi2].
  destruct (or_placeholder_shape _ "No specific issues mentioned" Hnd1 Hi1)
    as (Ha1 & Hb1 & Hc1); [done | reflexivity |].
  destruct (or_placeholder_shape _ "No suggestions provided" Hnd2 Hi2)
    as (Ha2 & Hb2 & Hc2); [done | reflexivity |].
  repeat split; try done.
  intros x [Hx|Hx]%elem_of_app; auto.
Qed.

Lemma fallback_lists_shape_witness :
  NoDup (issues (parseLLMResponse (text_response "Issues: spam, spam , typos") "input"))
  /\ issues (parseLLMResponse (text_response "Issues: spam, spam , typos") "input")
     = [Some (JString "spam"); Some (JString "typos")].
Proof.
  split; [|vm_compute; reflexivity].
  apply (fallback_lists_shape (text_response "Issues: spam, spam , typos") "input").
  unfold structured. vm_compute. discriminate.
Defined.

Lemma all_chars_impl (p q : ascii -> bool) (s : string) :
  (forall c, p c = true -> q c = true) -> all_chars p s = true -> all_chars q s = true.
Proof.
  intros Hpq. induction s as [|c s IH]; simpl; [done|].
  intros [Hc Hs]%andb_true_iff. by rewrite (Hpq c Hc), IH.
Qed.

Lemma Matches_class_plus_elim (p : ascii -> bool) (s rest : string) :
  Matches (Plus true (Chr p)) s rest ->
  exists taken, s = taken ++ rest /\ all_chars p taken = true.
Proof.
  unfold Plus. intros H.
  inversion H as [| |r1 r2 s0 s1 s2 H1 H2| | | | |]; subst.
  inversion H1 as [|p' c s3 Hc| | | | | |]; subst.
  apply Matches_class_star_elim in H2 as (gap & -> & Hgap).
  exists (String c gap). split; [done|]. simpl. by rewrite Hc.
Qed.

(** What the pattern of [extractReason] captures holds no full stop. *)
Lemma reason_re_group (text : string) (m : found) :
  search reason_re text = Some m ->
  exists g, group 1 (groups m) = Some g /\ all_chars not_full_stop g = true.
Proof.
  intros H. apply search_sound in H as (pre & start & _ & H).
  unfold exec_at, reason_re in H. rewrite rmatch_Seq in H.
  apply rmatch_sound in H as (s1 & c1 & _ & H). rewrite rmatch_Seq in H.
  apply rmatch_sound in H as (s2 & c2 & _ & H). rewrite rmatch_Group in H.
  apply rmatch_sound in H as (s3 & c3 & Hm & [= _ <-]).
  apply Matches_class_plus_elim in Hm as (taken & -> & Htaken).
  exists taken. simpl. rewrite consumed_app. split; [done|].
  revert Htaken. apply all_chars_impl. intros c Hc. unfold not_full_stop.
  by destruct (Ascii.eqb c ".").
Qed.

Lemma split_char_first (s : string) :
  forall piece, all_chars not_full_stop piece = true ->
    all_chars not_full_stop (hd "" (split_char "." piece s)) = true.
Proof.
  induction s as [|c s IH]; intros piece Hp; simpl; [done|].
  destruct (Ascii.eqb c ".") eqn:Hc; simpl; [done|].
  apply IH. rewrite all_chars_app, Hp. simpl. unfold not_full_stop. by rewrite Hc.
Qed.

(** X17. The reason [extractReason] gives never holds a full stop (the text
    is cut at the first one, also inside a number) and has no white space at
    either end. *)
Theorem extractReason_shape (text : string) :
  all_chars not_full_stop (extractReason text) = true
  /\ trim (extractReason text) = extractReason text.
Proof.
  unfold extractReason. destruct (search reason_re text) as [m|] eqn:Hm.
  - destruct (reason_re_group text m Hm) as (g & -> & Hg). simpl.
    split; [by apply all_chars_trim | apply trim_idem].
  - destruct (10 <? _)%nat.
    + split; [|apply trim_idem]. apply all_chars_trim. by apply split_char_first.
    + split; reflexivity.
Qed.

(** ** The prompt *)

Lemma occurs_in_here (x b : string) : occurs_in x (x ++ b).
Proof. by exists "", b. Qed.

Lemma occurs_in_here2 (a b c : string) : occurs_in (a ++ b) (a ++ b ++ c).
Proof. exists "", c. by rewrite append_nil_l, append_assoc. Qed.

Lemma occurs_in_app_l (x a b : string) : occurs_in x a -> occurs_in x (a ++ b).
Proof. intros (pre & post & ->). exists pre, (post ++ b). by rewrite !append_assoc. Qed.

Lemma occurs_in_app_r (x a b : string) : occurs_in x b -> occurs_in x (a ++ b).
Proof. intros (pre & post & ->). exists (a ++ pre), post. by rewrite !append_assoc. Qed.

Ltac find_text :=
  first [ apply occurs_in_here
        | apply occurs_in_here2
        | apply occurs_in_app_l; find_text
        | apply occurs_in_app_r; find_text ].

(** X18. The prompt [buildVerificationPrompt] makes holds the content as it
    is, between double quotes and without any escaping; the context, when
    one is given; the line of every criterion that is switched on; and the
    format lines of all seven categories, whatever the criteria are. *)
Theorem buildVerificationPrompt_contents (input : string) (crit : VerificationCriteria)
    (context : option string) :
  let prompt := buildVerificationPrompt input crit context in
  occurs_in ("Content to verify: " ++ quoted input) prompt
  /\ (forall c, context = Some c -> c <> "" -> occurs_in ("Context: " ++ c) prompt)
  /\ (forall line, (true, line) ∈ criterion_lines crit -> occurs_in line prompt)
  /\ (forall categoryName, categoryName ∈ validCategoryNames ->
        occurs_in (category_line categoryName) prompt).
Proof.
  intros prompt. subst prompt. unfold buildVerificationPrompt.
  split; [find_text|]. split; [|split].
  - intros c -> Hc. destruct c as [|a c]; [done|]. find_text.
  - intros line Hline. unfold criterion_lines in Hline.
    rewrite !elem_of_cons, elem_of_nil in Hline.
    destruct Hline as [[= <- ->]|[[= <- ->]|[[= <- ->]|[[= <- ->]|[[= <- ->]|[[= <- ->]|
                      [[= <- ->]|[]]]]]]]]; unfold when; find_text.
  - intros categoryName Hn. unfold validCategoryNames in Hn.
    rewrite !elem_of_cons, elem_of_nil in Hn.
    destruct Hn as [->|[->|[->|[->|[->|[->|[->|[]]]]]]]]; find_text.
Qed.

(** ** The provider calls and the pauses of a batch *)

Section BatchTrace.

Variable sdk : Sdk.
Variable this : LLMVerifier.
Hypothesis Hsupported : supported this.
Hypothesis Hanswers : answers sdk this.

Lemma callLLMWithRetry_answered (prompt : string) (options : VerificationOptions)
    (w : World) :
  exists dt response,
    callLLMWithRetry sdk this prompt options 0 w
    = (called prompt 0 dt w, Normal response).
Proof.
  destruct (call_provider_spec sdk this prompt options 0 Hsupported) as [dt Hcall].
  destruct (Hanswers prompt options 0) as [response Ha].
  exists dt, response. unfold callLLMWithRetry.
  destruct (retries_left this 0); simpl; unfold try_catch; by rewrite Hcall, Ha.
Qed.

Lemma verify_world (input : string) (options : VerificationOptions) (w : World) :
  fst (verify sdk this input options w)
  = fst (callLLMWithRetry sdk this
           (buildVerificationPrompt input (criteria this) (context options)) options 0 w).
Proof.
  unfold verify, try_catch, bind, Date_now.
  destruct (callLLMWithRetry _ _ _ _ _ _) as [w1 [response|t]]; simpl; [|done].
  unfold calculateMetrics, bind, Date_now, lift, ret.
  by destruct (calculateCost _ _ _).
Qed.

Lemma verify_item_trace (total : Z) (options : VerificationOptions) (position : Z)
    (input : string) (w : World) :
  exists w' r,
    verify_item sdk this total options position input w = (w', Normal r)
    /\ calls w' = (calls w ++ [first_call this options input])%list
    /\ sleeps w' = sleeps w.
Proof.
  destruct (verify_item_returns sdk this total options position input w)
    as (w' & r & Hrun & _).
  exists w', r. split; [exact Hrun|].
  assert (Hw : w' = fst (verify_item sdk this total options position input w))
    by by rewrite Hrun.
  unfold verify_item, try_catch in Hw.
  set (o := {| opt_model := opt_model options; opt_temperature := opt_temperature options;
               opt_maxTokens := opt_maxTokens options; batchSize := batchSize options;
               context := context options; batchIndex := Some position;
               batchTotal := Some total |}) in Hw.
  pose proof (verify_world input o w) as Hv.
  destruct (callLLMWithRetry_answered
              (buildVerificationPrompt input (criteria this) (context o)) o w)
    as (dt & response & Hcall).
  rewrite Hcall in Hv. simpl in Hv.
  assert (w' = called (buildVerificationPrompt input (criteria this) (context options))
                 0 dt w) as ->.
  { rewrite Hw, <- Hv. by destruct (verify sdk this input o w) as [w1 [r1|t1]]. }
  done.
Qed.

Lemma verify_chunk_trace (total : Z) (options : VerificationOptions) (i : Z)
    (batch : list string) :
  forall (index : Z) (w : World),
  exists w' rs,
    verify_chunk sdk this total options i batch index w = (w', Normal rs)
    /\ calls w' = (calls w ++ (first_call this options <$> batch))%list
    /\ sleeps w' = sleeps w.
Proof.
  induction batch as [|input batch IH]; intros index w.
  - exists w, []. by rewrite app_nil_r.
  - simpl. unfold bind at 1.
    destruct (verify_item_trace total options (i + index) input w)
      as (w1 & r & -> & Hc1 & Hs1).
    unfold bind at 1. destruct (IH (index + 1) w1) as (w2 & rs & -> & Hc2 & Hs2).
    exists w2, (r :: rs). split; [done|]. split; [|congruence].
    rewrite Hc2, Hc1, <- app_assoc. done.
Qed.

Lemma batch_loop_trace (inputs : list string) (options : VerificationOptions) (size : Z) :
  0 < size ->
  forall (fuel : nat) (i : Z) (results : list VerificationResult) (w : World),
    0 <= i -> Z.of_nat (length inputs) - i <= Z.of_nat fuel * size ->
    exists w' rs,
      batch_loop sdk this fuel inputs options size i results w = Some (w', Normal rs)
      /\ calls w' = (calls w ++ (first_call this options <$> drop (Z.to_nat i) inputs))%list
      /\ sleeps w'
         = (sleeps w
            ++ replicate (Z.to_nat ((Z.of_nat (length inputs) - i - 1) / size)) 1000)%list.
Proof.
  intros Hsz fuel. induction fuel as [|fuel IH]; intros i results w Hi Hfuel.
  - exists w, results. unfold batch_loop.
    destruct (Z.ltb_spec i (Z.of_nat (length inputs))) as [?|Hge]; [lia|].
    split; [done|]. rewrite drop_ge by lia. rewrite app_nil_r. split; [done|].
    assert ((Z.of_nat (length inputs) - i - 1) / size < 0)
      by (apply Z.div_lt_upper_bound; lia).
    replace (Z.to_nat _) with 0%nat by lia. by rewrite app_nil_r.
  - rewrite batch_loop_step. destruct (Z.ltb_spec i (Z.of_nat (length inputs))) as [Hlt|Hge].
    + rewrite slice_chunk by done.
      set (rest := drop (Z.to_nat i) inputs).
      destruct (verify_chunk_trace (Z.of_nat (length inputs)) options i
                  (take (Z.to_nat size) rest) 0 w) as (w1 & rs1 & -> & Hc1 & Hs1).
      set (w2 := if i + size <? Z.of_nat (length inputs) then fst (sleep 1000 w1) else w1).
      destruct (IH (i + size) (results ++ rs1)%list w2 ltac:(lia) ltac:(nia))
        as (w' & rs2 & -> & Hc2 & Hs2).
      exists w', rs2. split; [done|].
      assert (Hcw : calls w2 = calls w1) by (unfold w2; by destruct (_ <? _)).
      split.
      * rewrite Hc2, Hcw, Hc1, <- app_assoc, <- fmap_app. do 2 f_equal.
        rewrite <- (take_drop (Z.to_nat size) rest) at 2. f_equal.
        unfold rest. rewrite drop_drop. f_equal. lia.
      * rewrite Hs2. unfold w2.
        destruct (Z.ltb_spec (i + size) (Z.of_nat (length inputs))) as [Hmore|Hlast].
        -- simpl. rewrite Hs1, <- app_assoc. f_equal.
           replace (Z.of_nat (length inputs) - i - 1)
             with ((Z.of_nat (length inputs) - (i + size) - 1) + 1 * size) by lia.
           rewrite Z_div_plus by lia.
           assert (0 <= (Z.of_nat (length inputs) - (i + size) - 1) / size)
             by (apply Z.div_pos; lia).
           replace (Z.to_nat ((Z.of_nat (length inputs) - (i + size) - 1) / size + 1))
             with (S (Z.to_nat ((Z.of_nat (length inputs) - (i + size) - 1) / size)))
             by lia.
           done.
        -- rewrite Hs1. f_equal.
           assert ((Z.of_nat (length inputs) - (i + size) - 1) / size < 0)
             by (apply Z.div_lt_upper_bound; lia).
           rewrite (Z.div_small (Z.of_nat (length inputs) - i - 1)) by lia.
           by replace (Z.to_nat _) with 0%nat by lia.
    + exists w, results. split; [done|]. rewrite drop_ge by lia. rewrite app_nil_r.
      split; [done|].
      assert ((Z.of_nat (length inputs) - i - 1) / size < 0)
        by (apply Z.div_lt_upper_bound; lia).
      replace (Z.to_nat _) with 0%nat by lia. by rewrite app_nil_r.
Qed.

End BatchTrace.

(** X19. When the provider answers every call, [verifyBatch] with a batch
    size that is not negative sends each input to the provider once, in the
    order of the inputs, and pauses for one second between two chunks and
    nowhere else: with [n] inputs in chunks of [size] that makes
    [(n - 1) / size] pauses, none for an empty list. *)
Theorem verifyBatch_calls_and_pauses (sdk : Sdk) (this : LLMVerifier)
    (inputs : list string) (options : VerificationOptions) (w : World) :
  supported this -> answers sdk this ->
  (forall size, batchSize options = Some size -> 0 <= size) ->
  let size := or_count (batchSize options) 3 in
  exists w' rs,
    (forall fuel, (length inputs <= fuel)%nat ->
       verifyBatch sdk this fuel inputs options w = Some (w', Normal rs))
    /\ calls w' = (calls w ++ (first_call this options <$> inputs))%list
    /\ sleeps w'
       = (sleeps w ++ replicate (Z.to_nat ((Z.of_nat (length inputs) - 1) / size)) 1000)%list.
Proof.
  intros Hs Ha Hsize size.
  assert (Hpos : 0 < size).
  { unfold size, or_count. destruct (batchSize options) as [n|] eqn:Hb; simpl; [|lia].
    specialize (Hsize n eq_refl). destruct n; simpl; lia. }
  destruct (batch_loop_trace sdk this Hs Ha inputs options size Hpos (length inputs) 0 [] w)
    as (w' & rs & Hrun & Hcalls & Hsleeps); [lia | nia |].
  exists w', rs. split; [|split].
  - intros fuel Hfuel. unfold verifyBatch.
    by apply (batch_loop_more_fuel sdk this inputs options size (length inputs)).
  - by rewrite Hcalls.
  - rewrite Hsleeps. by rewrite Z.sub_0_r.
Qed.

Lemma verifyBatch_calls_and_pauses_witness :
  exists w' rs,
    verifyBatch (replying_sdk "The content is safe.") sample_verifier 5
      ["a"; "b"; "c"; "d"; "e"] (batch_options 2) fresh_world = Some (w', Normal rs)
    /\ length (calls w') = 5%nat /\ sleeps w' = [1000; 1000].
Proof.
  destruct (verifyBatch_calls_and_pauses (replying_sdk "The content is safe.")
              sample_verifier ["a"; "b"; "c"; "d"; "e"] (batch_options 2) fresh_world)
    as (w' & rs & Hrun & Hcalls & Hsleeps).
  - exact sample_verifier_supported.
  - intros prompt options retryCount. by eexists.
  - intros size [= <-]. lia.
  - exists w', rs. split; [apply Hrun; simpl; lia|]. split.
    + rewrite Hcalls. reflexivity.
    + rewrite Hsleeps. reflexivity.
Defined.

(** ** Finding the JSON object in a reply *)

Lemma all_chars_any (s : string) : all_chars any_char s = true.
Proof. induction s; simpl; auto. Qed.

Lemma braces_re_spec (text : string) :
  is_Some (search braces_re text) <-> has_braces text.
Proof.
  rewrite search_spec. unfold has_braces, braces_re. split.
  - intros (pre & start & rest & -> & H).
    inversion H as [| |r1 r2 s0 s1 s2 H1 H2| | | | |]; subst.
    inversion H1 as [|p c s3 Hc| | | | | |]; subst.
    apply Ascii.eqb_eq in Hc as <-.
    inversion H2 as [| |r1 r2 s0 s4 s5 H3 H4| | | | |]; subst.
    apply Matches_class_star_elim in H3 as (body & -> & _).
    inversion H4 as [|p c s3 Hc| | | | | |]; subst.
    apply Ascii.eqb_eq in Hc as <-.
    by exists pre, body, rest.
  - intros (pre & body & post & ->).
    exists pre, ("{" ++ body ++ "}" ++ post), post. split; [done|].
    apply M_Seq with (body ++ "}" ++ post); [by constructor|].
    apply M_Seq with ("}" ++ post).
    + apply Matches_class_star_intro, all_chars_any.
    + by constructor.
Qed.

(** X20. A reply that is not JSON as a whole and in which no opening brace
    is followed by a closing one yields no data: it is read as free text. *)
Theorem brace_free_reply_is_free_text (response : LLMResponse) (input : string) :
  JSON_parse (responseText response) = None ->
  ~ has_braces (responseText response) ->
  extractJSONFromText (responseText response) = JNull
  /\ parseLLMResponse response input
     = parseUnstructuredResponse (responseText response) input.
Proof.
  intros Hp Hb.
  assert (He : extractJSONFromText (responseText response) = JNull).
  { unfold extractJSONFromText. rewrite Hp.
    destruct (search braces_re (responseText response)) as [m|] eqn:Hm; [|done].
    exfalso. apply Hb, braces_re_spec. by rewrite Hm. }
  split; [exact He|]. apply parseLLMResponse_fallback. unfold structured. by rewrite He.
Qed.

Lemma brace_free_reply_is_free_text_witness :
  parseLLMResponse (text_response "The content is good } and { safe.") "input"
  = parseUnstructuredResponse "The content is good } and { safe." "input".
Proof.
  apply (brace_free_reply_is_free_text (text_response "The content is good } and { safe.")).
  - reflexivity.
  - intros Hb. apply braces_re_spec in Hb. vm_compute in Hb. by destruct Hb.
Defined.

Lemma iterate_any_step {R : Type} (k : string -> captures -> option R) (fuel : nat)
    (c : ascii) (s : string) (caps : captures) :
  iterate (rmatch (Chr any_char)) true k (S fuel) (String c s) caps
  = match iterate (rmatch (Chr any_char)) true k fuel s caps with
    | Some x => Some x
    | None => k (String c s) caps
    end.
Proof.
  cbn [iterate rmatch]. unfold any_char.
  destruct (Nat.ltb_spec (String.length s) (String.length (String c s))) as [_|H];
    [done | simpl in H; lia].
Qed.

Lemma iterate_any_nil {R : Type} (k : string -> captures -> option R) (fuel : nat)
    (caps : captures) :
  iterate (rmatch (Chr any_char)) true k fuel "" caps = k "" caps.
Proof. by destruct fuel. Qed.

Lemma iterate_any_none {R : Type} (k : string -> captures -> option R) :
  (forall s caps, all_chars not_close s = true -> k s caps = None) ->
  forall (fuel : nat) (s : string) (caps : captures),
    all_chars not_close s = true ->
    iterate (rmatch (Chr any_char)) true k fuel s caps = None.
Proof.
  intros Hk. induction fuel as [|fuel IH]; intros s caps Hs.
  - by apply Hk.
  - destruct s as [|c s]; [rewrite iterate_any_nil; by apply Hk|].
    rewrite iterate_any_step. rewrite IH; [by apply Hk|].
    cbn [all_chars] in Hs. by apply andb_true_iff in Hs as [_ Hs].
Qed.

Lemma iterate_any_last {R : Type} (k : string -> captures -> option R)
    (post : string) (caps : captures) (x : R) :
  all_chars not_close post = true ->
  (forall s caps, all_chars not_close s = true -> k s caps = None) ->
  k (String "}" post) caps = Some x ->
  forall (body : string) (fuel : nat),
    (String.length (body ++ String "}" post) <= fuel)%nat ->
    iterate (rmatch (Chr any_char)) true k fuel (body ++ String "}" post) caps = Some x.
Proof.
  intros Hpost Hnone Hk. induction body as [|c body IH]; intros fuel Hfuel.
  - rewrite append_nil_l in Hfuel |- *. destruct fuel as [|fuel]; [simpl in Hfuel; lia|].
    rewrite iterate_any_step. by rewrite iterate_any_none.
  - rewrite append_cons in Hfuel |- *. destruct fuel as [|fuel]; [simpl in Hfuel; lia|].
    cbn [String.length] in Hfuel. rewrite iterate_any_step. by rewrite IH by lia.
Qed.

Lemma exec_at_braces (body post : string) :
  all_chars not_close post = true ->
  exec_at braces_re (String "{" (body ++ String "}" post)) = Some (post, []).
Proof.
  intros Hpost. unfold exec_at, braces_re. rewrite rmatch_Seq.
  change (rmatch (Chr (ch "{")) (String "{" ?s) ?caps ?k) with (k s caps). cbv beta.
  rewrite rmatch_Seq.
  change (rmatch (Star true (Chr any_char)) ?s ?caps ?k)
    with (iterate (rmatch (Chr any_char)) true k (String.length s) s caps).
  apply iterate_any_last; [done | | | done].
  - intros s caps Hs. destruct s as [|c s]; [done|]. cbn [all_chars] in Hs.
    apply andb_true_iff in Hs as [Hc _]. unfold not_close in Hc. cbn [rmatch].
    by destruct (ch "}" c).
  - reflexivity.
Qed.

Lemma search_braces_skip (pre start rest : string) (caps : captures) :
  all_chars not_open pre = true ->
  exec_at braces_re start = Some (rest, caps) ->
  search braces_re (pre ++ start)
  = Some {| before := pre; matched := consumed start rest; groups := caps; after := rest |}.
Proof.
  intros Hpre Hexec. induction pre as [|c pre IH].
  - rewrite append_nil_l, search_unfold. by rewrite Hexec.
  - cbn [all_chars] in Hpre. apply andb_true_iff in Hpre as [Hc Hpre].
    rewrite append_cons, search_unfold.
    assert (exec_at braces_re (String c (pre ++ start)) = None) as ->.
    { unfold exec_at, braces_re. rewrite rmatch_Seq. cbn [rmatch].
      unfold not_open in Hc. by destruct (ch "{" c). }
    by rewrite (IH Hpre).
Qed.

Lemma parse_members_object (fuel : nat) :
  forall (s : string) (acc : list (string * Json)) (v : Json) (rest : string),
    parse_members fuel s acc = Some (v, rest) -> is_object v.
Proof.
  induction fuel as [|fuel IH]; intros s acc v rest; [done|].
  cbn [parse_members]. repeat case_match; try done.
  all: first [ apply IH | intros [= <- _]; by eexists ].
Qed.

Lemma JSON_parse_object (s : string) (v : Json) :
  JSON_parse (String "{" s) = Some v -> is_object v.
Proof.
  unfold JSON_parse.
  destruct (parse_value _ _) as [[v' rest]|] eqn:Hp; [|done].
  intros Hv. assert (v' = v) as -> by (destruct (skip_ws rest); congruence).
  clear Hv. destruct (2 * _ + 2)%nat as [|fuel]; [done|].
  cbn [parse_value] in Hp. change (skip_ws (String "{" s)) with (String "{" s) in Hp.
  cbv iota beta in Hp. revert Hp. repeat case_match; try done.
  all: first [ apply parse_members_object | intros [= <- _]; by eexists ].
Qed.

(** X21. A JSON object wrapped in prose is found: when the reply is not JSON
    as a whole, the text in front of the object holds no opening brace and
    the text behind it no closing one, the span from the first opening brace
    to the last closing one is parsed, and the result is the one the bare
    object would give. *)
Theorem embedded_object_is_extracted (response : LLMResponse) (input : string)
    (pre body post : string) (v : Json) :
  responseText response = pre ++ "{" ++ body ++ "}" ++ post ->
  all_chars not_open pre = true ->
  all_chars not_close post = true ->
  JSON_parse (responseText response) = None ->
  JSON_parse ("{" ++ body ++ "}") = Some v ->
  extractJSONFromText (responseText response) = v
  /\ parseLLMResponse response input
     = parseLLMResponse (text_response ("{" ++ body ++ "}")) input.
Proof.
  intros Htext Hpre Hpost Hwhole Hobj.
  assert (Hspan : "{" ++ body ++ "}" ++ post = String "{" (body ++ String "}" post)).
  { by rewrite append_cons, append_nil_l, (append_cons "}"), append_nil_l. }
  assert (He : extractJSONFromText (responseText response) = v).
  { unfold extractJSONFromText. rewrite Hwhole, Htext, Hspan.
    rewrite (search_braces_skip pre _ post [] Hpre (exec_at_braces body post Hpost)).
    cbn [matched]. rewrite <- Hspan.
    replace ("{" ++ body ++ "}" ++ post) with (("{" ++ body ++ "}") ++ post)
      by (by rewrite !append_assoc).
    by rewrite consumed_app, Hobj. }
  split; [exact He|].
  assert (Hv : truthy (Some v) = true).
  { apply truthy_object. apply (JSON_parse_object (body ++ "}")).
    by rewrite append_cons, append_nil_l in Hobj. }
  unfold parseLLMResponse. rewrite He, Hv.
  assert (Hbare : responseText (text_response ("{" ++ body ++ "}")) = "{" ++ body ++ "}").
  { unfold responseText, text_response. cbn [output_text first_choice].
    rewrite append_cons. reflexivity. }
  rewrite Hbare. unfold extractJSONFromText. rewrite Hobj. by rewrite Hv.
Qed.

Lemma embedded_object_is_extracted_witness :
  extractJSONFromText
    ("Here is my verdict: " ++ "{" ++ dq "'isValid': true, 'confidence': 0.9" ++ "}"
     ++ " I hope this helps.")
  = JObject [("isValid", JBool true); ("confidence", JNumber (9 # 10))].
Proof.
  apply (embedded_object_is_extracted
           (text_response ("Here is my verdict: " ++ "{"
                           ++ dq "'isValid': true, 'confidence': 0.9" ++ "}"
                           ++ " I hope this helps."))
           "input" "Here is my verdict: " (dq "'isValid': true, 'confidence': 0.9")
           " I hope this helps.").
  - reflexivity.
  - reflexivity.
  - reflexivity.
  - reflexivity.
  - reflexivity.
Defined.

(** ** The number read as the confidence of a free text *)

(** X22. The confidence read from a free text is the first number behind the
    word confidence, and a whole number is read as 1, or 0 when it is zero:
    when nothing in front of the word holds the letter c, the gap between the
    word and the number holds no digit and no line break, and the digits are
    followed by neither a digit nor a full stop, a text such as Confidence:
    85% or confidence 8/10 gets the confidence 1. *)
Theorem whole_number_confidence (pre word gap ds rest : string) :
  all_chars not_letter_c pre = true ->
  toLowerCase word = "confidence" ->
  all_chars not_digit_on_line gap = true ->
  ds <> "" -> all_chars is_digit ds = true ->
  stops is_digit rest -> stops (ch ".") rest ->
  calculateConfidenceFromText (pre ++ word ++ gap ++ ds ++ rest)
  = if digits_value 0 ds =? 0 then 0 else 1.
Proof.
  intros Hpre Hword Hgap Hne Hds Hrest Hdot. unfold calculateConfidenceFromText.
  rewrite (search_skip confidence_re not_letter_c pre _ rest [(1%nat, ds)]);
    [| | done | by apply confidence_re_at].
  2: { intros c t Hc. unfold exec_at, confidence_re. rewrite rmatch_Seq.
       cbn [Lit]. rewrite rmatch_Seq. apply rmatch_Chr_stop. simpl.
       unfold not_letter_c in Hc. by destruct (ich "c" c). }
  cbn -[parseFloat normalizeScore digits_value].
  destruct (parseFloat_digits ds Hne Hds) as (q & -> & Hq).
  pose proof (digits_value_nonneg ds Hds 0 ltac:(lia)) as Hm.
  destruct (Z.eqb_spec (digits_value 0 ds) 0) as [H0|H0].
  - rewrite H0 in Hq.
    destruct (normalizeScore_cases q) as [[_ ->]|[[H _]|(H & _ & _)]]; [done| |].
    + exfalso. rewrite Hq in H. unfold Qle in H. simpl in H. lia.
    + exfalso. rewrite Hq in H. unfold Qlt in H. simpl in H. lia.
  - destruct (normalizeScore_cases q) as [[H _]|[[_ ->]|(_ & H & _)]]; [|done|].
    + exfalso. rewrite Hq in H. unfold Qle in H. simpl in H. lia.
    + exfalso. rewrite Hq in H. unfold Qlt in H. simpl in H. lia.
Qed.

Lemma whole_number_confidence_witness :
  calculateConfidenceFromText "Overall Confidence: 85%" = 1.
Proof.
  apply (whole_number_confidence "Overall " "Confidence" ": " "85" "%").
  - reflexivity.
  - reflexivity.
  - reflexivity.
  - discriminate.
  - reflexivity.
  - reflexivity.
  - reflexivity.
Defined.

